(** * claude-code-hub: admission and cost-governance core

    A shallow embedding of the in-process store ([InMemoryZSet],
    [InMemoryMap], [InMemoryStore], [InMemoryPipeline]), of the window and
    session scripts built on it, of the session tracker, the rate limit
    service, the endpoint health tracker, the endpoint selector and the cost
    multiplier engine, followed by the properties established about them.

    Conventions of the embedding:
    - asynchronous functions become state-passing functions; a section guarded
      by [mutex.runExclusive] is one function call, so the interleavings of
      concurrent callers are the sequential orders of the calls;
    - [Date.now()] is an explicit argument [now] (milliseconds);
    - a JavaScript number is an IEEE 754 double ([Js.number], the binary64
      format of [SpecFloat]): dollar amounts, limits and multipliers are
      doubles, added, multiplied and compared as the hardware does, read with
      [Js.parseFloat] and printed with [Js.toString];
    - timestamps, scores, identifiers and counters are numbers holding
      integers far below 2^53, on which the arithmetic of doubles is exact;
      they are modelled as [Z];
    - strings are byte strings. *)

From Stdlib Require Import ZArith QArith Qround String Ascii DecimalString DecimalZ DecimalPos.
From Stdlib Require Import Permutation Lqa.
From Corelib Require Import SpecFloat.
From stdpp Require Import gmap strings list sorting.

Local Open Scope Z_scope.

(* ===================================================================== *)
(** * Part I: the program *)
(* ===================================================================== *)

(** ** JavaScript primitives used by the sources *)

Module Js.

(** [String(n)] and the template literal of a number holding an integer. *)
Definition numberToString (z : Z) : string :=
  NilZero.string_of_int (Z.to_int z).

Definition isDigit (c : ascii) : bool :=
  let n := nat_of_ascii c in ((48 <=? n) && (n <=? 57))%nat.

(** White space skipped by [parseFloat]: TAB, LF, VT, FF, CR and SP. *)
Definition isWhiteSpace (c : ascii) : bool :=
  let n := nat_of_ascii c in
  ((9 <=? n) && (n <=? 13) || (n =? 32))%nat.

Fixpoint trimStart (s : string) : string :=
  match s with
  | String c r => if isWhiteSpace c then trimStart r else s
  | EmptyString => EmptyString
  end.

Fixpoint digitPrefix (s : string) : string :=
  match s with
  | String c r => if isDigit c then String c (digitPrefix r) else EmptyString
  | EmptyString => EmptyString
  end.

Definition parseDigits (s : string) : option Z :=
  option_map Z.of_uint (NilZero.uint_of_string (digitPrefix s)).

(** [s.indexOf(c)]: the first position of [c], or -1. *)
Fixpoint indexOf (c : ascii) (s : string) : Z :=
  match s with
  | EmptyString => -1
  | String a r =>
      if Ascii.eqb a c then 0
      else let i := indexOf c r in if i <? 0 then -1 else i + 1
  end.

Fixpoint dropChars (n : nat) (s : string) : string :=
  match n, s with
  | O, _ => s
  | S k, String _ r => dropChars k r
  | S _, EmptyString => EmptyString
  end.

(** [s.substring(i)]: a negative start is clamped to 0. *)
Definition substringFrom (i : Z) (s : string) : string :=
  dropChars (Z.to_nat (Z.max 0 i)) s.

(** [arr.slice(s, e)]: negative indices count from the end, both ends are
    clamped to the array. *)
Definition slice {A} (s e : Z) (l : list A) : list A :=
  let len := Z.of_nat (length l) in
  let k := if s <? 0 then Z.max (len + s) 0 else Z.min s len in
  let fin := if e <? 0 then Z.max (len + e) 0 else Z.min e len in
  take (Z.to_nat (fin - k)) (drop (Z.to_nat k) l).

(** [arr[i]]: [undefined] ([None]) outside the array. *)
Definition at_ {A} (l : list A) (i : Z) : option A :=
  if i <? 0 then None else l !! Z.to_nat i.

(** [Array.prototype.sort] with the comparator [(a, b) => key(a) - key(b)]:
    ascending in [key] and stable. *)
Fixpoint sortInsert {A} (key : A -> Z) (x : A) (l : list A) : list A :=
  match l with
  | [] => [x]
  | y :: r => if key x <=? key y then x :: y :: r else y :: sortInsert key x r
  end.

Definition sortBy {A} (key : A -> Z) (l : list A) : list A :=
  foldr (sortInsert key) [] l.

(** [parseInt(s, 10)]: leading white space, an optional sign, then the longest
    run of digits; [None] is NaN. *)
Definition parseInt (s : string) : option Z :=
  match trimStart s with
  | String c r =>
      if Ascii.eqb c "-" then option_map Z.opp (parseDigits r)
      else if Ascii.eqb c "+" then parseDigits r
      else parseDigits (String c r)
  | EmptyString => None
  end.

(** [s.startsWith(prefix)] *)
Fixpoint startsWith (prefix s : string) : bool :=
  match prefix, s with
  | EmptyString, _ => true
  | String a p, String b r => Ascii.eqb a b && startsWith p r
  | String _ _, EmptyString => false
  end.

(** *** Numbers

    A number is a double: a signed zero, a signed infinity, NaN, or
    [(-1)^s * m * 2^e] with a mantissa of at most 53 bits. *)

Abbreviation number := spec_float.

Definition prec : Z := 53.
Definition emax : Z := 1024.

(** The literals [0] and [1]. *)
Definition zero : number := S754_zero false.
Definition one : number := S754_finite false 4503599627370496 (-52).

(** [a + b] and [a * b], rounded to nearest, ties to even. *)
Definition add : number -> number -> number := SFadd prec emax.
Definition mul : number -> number -> number := SFmul prec emax.

Definition isNaN (x : number) : bool :=
  match x with S754_nan => true | _ => false end.

(** [a === b], [a < b], [a <= b], [a > b] and [a >= b]: false as soon as an
    operand is NaN. *)
Definition strictEquals (a b : number) : bool := SFeqb a b.
Definition lt (a b : number) : bool := SFltb a b.
Definition le (a b : number) : bool := SFleb a b.
Definition gt (a b : number) : bool := SFltb b a.
Definition ge (a b : number) : bool := SFleb b a.

(** [!x]: the falsy numbers are the zeros and NaN. *)
Definition falsy (x : number) : bool :=
  match x with S754_zero _ | S754_nan => true | _ => false end.

(** The value of a string of decimal digits. *)
Definition digitsValue (s : string) : Z :=
  (fix go (acc : Z) (s : string) : Z :=
     match s with
     | String c r => go (acc * 10 + (Z.of_nat (nat_of_ascii c) - 48)) r
     | EmptyString => acc
     end) 0 s.

(** The double nearest to [digits * 10 ^ exponent], ties to even: the value
    of a decimal literal. *)
Definition ofDecimal (negative : bool) (digits exponent : Z) : number :=
  match digits with
  | Zpos m =>
      if 0 <=? exponent
      then binary_normalize prec emax
             (if negative then - (digits * 10 ^ exponent) else digits * 10 ^ exponent)
             0 negative
      else SFdiv prec emax (S754_finite negative m 0)
             (S754_finite false (Z.to_pos (10 ^ (- exponent))) 0)
  | _ => S754_zero negative
  end.

(** The exponent part [e[+-]digits] at the head of [s]; 0 when there is
    none or when it has no digit. *)
Definition exponentPart (s : string) : Z :=
  match s with
  | String c r =>
      if Ascii.eqb c "e" || Ascii.eqb c "E" then
        match r with
        | String sign r' =>
            if Ascii.eqb sign "-" then
              match digitPrefix r' with
              | EmptyString => 0
              | d => - digitsValue d
              end
            else if Ascii.eqb sign "+" then digitsValue (digitPrefix r')
            else digitsValue (digitPrefix r)
        | EmptyString => 0
        end
      else 0
  | EmptyString => 0
  end.

(** The longest prefix of [s] that is a decimal literal without sign:
    [Infinity], or digits with an optional point and an optional exponent. *)
Definition parseUnsigned (negative : bool) (s : string) : number :=
  if startsWith "Infinity" s then S754_infinity negative
  else
    let whole := digitPrefix s in
    let rest := dropChars (String.length whole) s in
    let '(frac, rest') :=
      match rest with
      | String c r =>
          if Ascii.eqb c "."
          then (digitPrefix r, dropChars (String.length (digitPrefix r)) r)
          else (EmptyString, rest)
      | EmptyString => (EmptyString, rest)
      end in
    match whole, frac with
    | EmptyString, EmptyString => S754_nan
    | _, _ =>
        ofDecimal negative (digitsValue (whole ++ frac))
          (exponentPart rest' - Z.of_nat (String.length frac))
    end.

(** [parseFloat(s)]: leading white space, an optional sign, then the longest
    decimal literal; NaN when there is none. *)
Definition parseFloat (s : string) : number :=
  match trimStart s with
  | String c r =>
      if Ascii.eqb c "-" then parseUnsigned true r
      else if Ascii.eqb c "+" then parseUnsigned false r
      else parseUnsigned false (String c r)
  | EmptyString => S754_nan
  end.

(** The same double, bit for bit. *)
Definition same (x y : number) : bool :=
  match x, y with
  | S754_zero a, S754_zero b => Bool.eqb a b
  | S754_infinity a, S754_infinity b => Bool.eqb a b
  | S754_nan, S754_nan => true
  | S754_finite a m e, S754_finite b n f => Bool.eqb a b && Pos.eqb m n && Z.eqb e f
  | _, _ => false
  end.

(** The decimal digits of a positive integer. *)
Definition digitsText (z : Z) : string :=
  (fix go (fuel : nat) (z : Z) (acc : string) : string :=
     match fuel with
     | O => acc
     | S k =>
         let acc' := String (ascii_of_nat (Z.to_nat (48 + z mod 10))) acc in
         if z / 10 =? 0 then acc' else go k (z / 10) acc'
     end) (S (Z.to_nat (Z.log2 z))) z EmptyString.

Fixpoint zeros (n : nat) : string :=
  match n with O => EmptyString | S k => String "0" (zeros k) end.

(** The [n] with [10 ^ (n - 1) <= num / den < 10 ^ n]. *)
Definition decimalExponent (num den : Z) : Z :=
  let whole := num / den in
  if 0 <? whole then Z.of_nat (String.length (digitsText whole))
  else
    (fix go (fuel : nat) (j : Z) : Z :=
       match fuel with
       | O => 1 - j
       | S k => if den <=? num * 10 ^ j then 1 - j else go k (j + 1)
       end) 400%nat 1.

(** The digits [String] prints for the positive double [x = num / den]: the
    least number [k] of digits for which some [s * 10 ^ (n - k)] reads back
    as [x], and among such [s] the one nearest to [x]; the answer is
    [(s, k, n)]. *)
Definition shortest (x : number) (num den : Z) : Z * Z * Z :=
  let n := decimalExponent num den in
  (fix go (fuel : nat) (k : Z) : Z * Z * Z :=
     let scaledNum := if n <=? k then num * 10 ^ (k - n) else num in
     let scaledDen := if n <=? k then den else den * 10 ^ (n - k) in
     let lo := scaledNum / scaledDen in
     let hi := lo + 1 in
     let back s := same (ofDecimal false s (n - k)) x in
     let lowOk := (0 <? lo) && back lo in
     let highOk := back hi in
     let closerLow :=
       let twice := 2 * scaledNum - (lo + hi) * scaledDen in
       (twice <? 0) || ((twice =? 0) && Z.even lo) in
     let pick s := if s =? 10 ^ k then (10 ^ (k - 1), k, n + 1) else (s, k, n) in
     match fuel with
     | O => pick (if closerLow then lo else hi)
     | S f =>
         if lowOk && (negb highOk || closerLow) then pick lo
         else if highOk then pick hi
         else go f (k + 1)
     end) 16%nat 1.

(** The text of a positive double: plain digits up to 21 of them before the
    point, a leading [0.] down to 10^-7, the exponent form otherwise. *)
Definition positiveText (x : number) (num den : Z) : string :=
  let '(s, k, n) := shortest x num den in
  let digits := digitsText s in
  if (k <=? n) && (n <=? 21) then (digits ++ zeros (Z.to_nat (n - k)))%string
  else if (0 <? n) && (n <=? 21) then
    (substring 0 (Z.to_nat n) digits ++ "." ++
     substring (Z.to_nat n) (Z.to_nat (k - n)) digits)%string
  else if (-6 <? n) && (n <=? 0) then
    ("0." ++ zeros (Z.to_nat (- n)) ++ digits)%string
  else
    let e := n - 1 in
    let sign := if e <? 0 then "-"%string else "+"%string in
    let exponent := (sign ++ digitsText (Z.abs e))%string in
    if k =? 1 then (digits ++ "e" ++ exponent)%string
    else (substring 0 1 digits ++ "." ++ substring 1 (Z.to_nat (k - 1)) digits
          ++ "e" ++ exponent)%string.

(** [String(x)], [x.toString()] and the template literal of a number. *)
Definition toString (x : number) : string :=
  match x with
  | S754_nan => "NaN"
  | S754_zero _ => "0"
  | S754_infinity s => if s then "-Infinity" else "Infinity"
  | S754_finite s m e =>
      let text := if 0 <=? e then positiveText (S754_finite false m e) (Zpos m * 2 ^ e) 1
                  else positiveText (S754_finite false m e) (Zpos m) (2 ^ (- e)) in
      if s then ("-" ++ text)%string else text
  end.

End Js.

(** ** [InMemoryZSet] (src/lib/memory-cache/zset.ts) *)

Module InMemoryZSet.

(** A bound of a score range: a number, [-Infinity] or [Infinity]. *)
Inductive bound := NegInf | Num (z : Z) | PosInf.

Definition geBound (score : Z) (b : bound) : bool :=
  match b with NegInf => true | Num z => z <=? score | PosInf => false end.

Definition leBound (score : Z) (b : bound) : bool :=
  match b with NegInf => false | Num z => score <=? z | PosInf => true end.

Definition inRange (lo hi : bound) (e : string * Z) : bool :=
  geBound e.2 lo && leBound e.2 hi.

(** The inner [Map<string, number>]: entries in insertion order, one per
    member. *)
Fixpoint mapGet (member : string) (zs : list (string * Z)) : option Z :=
  match zs with
  | [] => None
  | (m, s) :: r => if String.eqb m member then Some s else mapGet member r
  end.

Definition mapHas (member : string) (zs : list (string * Z)) : bool :=
  match mapGet member zs with Some _ => true | None => false end.

(** [map.set(member, score)]: an existing member keeps its position. *)
Fixpoint mapSet (member : string) (score : Z) (zs : list (string * Z))
  : list (string * Z) :=
  match zs with
  | [] => [(member, score)]
  | (m, s) :: r =>
      if String.eqb m member then (m, score) :: r
      else (m, s) :: mapSet member score r
  end.

Definition mapDelete (member : string) (zs : list (string * Z))
  : list (string * Z) :=
  List.filter (fun e => negb (String.eqb e.1 member)) zs.

(** The field [data : Map<string, Map<string, number>>]. *)
Abbreviation t := (gmap string (list (string * Z))).

Definition zadd (key : string) (score : Z) (member : string) (d : t) : Z * t :=
  let zs := default [] (d !! key) in
  let isNew := negb (mapHas member zs) in
  (if isNew then 1 else 0, <[key := mapSet member score zs]> d).

Definition zrange (key : string) (start stop : Z) (d : t) : list string :=
  match d !! key with
  | None => []
  | Some [] => []
  | Some zs =>
      let entries := Js.sortBy snd zs in
      let len := Z.of_nat (length entries) in
      let startIdx := if start <? 0 then Z.max 0 (len + start) else start in
      let stopIdx := if stop <? 0 then len + stop else stop in
      let endIdx := Z.min (stopIdx + 1) len in
      map fst (Js.slice startIdx endIdx entries)
  end.

Definition zrangebyscore (key : string) (lo hi : bound) (d : t) : list string :=
  match d !! key with
  | None => []
  | Some [] => []
  | Some zs => map fst (Js.sortBy snd (List.filter (inRange lo hi) zs))
  end.

Definition zremrangebyscore (key : string) (lo hi : bound) (d : t) : Z * t :=
  match d !! key with
  | None => (0, d)
  | Some [] => (0, d)
  | Some zs =>
      let kept := List.filter (fun e => negb (inRange lo hi e)) zs in
      let removed := Z.of_nat (length zs) - Z.of_nat (length kept) in
      (removed, match kept with [] => delete key d | _ => <[key := kept]> d end)
  end.

Definition zcard (key : string) (d : t) : Z :=
  match d !! key with Some zs => Z.of_nat (length zs) | None => 0 end.

Definition zscore (key member : string) (d : t) : option Z :=
  match d !! key with Some zs => mapGet member zs | None => None end.

Definition zrem (key : string) (members : list string) (d : t) : Z * t :=
  match d !! key with
  | None => (0, d)
  | Some zs =>
      let step (acc : Z * list (string * Z)) (m : string) :=
        if mapHas m acc.2 then (acc.1 + 1, mapDelete m acc.2) else acc in
      let '(removed, kept) := foldl step (0, zs) members in
      (removed, match kept with [] => delete key d | _ => <[key := kept]> d end)
  end.

Definition clear (d : t) : t := ∅.

End InMemoryZSet.

(** ** [InMemoryMap] (the string store) *)

Module InMemoryMap.

Record CacheEntry := { value : string; expiry : option Z }.

Abbreviation t := (gmap string CacheEntry).

Definition isExpired (now : Z) (e : CacheEntry) : bool :=
  match expiry e with Some x => x <=? now | None => false end.

(** The sweep run every 60 seconds; an expiry of 0 is falsy and is kept. *)
Definition sweepable (now : Z) (e : CacheEntry) : bool :=
  match expiry e with Some x => negb (x =? 0) && (x <=? now) | None => false end.

Definition cleanup (now : Z) (d : t) : t :=
  filter (fun kv => sweepable now kv.2 = false) d.

Definition get (key : string) (now : Z) (d : t) : option string * t :=
  match d !! key with
  | None => (None, d)
  | Some e => if isExpired now e then (None, delete key d) else (Some (value e), d)
  end.

Definition set (key val : string) (d : t) : t :=
  <[key := {| value := val; expiry := None |}]> d.

Definition setex (key : string) (seconds : Z) (val : string) (now : Z) (d : t) : t :=
  <[key := {| value := val; expiry := Some (now + seconds * 1000) |}]> d.

Definition del (keys : list string) (d : t) : Z * t :=
  foldl (fun acc k =>
           match acc.2 !! k with
           | Some _ => (acc.1 + 1, delete k acc.2)
           | None => acc
           end) (0, d) keys.

(** [exists(...keys)]: the number of keys holding a live entry. *)
Definition exists_ (keys : list string) (now : Z) (d : t) : Z :=
  foldl (fun count k =>
           match d !! k with
           | Some e => if isExpired now e then count else count + 1
           | None => count
           end) 0 keys.

Definition expire (key : string) (seconds : Z) (now : Z) (d : t) : Z * t :=
  match d !! key with
  | None => (0, d)
  | Some e =>
      if isExpired now e then (0, delete key d)
      else (1, <[key := {| value := value e;
                           expiry := Some (now + seconds * 1000) |}]> d)
  end.

Definition clear (d : t) : t := ∅.

(** [setWithOptions(key, value, exFlag, seconds, nxFlag)]: ["OK"] or [null]. *)
Definition setWithOptions (key val : string) (exFlag : bool) (seconds : option Z)
  (nxFlag : bool) (now : Z) (d : t) : option string * t :=
  let blocked :=
    nxFlag && match d !! key with
              | Some existing => negb (isExpired now existing)
              | None => false
              end in
  if blocked then (None, d)
  else
    let entry :=
      {| value := val;
         expiry := if exFlag
                   then match seconds with
                        | Some sec => Some (now + sec * 1000)
                        | None => None
                        end
                   else None |} in
    (Some "OK"%string, <[key := entry]> d).

(** The live entry read by the counters: its number (0 when it is absent,
    expired or not a number) and the expiry to keep. *)
Definition liveNumber (parse : string -> option Z) (key : string) (now : Z) (d : t)
  : Z * option Z :=
  match d !! key with
  | Some entry =>
      if isExpired now entry then (0, None)
      else (default 0 (parse (value entry)), expiry entry)
  | None => (0, None)
  end.

Definition incr (key : string) (now : Z) (d : t) : Z * t :=
  let '(current, exp) := liveNumber Js.parseInt key now d in
  let newValue := current + 1 in
  (newValue, <[key := {| value := Js.numberToString newValue; expiry := exp |}]> d).

Definition decr (key : string) (now : Z) (d : t) : Z * t :=
  let '(current, exp) := liveNumber Js.parseInt key now d in
  let newValue := current - 1 in
  (newValue, <[key := {| value := Js.numberToString newValue; expiry := exp |}]> d).

(** The live entry read by [incrbyfloat]: its number (0 when it is absent,
    expired or NaN) and the expiry to keep. *)
Definition liveFloat (key : string) (now : Z) (d : t) : Js.number * option Z :=
  match d !! key with
  | Some entry =>
      if isExpired now entry then (Js.zero, None)
      else
        let current := Js.parseFloat (value entry) in
        (if Js.isNaN current then Js.zero else current, expiry entry)
  | None => (Js.zero, None)
  end.

Definition incrbyfloat (key : string) (increment : Js.number) (now : Z) (d : t)
  : string * t :=
  let '(current, exp) := liveFloat key now d in
  let newValue := Js.add current increment in
  (Js.toString newValue,
   <[key := {| value := Js.toString newValue; expiry := exp |}]> d).

(** The key under which a hash field is stored: [`${key}:${field}`]. *)
Definition hashKey (key field : string) : string := (key ++ ":" ++ field)%string.

(** [hset(key, field, value)] *)
Definition hset (key field val : string) (d : t) : Z * t :=
  ((match d !! hashKey key field with Some _ => 0 | None => 1 end),
   <[hashKey key field := {| value := val; expiry := None |}]> d).

(** [hset(key, { field1: value1, ... })], the fields in the order of
    [Object.entries]. *)
Definition hsetAll (key : string) (fields : list (string * string)) (d : t) : Z * t :=
  foldl (fun acc fv =>
           ((match acc.2 !! hashKey key fv.1 with
             | Some _ => acc.1
             | None => acc.1 + 1
             end),
            <[hashKey key fv.1 := {| value := fv.2; expiry := None |}]> acc.2))
        (0, d) fields.

Definition hget (key field : string) (now : Z) (d : t) : option string * t :=
  match d !! hashKey key field with
  | None => (None, d)
  | Some e =>
      if isExpired now e then (None, delete (hashKey key field) d)
      else (Some (value e), d)
  end.

(** [type(key)]: ["string"] for a live entry, ["none"] otherwise. *)
Definition type (key : string) (now : Z) (d : t) : string * t :=
  match d !! key with
  | None => ("none"%string, d)
  | Some e =>
      if isExpired now e then ("none"%string, delete key d) else ("string"%string, d)
  end.

End InMemoryMap.

(** ** [InMemoryStore] (src/lib/memory-cache/index.ts) *)

Module InMemoryStore.

Inductive Status := ready | connecting | ended.

Record t := {
  zsetStore : gmap string (list (string * Z));
  mapStore : gmap string InMemoryMap.CacheEntry;
  status : Status
}.

Definition empty : t :=
  {| zsetStore := ∅; mapStore := ∅; status := ready |}.

Definition withZ (st : t) (z : gmap string (list (string * Z))) : t :=
  {| zsetStore := z; mapStore := mapStore st; status := status st |}.

Definition withM (st : t) (m : gmap string InMemoryMap.CacheEntry) : t :=
  {| zsetStore := zsetStore st; mapStore := m; status := status st |}.

Definition isReady (st : t) : bool :=
  match status st with ready => true | _ => false end.

Definition zadd (key : string) (score : Z) (member : string) (st : t) : Z * t :=
  let '(r, z) := InMemoryZSet.zadd key score member (zsetStore st) in (r, withZ st z).

Definition zrange (key : string) (start stop : Z) (st : t) : list string :=
  InMemoryZSet.zrange key start stop (zsetStore st).

Definition zrangebyscore (key : string) (lo hi : InMemoryZSet.bound) (st : t)
  : list string :=
  InMemoryZSet.zrangebyscore key lo hi (zsetStore st).

Definition zremrangebyscore (key : string) (lo hi : InMemoryZSet.bound) (st : t)
  : Z * t :=
  let '(r, z) := InMemoryZSet.zremrangebyscore key lo hi (zsetStore st) in
  (r, withZ st z).

Definition zcard (key : string) (st : t) : Z :=
  InMemoryZSet.zcard key (zsetStore st).

Definition zscore (key member : string) (st : t) : option Z :=
  InMemoryZSet.zscore key member (zsetStore st).

Definition zrem (key : string) (members : list string) (st : t) : Z * t :=
  let '(r, z) := InMemoryZSet.zrem key members (zsetStore st) in (r, withZ st z).

Definition get (key : string) (now : Z) (st : t) : option string * t :=
  let '(r, m) := InMemoryMap.get key now (mapStore st) in (r, withM st m).

Definition set (key val : string) (st : t) : t :=
  withM st (InMemoryMap.set key val (mapStore st)).

Definition setex (key : string) (seconds : Z) (val : string) (now : Z) (st : t) : t :=
  withM st (InMemoryMap.setex key seconds val now (mapStore st)).

Definition del (keys : list string) (st : t) : Z * t :=
  let '(r, m) := InMemoryMap.del keys (mapStore st) in (r, withM st m).

(** [exists] and [expire] are answered by the string store alone. *)
Definition exists_ (keys : list string) (now : Z) (st : t) : Z :=
  InMemoryMap.exists_ keys now (mapStore st).

Definition expire (key : string) (seconds : Z) (now : Z) (st : t) : Z * t :=
  let '(r, m) := InMemoryMap.expire key seconds now (mapStore st) in (r, withM st m).

Definition clear (st : t) : t :=
  {| zsetStore := ∅; mapStore := ∅; status := status st |}.

Definition destroy (st : t) : t :=
  {| zsetStore := ∅; mapStore := ∅; status := ended |}.

(** [set(key, value, "EX", seconds, "NX")]: with a flag the call goes to
    [setWithOptions], without one to the plain [set]. *)
Definition setWith (key val : string) (exFlag : bool) (seconds : option Z)
  (nxFlag : bool) (now : Z) (st : t) : option string * t :=
  if exFlag || nxFlag then
    let '(r, m) := InMemoryMap.setWithOptions key val exFlag seconds nxFlag now
                     (mapStore st) in
    (r, withM st m)
  else (Some "OK"%string, set key val st).

Definition incr (key : string) (now : Z) (st : t) : Z * t :=
  let '(r, m) := InMemoryMap.incr key now (mapStore st) in (r, withM st m).

Definition decr (key : string) (now : Z) (st : t) : Z * t :=
  let '(r, m) := InMemoryMap.decr key now (mapStore st) in (r, withM st m).

Definition incrbyfloat (key : string) (increment : Js.number) (now : Z) (st : t)
  : string * t :=
  let '(r, m) := InMemoryMap.incrbyfloat key increment now (mapStore st) in
  (r, withM st m).

Definition hset (key field val : string) (st : t) : Z * t :=
  let '(r, m) := InMemoryMap.hset key field val (mapStore st) in (r, withM st m).

Definition hget (key field : string) (now : Z) (st : t) : option string * t :=
  let '(r, m) := InMemoryMap.hget key field now (mapStore st) in (r, withM st m).

End InMemoryStore.

(** ** [InMemoryPipeline] (src/lib/memory-cache/pipeline.ts)

    The queued commands, as the closed set of commands the callers below
    queue.  [exec] runs them in order on the store and pairs every result
    with its error; the store operations of this embedding never throw, so
    the error component is always [null] ([None]). *)

Module InMemoryPipeline.

Inductive Command :=
| Zadd (key : string) (score : Z) (member : string)
| Zremrangebyscore (key : string) (lo hi : InMemoryZSet.bound)
| Zcard (key : string)
| Exists (keys : list string)
| Expire (key : string) (seconds : Z)
| Setex (key : string) (seconds : Z) (value : string).

Inductive Reply := RNum (n : Z) | ROk.

Definition run (now : Z) (cmd : Command) (st : InMemoryStore.t)
  : Reply * InMemoryStore.t :=
  match cmd with
  | Zadd key score member =>
      let '(r, st') := InMemoryStore.zadd key score member st in (RNum r, st')
  | Zremrangebyscore key lo hi =>
      let '(r, st') := InMemoryStore.zremrangebyscore key lo hi st in (RNum r, st')
  | Zcard key => (RNum (InMemoryStore.zcard key st), st)
  | Exists keys => (RNum (InMemoryStore.exists_ keys now st), st)
  | Expire key seconds =>
      let '(r, st') := InMemoryStore.expire key seconds now st in (RNum r, st')
  | Setex key seconds value => (ROk, InMemoryStore.setex key seconds value now st)
  end.

Fixpoint exec (now : Z) (commands : list Command) (st : InMemoryStore.t)
  : list (option string * Reply) * InMemoryStore.t :=
  match commands with
  | [] => ([], st)
  | cmd :: rest =>
      let '(r, st1) := run now cmd st in
      let '(results, st2) := exec now rest st1 in
      ((None, r) :: results, st2)
  end.

End InMemoryPipeline.

(** ** Rolling window scripts (src/lib/memory-cache/scripts, rolling-window) *)

Module RollingWindow.

Import InMemoryZSet.

Definition window5h : Z := 18000000.
Definition window24h : Z := 86400000.

(** The member [`${nowMs}:${cost}`]. *)
Definition member (nowMs : Z) (cost : Js.number) : string :=
  (Js.numberToString nowMs ++ ":" ++ Js.toString cost)%string.

Definition parseCostFromMember (m : string) : Js.number :=
  let colonIndex := Js.indexOf ":" m in
  if colonIndex =? -1 then Js.zero
  else
    let cost := Js.parseFloat (Js.substringFrom (colonIndex + 1) m) in
    if Js.isNaN cost then Js.zero else cost.

(** [total += parseCostFromMember(record)] over [zrange(key, 0, -1)], from 0. *)
Definition calculateTotalCost (key : string) (st : InMemoryStore.t) : Js.number :=
  foldl (fun total record => Js.add total (parseCostFromMember record)) Js.zero
        (InMemoryStore.zrange key 0 (-1) st).

Definition trackCost5hRollingWindow
  (key : string) (cost : Js.number) (nowMs windowMs : Z) (st : InMemoryStore.t)
  : string * InMemoryStore.t :=
  let st1 := (InMemoryStore.zremrangebyscore key NegInf (Num (nowMs - windowMs)) st).2 in
  let st2 := (InMemoryStore.zadd key nowMs (member nowMs cost) st1).2 in
  let total := calculateTotalCost key st2 in
  (Js.toString total, st2).

Definition getCost5hRollingWindow
  (key : string) (nowMs windowMs : Z) (st : InMemoryStore.t)
  : string * InMemoryStore.t :=
  let st1 := (InMemoryStore.zremrangebyscore key NegInf (Num (nowMs - windowMs)) st).2 in
  let total := calculateTotalCost key st1 in
  (Js.toString total, st1).

Definition trackCostDailyRollingWindow
  (key : string) (cost : Js.number) (nowMs windowMs : Z) (st : InMemoryStore.t)
  : string * InMemoryStore.t :=
  let st1 := (InMemoryStore.zremrangebyscore key NegInf (Num (nowMs - windowMs)) st).2 in
  let st2 := (InMemoryStore.zadd key nowMs (member nowMs cost) st1).2 in
  let total := calculateTotalCost key st2 in
  (Js.toString total, st2).

Definition getCostDailyRollingWindow
  (key : string) (nowMs windowMs : Z) (st : InMemoryStore.t)
  : string * InMemoryStore.t :=
  let st1 := (InMemoryStore.zremrangebyscore key NegInf (Num (nowMs - windowMs)) st).2 in
  let total := calculateTotalCost key st1 in
  (Js.toString total, st1).

End RollingWindow.

(** ** Session scripts (src/lib/memory-cache/scripts/session-tracker.ts) *)

Module SessionScript.

Import InMemoryZSet.

Record SessionTrackResult := {
  allowed : bool;
  currentCount : Z;
  tracked : bool
}.

Definition checkAndTrackSession
  (providerKey sessionId : string) (limit now : Z) (st : InMemoryStore.t)
  : SessionTrackResult * InMemoryStore.t :=
  let ttl := 300000 in
  let fiveMinutesAgo := now - ttl in
  let st1 := (InMemoryStore.zremrangebyscore providerKey NegInf (Num fiveMinutesAgo) st).2 in
  let existingScore := InMemoryStore.zscore providerKey sessionId st1 in
  let isTracked := match existingScore with Some _ => true | None => false end in
  let count := InMemoryStore.zcard providerKey st1 in
  if (0 <? limit) && negb isTracked && (limit <=? count) then
    ({| allowed := false; currentCount := count; tracked := false |}, st1)
  else
    let st2 := (InMemoryStore.zadd providerKey now sessionId st1).2 in
    if isTracked then
      ({| allowed := true; currentCount := count; tracked := false |}, st2)
    else
      ({| allowed := true; currentCount := count + 1; tracked := true |}, st2).

Record BatchCheckResult := { batchAllowed : bool; batchCount : Z }.

(** The loop runs over [providerKeys]; [limits[i]] past the end of [limits]
    is [undefined], for which [limit > 0] is false. *)
Fixpoint batchCheckSessionLimits
  (providerKeys : list string) (limits : list Z) (now : Z) (st : InMemoryStore.t)
  : list BatchCheckResult * InMemoryStore.t :=
  match providerKeys with
  | providerKey :: keys =>
      let limit := head limits in
      let st1 := (InMemoryStore.zremrangebyscore providerKey NegInf
                    (Num (now - 300000)) st).2 in
      let count := InMemoryStore.zcard providerKey st1 in
      let over := match limit with
                  | Some l => (0 <? l) && (l <=? count)
                  | None => false
                  end in
      let r := {| batchAllowed := negb over; batchCount := count |} in
      let '(rs, st2) := batchCheckSessionLimits keys (tail limits) now st1 in
      (r :: rs, st2)
  | [] => ([], st)
  end.

End SessionScript.

(** ** [SessionTracker] (src/lib/session-tracker.ts)

    [getMemoryClient()] is the argument [client]: [None] is a missing
    client. *)

Module SessionTracker.

Import InMemoryZSet InMemoryPipeline.

Definition SESSION_TTL : Z := 300000.

Definition usable (client : option InMemoryStore.t) : option InMemoryStore.t :=
  match client with
  | Some st => if InMemoryStore.isReady st then Some st else None
  | None => None
  end.

Definition globalKey : string := "global:active_sessions".

Definition keyKey (keyId : Z) : string :=
  ("key:" ++ Js.numberToString keyId ++ ":active_sessions")%string.

Definition providerKey (providerId : Z) : string :=
  ("provider:" ++ Js.numberToString providerId ++ ":active_sessions")%string.

Definition infoKey (sessionId : string) : string :=
  ("session:" ++ sessionId ++ ":info")%string.

(** The commands queued by [trackSession]. *)
Definition trackSessionCommands (sessionId : string) (keyId now : Z) : list Command :=
  [ Zadd globalKey now sessionId;
    Expire globalKey 3600;
    Zadd (keyKey keyId) now sessionId;
    Expire (keyKey keyId) 3600 ].

Definition trackSession (sessionId : string) (keyId now : Z)
  (client : option InMemoryStore.t) : option InMemoryStore.t :=
  match usable client with
  | None => client
  | Some st => Some (exec now (trackSessionCommands sessionId keyId now) st).2
  end.

Definition updateProvider (sessionId : string) (providerId now : Z)
  (client : option InMemoryStore.t) : option InMemoryStore.t :=
  match usable client with
  | None => client
  | Some st =>
      Some (exec now [ Zadd globalKey now sessionId;
                       Zadd (providerKey providerId) now sessionId;
                       Expire (providerKey providerId) 3600 ] st).2
  end.

Definition countFromZSet (key : string) (now : Z) (client : option InMemoryStore.t)
  : Z * option InMemoryStore.t :=
  match usable client with
  | None => (0, client)
  | Some st =>
      let fiveMinutesAgo := now - SESSION_TTL in
      let st1 := (InMemoryStore.zremrangebyscore key NegInf (Num fiveMinutesAgo) st).2 in
      let sessionIds := InMemoryStore.zrange key 0 (-1) st1 in
      match sessionIds with
      | [] => (0, Some st1)
      | _ =>
          let '(results, st2) :=
            exec now (map (fun sessionId => Exists [infoKey sessionId]) sessionIds) st1 in
          let count :=
            foldl (fun count result =>
                     match result with
                     | (None, RNum 1) => count + 1
                     | _ => count
                     end) 0 results in
          (count, Some st2)
      end
  end.


Definition getKeySessionCount (keyId now : Z) (client : option InMemoryStore.t)
  : Z * option InMemoryStore.t :=
  match usable client with
  | None => (0, client)
  | Some _ => countFromZSet (keyKey keyId) now client
  end.

Definition getProviderSessionCount (providerId now : Z)
  (client : option InMemoryStore.t) : Z * option InMemoryStore.t :=
  match usable client with
  | None => (0, client)
  | Some _ => countFromZSet (providerKey providerId) now client
  end.

Definition getActiveSessions (now : Z) (client : option InMemoryStore.t)
  : list string * option InMemoryStore.t :=
  match usable client with
  | None => ([], client)
  | Some st =>
      let st1 := (InMemoryStore.zremrangebyscore globalKey NegInf
                    (Num (now - SESSION_TTL)) st).2 in
      (InMemoryStore.zrange globalKey 0 (-1) st1, Some st1)
  end.

(** The commands queued by [refreshSession]. *)
Definition refreshSessionCommands (sessionId : string) (keyId providerId now : Z)
  : list Command :=
  [ Zadd globalKey now sessionId;
    Zadd (keyKey keyId) now sessionId;
    Zadd (providerKey providerId) now sessionId;
    Expire ("session:" ++ sessionId ++ ":provider")%string 300;
    Expire ("session:" ++ sessionId ++ ":key")%string 300;
    Setex ("session:" ++ sessionId ++ ":last_seen")%string 300 (Js.numberToString now) ].

Definition refreshSession (sessionId : string) (keyId providerId now : Z)
  (client : option InMemoryStore.t) : option InMemoryStore.t :=
  match usable client with
  | None => client
  | Some st =>
      Some (exec now (refreshSessionCommands sessionId keyId providerId now) st).2
  end.

Definition concurrentKey (sessionId : string) : string :=
  ("session:" ++ sessionId ++ ":concurrent_count")%string.

Definition incrementConcurrentCount (sessionId : string) (now : Z)
  (client : option InMemoryStore.t) : option InMemoryStore.t :=
  match usable client with
  | None => client
  | Some st =>
      let st1 := (InMemoryStore.incr (concurrentKey sessionId) now st).2 in
      Some (InMemoryStore.expire (concurrentKey sessionId) 600 now st1).2
  end.

Definition decrementConcurrentCount (sessionId : string) (now : Z)
  (client : option InMemoryStore.t) : option InMemoryStore.t :=
  match usable client with
  | None => client
  | Some st =>
      let '(newCount, st1) := InMemoryStore.decr (concurrentKey sessionId) now st in
      if newCount <=? 0 then Some (InMemoryStore.del [concurrentKey sessionId] st1).2
      else Some st1
  end.

(** [count ? parseInt(count, 10) : 0]; the result is [None] when the stored
    text is not a number. *)
Definition getConcurrentCount (sessionId : string) (now : Z)
  (client : option InMemoryStore.t) : option Z * option InMemoryStore.t :=
  match usable client with
  | None => (Some 0, client)
  | Some st =>
      let '(count, st1) := InMemoryStore.get (concurrentKey sessionId) now st in
      (match count with
       | Some EmptyString => Some 0
       | Some text => Js.parseInt text
       | None => Some 0
       end, Some st1)
  end.

End SessionTracker.

(** ** [RateLimitService] (src/lib/rate-limit/service.ts)

    The service reads [getMemoryClient()] and the durable store.  Its state is
    a [World]: the client ([None] when missing) and the log of the aggregate
    queries sent to the durable store.  The repository queries and the time
    utilities live outside these sources and are the fields of
    [Collaborators]; a query either returns a total or throws.  A rejection
    message is represented by the values it is formatted from, and the
    display names of the limits are given in English. *)

Inductive Outcome (A : Type) := Returned (a : A) | Thrown.
Arguments Returned {A} a.
Arguments Thrown {A}.

Module RateLimitService.

Import InMemoryZSet InMemoryPipeline.

Inductive Period := P5h | Daily | Weekly | Monthly.
Inductive DailyResetMode := Fixed | Rolling.
Inductive EntityType := KeyEntity | ProviderEntity.

Inductive DbQuery :=
| KeyCostInTimeRange (id startTime endTime : Z)
| ProviderCostInTimeRange (id startTime endTime : Z)
| UserCostToday (userId : Z).

Record Collaborators := {
  normalizeResetTime : option string -> string;
  getTimeRangeForPeriodWithMode :
    Period -> option string -> option DailyResetMode -> Z -> Z * Z;
  getTTLForPeriodWithMode : Period -> string -> option DailyResetMode -> Z -> Z;
  getSecondsUntilMidnight : Z -> Z;
  sumKeyCostInTimeRange : Z -> Z -> Z -> Outcome Js.number;
  sumProviderCostInTimeRange : Z -> Z -> Z -> Outcome Js.number;
  sumUserCostToday : Z -> Outcome Js.number
}.

Record World := {
  client : option InMemoryStore.t;
  dbQueries : list DbQuery
}.

Definition withClient (w : World) (st : InMemoryStore.t) : World :=
  {| client := Some st; dbQueries := dbQueries w |}.

Definition logQuery (q : DbQuery) (w : World) : World :=
  {| client := client w; dbQueries := dbQueries w ++ [q] |}.

Record CostLimit := {
  amount : option Js.number;
  period : Period;
  name : string;
  resetTime : option string;
  resetMode : option DailyResetMode
}.

Record Limits := {
  limit_5h_usd : option Js.number;
  limit_daily_usd : option Js.number;
  daily_reset_time : option string;
  daily_reset_mode : option DailyResetMode;
  limit_weekly_usd : option Js.number;
  limit_monthly_usd : option Js.number
}.

Inductive Reason :=
| CostLimitReached (type : EntityType) (limitName : string) (current limit : Js.number)
| SessionLimitReached (type : EntityType) (count limit : Z)
| ProviderSessionLimitReached (count limit : Z)
| UserRpmReached (count limit : Z)
| UserDailyCostReached (current limit : Js.number).

Record CheckResult := { allowed : bool; reason : option Reason }.

Definition allow : CheckResult := {| allowed := true; reason := None |}.

Definition typeName (type : EntityType) : string :=
  match type with KeyEntity => "key" | ProviderEntity => "provider" end.

Definition periodName (p : Period) : string :=
  match p with P5h => "5h" | Daily => "daily" | Weekly => "weekly" | Monthly => "monthly" end.

(** [s.replace(":", "")]: the first colon is dropped. *)
Fixpoint dropFirstColon (s : string) : string :=
  match s with
  | EmptyString => EmptyString
  | String c r => if Ascii.eqb c ":" then r else String c (dropFirstColon r)
  end.

Definition entityKey (type : EntityType) (id : Z) (suffix : string) : string :=
  (typeName type ++ ":" ++ Js.numberToString id ++ ":" ++ suffix)%string.

(** [value || "0"] *)
Definition orZero (s : string) : string :=
  match s with EmptyString => "0"%string | _ => s end.

(** [!limit.amount || limit.amount <= 0] *)
Definition unlimited (a : option Js.number) : bool :=
  match a with Some n => Js.falsy n || Js.le n Js.zero | None => true end.

(** [current >= amount] *)
Definition reaches (current a : Js.number) : bool := Js.ge current a.

Definition isRolling (limit : CostLimit) : bool :=
  match period limit, resetMode limit with
  | Daily, Some Rolling => true
  | _, _ => false
  end.

(** The result of the user-level checks; [current] is a count of requests
    or an amount. *)
Record UserCheckResult (N : Type) := {
  uAllowed : bool;
  uReason : option Reason;
  uCurrent : option N
}.
Arguments uAllowed {N} _.
Arguments uReason {N} _.
Arguments uCurrent {N} _.

Definition userAllow {N : Type} : UserCheckResult N :=
  {| uAllowed := true; uReason := None; uCurrent := None |}.

Section WithCollaborators.

Context (env : Collaborators).

Definition resolveDailyReset (rt : option string) : string * string :=
  let normalized := normalizeResetTime env rt in
  (normalized, dropFirstColon normalized).

Definition fixedKeySuffix (limit : CostLimit) : string :=
  let suffix := (resolveDailyReset (resetTime limit)).2 in
  match period limit with
  | Daily => ("cost_" ++ periodName Daily ++ "_" ++ suffix)%string
  | p => ("cost_" ++ periodName p)%string
  end.

Definition costLimitsOf (limits : Limits) : list CostLimit :=
  let normalizedDailyReset := normalizeResetTime env (daily_reset_time limits) in
  let dailyResetMode :=
    match daily_reset_mode limits with Some m => m | None => Fixed end in
  [ {| amount := limit_5h_usd limits; period := P5h; name := "5h";
       resetTime := None; resetMode := None |};
    {| amount := limit_daily_usd limits; period := Daily; name := "daily";
       resetTime := Some normalizedDailyReset; resetMode := Some dailyResetMode |};
    {| amount := limit_weekly_usd limits; period := Weekly; name := "weekly";
       resetTime := None; resetMode := None |};
    {| amount := limit_monthly_usd limits; period := Monthly; name := "monthly";
       resetTime := None; resetMode := None |} ].

(** Cache warming after a durable-store read. *)
Definition warmCache (id : Z) (type : EntityType) (limit : CostLimit)
  (current : Js.number) (now : Z) (w : World) : World :=
  match client w with
  | Some st =>
      if InMemoryStore.isReady st then
        match period limit with
        | P5h =>
            if Js.gt current Js.zero then
              withClient w (RollingWindow.trackCost5hRollingWindow
                              (entityKey type id "cost_5h_rolling") current now
                              (5 * 60 * 60 * 1000) st).2
            else w
        | _ =>
            if isRolling limit then
              if Js.gt current Js.zero then
                withClient w (RollingWindow.trackCostDailyRollingWindow
                                (entityKey type id "cost_daily_rolling") current now
                                (24 * 60 * 60 * 1000) st).2
              else w
            else
              let normalized := (resolveDailyReset (resetTime limit)).1 in
              let ttl := getTTLForPeriodWithMode env (period limit) normalized
                           (resetMode limit) now in
              withClient w (InMemoryStore.setex (entityKey type id (fixedKeySuffix limit))
                              ttl (Js.toString current) now st)
        end
      else w
  | None => w
  end.

Fixpoint checkCostLimitsFromDatabase (id : Z) (type : EntityType)
  (costLimits : list CostLimit) (now : Z) (w : World) : Outcome CheckResult * World :=
  match costLimits with
  | [] => (Returned allow, w)
  | limit :: rest =>
      match amount limit with
      | None => checkCostLimitsFromDatabase id type rest now w
      | Some a =>
          if Js.falsy a || Js.le a Js.zero
          then checkCostLimitsFromDatabase id type rest now w
          else
            let '(startTime, endTime) :=
              getTimeRangeForPeriodWithMode env (period limit) (resetTime limit)
                (resetMode limit) now in
            let '(q, answer) :=
              match type with
              | KeyEntity => (KeyCostInTimeRange id startTime endTime,
                              sumKeyCostInTimeRange env id startTime endTime)
              | ProviderEntity => (ProviderCostInTimeRange id startTime endTime,
                                   sumProviderCostInTimeRange env id startTime endTime)
              end in
            let w1 := logQuery q w in
            match answer with
            | Thrown => (Thrown, w1)
            | Returned current =>
                let w2 := warmCache id type limit current now w1 in
                if reaches current a then
                  (Returned {| allowed := false;
                               reason := Some (CostLimitReached type (name limit) current a) |},
                   w2)
                else checkCostLimitsFromDatabase id type rest now w2
            end
      end
  end.

(** [return await this.checkCostLimitsFromDatabase(...)] written inside
    [tries - 1] enclosing [try] blocks whose handlers issue the same call
    again: the call is repeated until it returns or the last handler is left. *)
Fixpoint degrade (tries : nat) (id : Z) (type : EntityType)
  (costLimits : list CostLimit) (now : Z) (w : World) : Outcome CheckResult * World :=
  match tries with
  | O => (Thrown, w)
  | S k =>
      match checkCostLimitsFromDatabase id type costLimits now w with
      | (Returned r, w') => (Returned r, w')
      | (Thrown, w') => degrade k id type costLimits now w'
      end
  end.

(** The outcome of the fast path: a decision, or a cache miss met under
    [tries - 1] handlers. *)
Inductive FastPath := Decided (r : CheckResult) | CacheMiss (tries : nat).

(** The loop of the fast path of [checkCostLimits]; [rest] are the limits
    still to visit. *)
Fixpoint fastPath (id : Z) (type : EntityType) (rest : list CostLimit) (now : Z)
  (st : InMemoryStore.t) : FastPath * InMemoryStore.t :=
  match rest with
  | [] => (Decided allow, st)
  | limit :: rest' =>
      if unlimited (amount limit) then fastPath id type rest' now st
      else
        let a := default Js.zero (amount limit) in
        let continue (current : Js.number) (st' : InMemoryStore.t) :=
          if reaches current a then
            (Decided {| allowed := false;
                        reason := Some (CostLimitReached type (name limit) current a) |},
             st')
          else fastPath id type rest' now st' in
        match period limit with
        | P5h =>
            let key := entityKey type id "cost_5h_rolling" in
            let '(result, st1) :=
              RollingWindow.getCost5hRollingWindow key now (5 * 60 * 60 * 1000) st in
            let current := Js.parseFloat (orZero result) in
            if Js.strictEquals current Js.zero then
              if InMemoryStore.exists_ [key] now st1 =? 0 then (CacheMiss 3, st1)
              else continue current st1
            else continue current st1
        | _ =>
            if isRolling limit then
              let key := entityKey type id "cost_daily_rolling" in
              let '(result, st1) :=
                RollingWindow.getCostDailyRollingWindow key now (24 * 60 * 60 * 1000) st in
              let current := Js.parseFloat (orZero result) in
              if Js.strictEquals current Js.zero then
                if InMemoryStore.exists_ [key] now st1 =? 0 then (CacheMiss 3, st1)
                else continue current st1
              else continue current st1
            else
              let '(value, st1) :=
                InMemoryStore.get (entityKey type id (fixedKeySuffix limit)) now st in
              match value with
              | None =>
                  if Js.gt a Js.zero then (CacheMiss 2, st1)
                  else continue (Js.parseFloat "0") st1
              | Some v => continue (Js.parseFloat (orZero v)) st1
              end
        end
  end.

Definition checkCostLimits (id : Z) (type : EntityType) (limits : Limits)
  (now : Z) (w : World) : Outcome CheckResult * World :=
  let costLimits := costLimitsOf limits in
  match client w with
  | Some st =>
      if InMemoryStore.isReady st then
        match fastPath id type costLimits now st with
        | (Decided r, st') => (Returned r, withClient w st')
        | (CacheMiss tries, st') => degrade tries id type costLimits now (withClient w st')
        end
      else degrade 2 id type costLimits now w
  | None => degrade 2 id type costLimits now w
  end.

Definition checkSessionLimit (id : Z) (type : EntityType) (limit now : Z) (w : World)
  : CheckResult * World :=
  if limit <=? 0 then (allow, w)
  else
    let '(count, c') :=
      match type with
      | KeyEntity => SessionTracker.getKeySessionCount id now (client w)
      | ProviderEntity => SessionTracker.getProviderSessionCount id now (client w)
      end in
    let w' := {| client := c'; dbQueries := dbQueries w |} in
    if limit <=? count then
      ({| allowed := false; reason := Some (SessionLimitReached type count limit) |}, w')
    else (allow, w').

Record ProviderSessionResult := {
  psAllowed : bool;
  psCount : Z;
  psTracked : bool;
  psReason : option Reason
}.

Definition failOpen : ProviderSessionResult :=
  {| psAllowed := true; psCount := 0; psTracked := false; psReason := None |}.

Definition checkAndTrackProviderSession (providerId : Z) (sessionId : string)
  (limit now : Z) (w : World) : ProviderSessionResult * World :=
  if limit <=? 0 then (failOpen, w)
  else
    match client w with
    | None => (failOpen, w)
    | Some st =>
        if negb (InMemoryStore.isReady st) then (failOpen, w)
        else
          let key := ("provider:" ++ Js.numberToString providerId
                      ++ ":active_sessions")%string in
          let '(result, st') :=
            SessionScript.checkAndTrackSession key sessionId limit now st in
          if negb (SessionScript.allowed result) then
            ({| psAllowed := false; psCount := SessionScript.currentCount result;
                psTracked := false;
                psReason := Some (ProviderSessionLimitReached
                                    (SessionScript.currentCount result) limit) |},
             withClient w st')
          else
            ({| psAllowed := true; psCount := SessionScript.currentCount result;
                psTracked := SessionScript.tracked result; psReason := None |},
             withClient w st')
    end.

(** The first pipeline of [checkUserRPM], [zremrangebyscore] then [zcard],
    and the count read from its second reply. *)
Definition countUserRequests (userId now : Z) (st : InMemoryStore.t)
  : Z * InMemoryStore.t :=
  let key := ("user:" ++ Js.numberToString userId ++ ":rpm_window")%string in
  let oneMinuteAgo := now - 60000 in
  let '(results, st1) :=
    exec now [Zremrangebyscore key NegInf (Num oneMinuteAgo); Zcard key] st in
  (match results !! 1%nat with
   | Some (_, RNum n) => n
   | _ => 0
   end, st1).

(** What [checkUserRPM] does with the count once the first pipeline has
    answered: refuse, or record the request with the second pipeline, [zadd]
    then [expire].  [random] is the rendering of the [Math.random()] drawn. *)
Definition admitUserRequest (userId rpmLimit now : Z) (random : string) (count : Z)
  (st : InMemoryStore.t) : UserCheckResult Z * InMemoryStore.t :=
  let key := ("user:" ++ Js.numberToString userId ++ ":rpm_window")%string in
  if rpmLimit <=? count then
    ({| uAllowed := false; uReason := Some (UserRpmReached count rpmLimit);
        uCurrent := Some count |}, st)
  else
    let member := (Js.numberToString now ++ ":" ++ random)%string in
    let st2 := (exec now [Zadd key now member; Expire key 120] st).2 in
    ({| uAllowed := true; uReason := None; uCurrent := Some (count + 1) |}, st2).

(** [checkUserRPM] with no other caller served between its two pipelines.
    The pipelines are awaited one after the other and nothing locks the
    window in between: the schedules of concurrent callers are the
    interleavings of [countUserRequests] and [admitUserRequest]. *)
Definition checkUserRPM (userId rpmLimit now : Z) (random : string) (w : World)
  : UserCheckResult Z * World :=
  if rpmLimit <=? 0 then (userAllow, w)
  else
    match client w with
    | None => (userAllow, w)
    | Some st =>
        let '(count, st1) := countUserRequests userId now st in
        let '(result, st2) := admitUserRequest userId rpmLimit now random count st1 in
        (result, withClient w st2)
    end.

Definition checkUserDailyCost (userId : Z) (dailyLimitUsd : Js.number) (now : Z)
  (w : World) : UserCheckResult Js.number * World :=
  if Js.falsy dailyLimitUsd || Js.le dailyLimitUsd Js.zero then (userAllow, w)
  else
    let key := ("user:" ++ Js.numberToString userId ++ ":daily_cost")%string in
    let decide (currentCost : Js.number) (w' : World) :=
      if reaches currentCost dailyLimitUsd then
        ({| uAllowed := false;
            uReason := Some (UserDailyCostReached currentCost dailyLimitUsd);
            uCurrent := Some currentCost |}, w')
      else ({| uAllowed := true; uReason := None; uCurrent := Some currentCost |}, w') in
    match client w with
    | Some st =>
        let '(cached, st1) := InMemoryStore.get key now st in
        match cached with
        | Some v => decide (Js.parseFloat v) (withClient w st1)
        | None =>
            let w1 := logQuery (UserCostToday userId) (withClient w st1) in
            match sumUserCostToday env userId with
            | Thrown => (userAllow, w1)
            | Returned currentCost =>
                let secondsUntilMidnight := getSecondsUntilMidnight env now in
                let st2 := InMemoryStore.setex key secondsUntilMidnight
                             (Js.toString currentCost) now st1 in
                decide currentCost (withClient w1 st2)
            end
        end
    | None =>
        let w1 := logQuery (UserCostToday userId) w in
        match sumUserCostToday env userId with
        | Thrown => (userAllow, w1)
        | Returned currentCost => decide currentCost w1
        end
    end.

(** The pipeline [incrbyfloat(key, cost).expire(key, secondsUntilMidnight)]
    runs its two commands in order on the client. *)
Definition trackUserDailyCost (userId : Z) (cost : Js.number) (now : Z) (w : World)
  : World :=
  match client w with
  | None => w
  | Some st =>
      if Js.le cost Js.zero then w
      else
        let key := ("user:" ++ Js.numberToString userId ++ ":daily_cost")%string in
        let secondsUntilMidnight := getSecondsUntilMidnight env now in
        let st1 := (InMemoryStore.incrbyfloat key cost now st).2 in
        withClient w (InMemoryStore.expire key secondsUntilMidnight now st1).2
  end.

End WithCollaborators.

End RateLimitService.

(** ** Provider endpoints (src/repository/provider-endpoint.ts)

    The table [provider_endpoints] is the list of its rows.  The order of the
    list stands for the order in which the database happens to return rows
    that no [order by] separates; it carries no other meaning, and an update
    is free to move a row.  The integer columns are 32 bits wide
    (drizzle/0034_round_the_fury.sql): a statement that sets one of them to a
    value outside that range is rejected and changes nothing.  The
    transformer [toProviderEndpoint] lives outside these sources and is a
    parameter. *)

Module ProviderEndpointRepo.

Inductive EndpointHealthStatus := Healthy | Degraded | Unhealthy | Unknown.

Record ProviderEndpoint := {
  id : Z;
  providerId : Z;
  name : string;
  url : string;
  apiKey : option string;
  priority : Z;
  weight : Z;
  isEnabled : bool;
  healthStatus : EndpointHealthStatus;
  consecutiveFailures : Z;
  lastFailureTime : option Z;
  lastSuccessTime : option Z;
  createdAt : Z;
  updatedAt : Z
}.

(** [select ... where provider_id = providerId order by priority asc]; rows
    of equal priority come in the order of the list, whatever it is. *)
Definition findEndpointsByProviderId
  (toProviderEndpoint : ProviderEndpoint -> ProviderEndpoint)
  (provider : Z) (table : list ProviderEndpoint) : list ProviderEndpoint :=
  map toProviderEndpoint
      (Js.sortBy priority (List.filter (fun r => providerId r =? provider) table)).

Definition findEndpointById
  (toProviderEndpoint : ProviderEndpoint -> ProviderEndpoint)
  (endpoint : Z) (table : list ProviderEndpoint) : option ProviderEndpoint :=
  match List.filter (fun r => id r =? endpoint) table with
  | r :: _ => Some (toProviderEndpoint r)
  | [] => None
  end.

(** The argument of [updateEndpointHealth]; [None] is an absent field. *)
Record HealthUpdate := {
  newConsecutiveFailures : option Z;
  newLastFailureTime : option Z;
  newLastSuccessTime : option Z;
  newHealthStatus : option EndpointHealthStatus
}.

Definition applyHealth (health : HealthUpdate) (now : Z) (r : ProviderEndpoint)
  : ProviderEndpoint :=
  {| id := id r; providerId := providerId r; name := name r; url := url r;
     apiKey := apiKey r; priority := priority r; weight := weight r;
     isEnabled := isEnabled r;
     healthStatus := default (healthStatus r) (newHealthStatus health);
     consecutiveFailures := default (consecutiveFailures r) (newConsecutiveFailures health);
     lastFailureTime :=
       match newLastFailureTime health with Some t => Some t | None => lastFailureTime r end;
     lastSuccessTime :=
       match newLastSuccessTime health with Some t => Some t | None => lastSuccessTime r end;
     createdAt := createdAt r;
     updatedAt := now |}.

(** The values of an [integer] column. *)
Definition fitsInteger (z : Z) : bool := (-2147483648 <=? z) && (z <=? 2147483647).

(** [update ... set ... where id = endpoint returning id].  The statement is
    rejected, and the rejection thrown, when the new streak does not fit its
    column; otherwise the function throws when no row was updated. *)
Definition updateEndpointHealth (endpoint : Z) (health : HealthUpdate) (now : Z)
  (table : list ProviderEndpoint) : Outcome unit * list ProviderEndpoint :=
  if negb (match newConsecutiveFailures health with
           | Some failures => fitsInteger failures
           | None => true
           end)
  then (Thrown, table)
  else
    let result := List.filter (fun r => id r =? endpoint) table in
    match result with
    | [] => (Thrown, table)
    | _ => (Returned tt,
            map (fun r => if id r =? endpoint then applyHealth health now r else r) table)
    end.

End ProviderEndpointRepo.

(** ** [EndpointHealthTracker] *)

Module EndpointHealthTracker.

Import ProviderEndpointRepo.

Definition FAILURE_THRESHOLD : Z := 3.
Definition DEGRADED_THRESHOLD : Z := 1.

Definition recordSuccess (endpointId now : Z) (table : list ProviderEndpoint)
  : Outcome unit * list ProviderEndpoint :=
  if endpointId =? 0 then (Returned tt, table)
  else updateEndpointHealth endpointId
         {| newConsecutiveFailures := Some 0;
            newLastFailureTime := None;
            newLastSuccessTime := Some now;
            newHealthStatus := Some Healthy |} now table.

Definition recordFailure (endpointId currentFailures now : Z)
  (table : list ProviderEndpoint)
  : Outcome EndpointHealthStatus * list ProviderEndpoint :=
  if endpointId =? 0 then (Returned Healthy, table)
  else
    let newFailures := currentFailures + 1 in
    let status :=
      if FAILURE_THRESHOLD <=? newFailures then Unhealthy
      else if DEGRADED_THRESHOLD <=? newFailures then Degraded
      else Healthy in
    match updateEndpointHealth endpointId
            {| newConsecutiveFailures := Some newFailures;
               newLastFailureTime := Some now;
               newLastSuccessTime := None;
               newHealthStatus := Some status |} now table with
    | (Returned _, table') => (Returned status, table')
    | (Thrown, table') => (Thrown, table')
    end.

End EndpointHealthTracker.

(** ** [EndpointSelector] (src/lib/endpoint-selector.ts)

    [Math.random()] is the argument [random], taken as a rational in [0, 1):
    what is proved of the random and the weighted selection holds for every
    draw and does not depend on how a product or a difference rounds.  The
    static [roundRobinIndex] map is threaded as state. *)

Module EndpointSelector.

Import ProviderEndpointRepo.

Inductive Strategy := Failover | RoundRobin | Random | Weighted | OtherStrategy.

Record Provider := {
  pId : Z;
  pName : string;
  pUrl : string;
  pKey : string;
  useMultipleEndpoints : bool;
  endpointSelectionStrategy : option Strategy
}.

Record ResolvedEndpoint := {
  rId : Z;
  rName : string;
  rUrl : string;
  rApiKey : string;
  rPriority : Z;
  rWeight : Z;
  rHealthStatus : EndpointHealthStatus;
  rConsecutiveFailures : Z
}.

Definition defaultEndpoint (provider : Provider) : ResolvedEndpoint :=
  {| rId := 0; rName := "default"; rUrl := pUrl provider; rApiKey := pKey provider;
     rPriority := 0; rWeight := 1; rHealthStatus := Healthy;
     rConsecutiveFailures := 0 |}.

(** [{ ...ep, apiKey: ep.apiKey || provider.key }] *)
Definition resolve (provider : Provider) (ep : ProviderEndpoint) : ResolvedEndpoint :=
  {| rId := id ep; rName := name ep; rUrl := url ep;
     rApiKey := match apiKey ep with
                | Some k => match k with EmptyString => pKey provider | _ => k end
                | None => pKey provider
                end;
     rPriority := priority ep; rWeight := weight ep;
     rHealthStatus := healthStatus ep;
     rConsecutiveFailures := consecutiveFailures ep |}.

Definition isUsable (excludeEndpointIds : option (list Z)) (ep : ProviderEndpoint) : bool :=
  isEnabled ep
  && match healthStatus ep with Unhealthy => false | _ => true end
  && negb (match excludeEndpointIds with
           | Some ids => existsb (Z.eqb (id ep)) ids
           | None => false
           end).

Definition availableEndpoints (provider : Provider) (excludeEndpointIds : option (list Z))
  (allEndpoints : list ProviderEndpoint) : list ResolvedEndpoint :=
  map (resolve provider) (List.filter (isUsable excludeEndpointIds) allEndpoints).

Definition selectFailover (endpoints : list ResolvedEndpoint) : option ResolvedEndpoint :=
  head (Js.sortBy rPriority endpoints).

Definition selectRoundRobin (provider : Z) (endpoints : list ResolvedEndpoint)
  (roundRobinIndex : gmap Z Z) : option ResolvedEndpoint * gmap Z Z :=
  let currentIndex := default 0 (roundRobinIndex !! provider) in
  let selected :=
    Js.at_ endpoints (Z.rem currentIndex (Z.of_nat (length endpoints))) in
  (selected, <[provider := currentIndex + 1]> roundRobinIndex).

Definition selectRandom (endpoints : list ResolvedEndpoint) (random : Q)
  : option ResolvedEndpoint :=
  let randomIndex := Qfloor (random * inject_Z (Z.of_nat (length endpoints)))%Q in
  Js.at_ endpoints randomIndex.

(** The loop of [selectWeighted]: subtract weights until the draw is spent. *)
Fixpoint weightedWalk (random : Q) (endpoints : list ResolvedEndpoint)
  : option ResolvedEndpoint :=
  match endpoints with
  | [] => None
  | endpoint :: rest =>
      let random' := (random - inject_Z (rWeight endpoint))%Q in
      if Qle_bool random' 0 then Some endpoint else weightedWalk random' rest
  end.

Definition selectWeighted (endpoints : list ResolvedEndpoint) (random : Q)
  : option ResolvedEndpoint :=
  let totalWeight := foldl (fun sum ep => sum + rWeight ep) 0 endpoints in
  match weightedWalk (random * inject_Z totalWeight)%Q endpoints with
  | Some endpoint => Some endpoint
  | None => Js.at_ endpoints (Z.of_nat (length endpoints) - 1)
  end.

Section WithTransformer.

Context (toProviderEndpoint : ProviderEndpoint -> ProviderEndpoint).

Definition selectEndpoint (provider : Provider) (excludeEndpointIds : option (list Z))
  (random : Q) (table : list ProviderEndpoint) (roundRobinIndex : gmap Z Z)
  : option ResolvedEndpoint * gmap Z Z :=
  if negb (useMultipleEndpoints provider) then
    (Some (defaultEndpoint provider), roundRobinIndex)
  else
    let allEndpoints := findEndpointsByProviderId toProviderEndpoint (pId provider) table in
    let available := availableEndpoints provider excludeEndpointIds allEndpoints in
    match available with
    | [] => (None, roundRobinIndex)
    | _ =>
        match default Failover (endpointSelectionStrategy provider) with
        | Failover => (selectFailover available, roundRobinIndex)
        | RoundRobin => selectRoundRobin (pId provider) available roundRobinIndex
        | Random => (selectRandom available random, roundRobinIndex)
        | Weighted => (selectWeighted available random, roundRobinIndex)
        | OtherStrategy => (selectFailover available, roundRobinIndex)
        end
    end.

End WithTransformer.

End EndpointSelector.

(** ** Cost multiplier engine (src/lib/utils/cost-multiplier.ts)

    [Intl] and [Date] are outside these sources: [validTimezone] answers
    whether [Intl.DateTimeFormat] accepts a zone, [toLocaleTime] gives the
    wall clock of an instant in a zone ([None] when the conversion throws)
    and [ownTime] the wall clock in the zone of the process.  The multiplier
    of a rule is the decimal string of a NUMERIC column, read with
    [parseFloat]; the base multiplier and the results are numbers. *)

Module CostMultiplier.

Inductive CostRuleType := ModelRule | TimePeriodRule.
Inductive CostMultiplierStrategy := HighestPriority | Multiply.

Record TimePeriodConfig := {
  startTime : string;
  endTime : string;
  weekdays : option (list Z)
}.

Record ProviderCostRule := {
  id : Z;
  providerId : Z;
  ruleType : CostRuleType;
  name : string;
  multiplier : string;
  priority : Z;
  modelPattern : option string;
  timePeriods : option (list TimePeriodConfig);
  isEnabled : bool
}.

Record CostMultiplierContext := {
  model : string;
  requestTime : Z;
  timezone : string
}.

Record LocalTime := { hours : Z; minutes : Z; day : Z }.

Record Intl := {
  validTimezone : string -> bool;
  toLocaleTime : Z -> string -> option LocalTime;
  ownTime : Z -> LocalTime
}.

Record AppliedRule := {
  ruleId : Z;
  ruleName : string;
  appliedType : CostRuleType;
  appliedMultiplier : Js.number;
  appliedPriority : Z
}.

Record CostMultiplierResult := {
  finalMultiplier : Js.number;
  appliedRules : list AppliedRule;
  baseMultiplier : Js.number
}.

Definition digitsValue (s : string) : Z :=
  match NilEmpty.uint_of_string s with Some d => Z.of_uint d | None => 0 end.

Definition charBetween (lo hi c : ascii) : bool :=
  ((nat_of_ascii lo <=? nat_of_ascii c) && (nat_of_ascii c <=? nat_of_ascii hi))%nat.

(** [/^([0-1]\d|2[0-3]):([0-5]\d)$/] *)
Definition validateTimeFormat (timeStr : string) : bool :=
  match timeStr with
  | String h1 (String h2 (String c (String m1 (String m2 EmptyString)))) =>
      ((charBetween "0" "1" h1 && Js.isDigit h2)
       || (Ascii.eqb h1 "2" && charBetween "0" "3" h2))
      && Ascii.eqb c ":" && charBetween "0" "5" m1 && Js.isDigit m2
  | _ => false
  end.

(** The regular expression built by [matchWildcard].  After the escaping of
    the characters [. + ^ $ { } ( ) | [ ] \] every character of the pattern
    other than [*] and [?] stands for itself; [*] becomes [.*] and [?]
    becomes [.]. *)
Inductive RegexToken := Literal (c : ascii) | AnyChar | AnyChars.

Fixpoint regexOfPattern (pattern : string) : list RegexToken :=
  match pattern with
  | EmptyString => []
  | String c r =>
      (if Ascii.eqb c "*" then AnyChars
       else if Ascii.eqb c "?" then AnyChar
       else Literal c) :: regexOfPattern r
  end.

(** The flag [i]: letters are compared through their upper case. *)
Definition upperCase (c : ascii) : ascii :=
  if charBetween "a" "z" c then ascii_of_nat (nat_of_ascii c - 32) else c.

(** [.] matches any character but a line terminator. *)
Definition dotMatches (c : ascii) : bool :=
  negb ((nat_of_ascii c =? 10) || (nat_of_ascii c =? 13))%nat.

(** [new RegExp("^" + regex + "$", "i").test(text)] *)
Fixpoint regexTest (regex : list RegexToken) (text : string) : bool :=
  match regex with
  | [] => match text with EmptyString => true | _ => false end
  | Literal c :: rest =>
      match text with
      | String x text' => Ascii.eqb (upperCase c) (upperCase x) && regexTest rest text'
      | EmptyString => false
      end
  | AnyChar :: rest =>
      match text with
      | String x text' => dotMatches x && regexTest rest text'
      | EmptyString => false
      end
  | AnyChars :: rest =>
      (fix star (t : string) : bool :=
         regexTest rest t
         || match t with
            | String x t' => dotMatches x && star t'
            | EmptyString => false
            end) text
  end.

Definition matchWildcard (pattern text : string) : bool :=
  regexTest (regexOfPattern pattern) text.

(** [s.split(":")] *)
Fixpoint splitColon (s : string) : list string :=
  match s with
  | EmptyString => [EmptyString]
  | String c r =>
      if Ascii.eqb c ":" then EmptyString :: splitColon r
      else match splitColon r with
           | piece :: pieces => String c piece :: pieces
           | [] => [String c EmptyString]
           end
  end.

(** [Number(s)] for a string of digits ([""] is 0); anything else is NaN. *)
Definition toNumber (s : string) : option Z :=
  match s with
  | EmptyString => Some 0
  | _ => if String.eqb (Js.digitPrefix s) s then Some (digitsValue s) else None
  end.

(** [hour * 60 + min] for [const [hour, min] = t.split(":").map(Number)]. *)
Definition minutesOf (t : string) : option Z :=
  match map toNumber (splitColon t) with
  | Some hour :: Some min :: _ => Some (hour * 60 + min)
  | _ => None
  end.

(** The body of the loop of [isWithinTimePeriod] for one period. *)
Definition withinPeriod (currentMinutes currentWeekday : Z) (period : TimePeriodConfig)
  : bool :=
  if negb (validateTimeFormat (startTime period) && validateTimeFormat (endTime period))
  then false
  else if match weekdays period with
          | Some (d :: ds) => negb (existsb (Z.eqb currentWeekday) (d :: ds))
          | _ => false
          end
  then false
  else match minutesOf (startTime period), minutesOf (endTime period) with
       | Some startMinutes, Some endMinutes =>
           if startMinutes <=? endMinutes then
             (startMinutes <=? currentMinutes) && (currentMinutes <? endMinutes)
           else
             (startMinutes <=? currentMinutes) || (currentMinutes <? endMinutes)
       | _, _ => false
       end.

Definition isWithinTimePeriod (intl : Intl) (periods : list TimePeriodConfig)
  (currentTime : Z) (zone : string) : bool :=
  match periods with
  | [] => false
  | _ =>
      let zone' := if validTimezone intl zone then zone else "UTC"%string in
      let localTime :=
        match toLocaleTime intl currentTime zone' with
        | Some t => t
        | None => ownTime intl currentTime
        end in
      let currentWeekday := if day localTime =? 0 then 7 else day localTime in
      let currentMinutes := hours localTime * 60 + minutes localTime in
      existsb (withinPeriod currentMinutes currentWeekday) periods
  end.

Definition ruleMatches (intl : Intl) (context : CostMultiplierContext)
  (rule : ProviderCostRule) : bool :=
  match ruleType rule with
  | ModelRule =>
      match modelPattern rule with
      | Some EmptyString => false
      | Some pattern => matchWildcard pattern (model context)
      | None => false
      end
  | TimePeriodRule =>
      match timePeriods rule with
      | Some periods =>
          isWithinTimePeriod intl periods (requestTime context) (timezone context)
      | None => false
      end
  end.

Definition applied (rule : ProviderCostRule) : AppliedRule :=
  {| ruleId := id rule; ruleName := name rule; appliedType := ruleType rule;
     appliedMultiplier := Js.parseFloat (multiplier rule);
     appliedPriority := priority rule |}.

Definition calculateFinalMultiplier (intl : Intl) (base : Js.number)
  (rules : list ProviderCostRule) (context : CostMultiplierContext)
  (strategy : CostMultiplierStrategy) : CostMultiplierResult :=
  let enabledRules := List.filter isEnabled rules in
  let matchedRules :=
    foldl (fun matched rule =>
             if ruleMatches intl context rule then matched ++ [rule] else matched)
          [] enabledRules in
  match matchedRules with
  | [] => {| finalMultiplier := base; appliedRules := []; baseMultiplier := base |}
  | _ =>
      match strategy with
      | HighestPriority =>
          let sortedRules := Js.sortBy (fun r => - priority r) matchedRules in
          match head sortedRules with
          | Some highestPriorityRule =>
              let ruleMultiplier := Js.parseFloat (multiplier highestPriorityRule) in
              {| finalMultiplier := Js.mul base ruleMultiplier;
                 appliedRules := [applied highestPriorityRule];
                 baseMultiplier := base |}
          | None =>
              (* not reached: [matchedRules] is not empty *)
              {| finalMultiplier := S754_nan; appliedRules := [];
                 baseMultiplier := base |}
          end
      | Multiply =>
          let acc :=
            foldl (fun acc rule =>
                     (Js.mul acc.1 (Js.parseFloat (multiplier rule)),
                      acc.2 ++ [applied rule]))
                  (Js.one, []) matchedRules in
          {| finalMultiplier := Js.mul base acc.1;
             appliedRules := acc.2;
             baseMultiplier := base |}
      end
  end.

End CostMultiplier.

(** ** Observations and call sequences used by the properties *)

(** The sorted set stored under [key] (empty when the key is absent). *)
Definition zsetOf (key : string) (st : InMemoryStore.t) : list (string * Z) :=
  default [] (InMemoryStore.zsetStore st !! key).

(** The number written as the decimal literal [text]. *)
Definition num (text : string) : Js.number := Js.parseFloat text.

(** The sum of a list of numbers as a loop computes it: added one after the
    other, from 0.  Addition of doubles rounds, so the order matters. *)
Definition sumOf (l : list Js.number) : Js.number := foldl Js.add Js.zero l.

(** A number greater than 0 (infinity included), and a number that is not
    less than 0. *)
Definition isPositive (x : Js.number) : bool :=
  match x with
  | S754_infinity false => true
  | S754_finite false _ e => emin Js.prec Js.emax <=? e
  | _ => false
  end.


(** A double as the machine holds it: the mantissa normalised and the
    exponent within the range of the format. *)
Definition wellFormed (x : Js.number) : bool := valid_binary Js.prec Js.emax x.

(** A number that its text gives back.  [String] prints the shortest
    decimal that reads back as the number, so every number has this property
    but NaN apart and -0, which is printed "0"; here NaN is left out, and the
    property is checked by evaluation wherever a number is given. *)
Definition printable (x : Js.number) : Prop :=
  Js.isNaN x = false /\ Js.parseFloat (Js.toString x) = x.

(** A cost as a window reads it back from the member that records it: the
    text of the cost parsed again, NaN counting for 0. *)
Definition readBack (c : Js.number) : Js.number :=
  if Js.isNaN (Js.parseFloat (Js.toString c)) then Js.zero
  else Js.parseFloat (Js.toString c).

(** Cost events [(time, cost)] recorded one after the other with
    [trackCost5hRollingWindow]. *)
Definition trackAll (key : string) (windowMs : Z) (events : list (Z * Js.number))
  (st : InMemoryStore.t) : InMemoryStore.t :=
  foldl (fun st e => (RollingWindow.trackCost5hRollingWindow key e.2 e.1 windowMs st).2)
        st events.

(** The entry of the sorted set written for a cost event. *)
Definition entryOf (e : Z * Js.number) : string * Z :=
  (RollingWindow.member e.1 e.2, e.1).

(** Calls [(sessionId, now)] of [checkAndTrackProviderSession] served one
    after the other, each paired with the world it leaves. *)
Fixpoint admitAll (providerId limit : Z) (calls : list (string * Z))
  (w : RateLimitService.World)
  : list (RateLimitService.ProviderSessionResult * RateLimitService.World) :=
  match calls with
  | [] => []
  | c :: rest =>
      let rw := RateLimitService.checkAndTrackProviderSession providerId c.1 limit c.2 w in
      rw :: admitAll providerId limit rest rw.2
  end.

(** The world left by a run of [checkAndTrackProviderSession] calls. *)
Definition finalWorld (providerId limit : Z) (calls : list (string * Z))
  (w : RateLimitService.World) : RateLimitService.World :=
  foldl (fun w c =>
           (RateLimitService.checkAndTrackProviderSession providerId c.1 limit c.2 w).2)
        w calls.

(** The periodic sweep of the store: the [setInterval] of [InMemoryMap]
    runs [cleanup] on the string store. *)
Definition sweep (now : Z) (st : InMemoryStore.t) : InMemoryStore.t :=
  InMemoryStore.withM st (InMemoryMap.cleanup now (InMemoryStore.mapStore st)).

(** A durable store in which every aggregate is [total], with fixed time
    utilities. *)
Definition constantStore (total : Js.number) : RateLimitService.Collaborators :=
  {| RateLimitService.normalizeResetTime := fun rt => default "00:00"%string rt;
     RateLimitService.getTimeRangeForPeriodWithMode :=
       fun _ _ _ now => (now - 18000000, now);
     RateLimitService.getTTLForPeriodWithMode := fun _ _ _ _ => 3600;
     RateLimitService.getSecondsUntilMidnight := fun _ => 3600;
     RateLimitService.sumKeyCostInTimeRange := fun _ _ _ => Returned total;
     RateLimitService.sumProviderCostInTimeRange := fun _ _ _ => Returned total;
     RateLimitService.sumUserCostToday := fun _ => Returned total |}.

(** Limits with a 5-hour cap only. *)
Definition only5h (cap : Js.number) : RateLimitService.Limits :=
  {| RateLimitService.limit_5h_usd := Some cap;
     RateLimitService.limit_daily_usd := None;
     RateLimitService.daily_reset_time := None;
     RateLimitService.daily_reset_mode := None;
     RateLimitService.limit_weekly_usd := None;
     RateLimitService.limit_monthly_usd := None |}.

(** The store is unavailable: the client is missing or not ready. *)
Definition unavailable (w : RateLimitService.World) : Prop :=
  SessionTracker.usable (RateLimitService.client w) = None.

(** The aggregate the durable store answers for a limit. *)
Definition durableTotal (env : RateLimitService.Collaborators) (id : Z)
  (type : RateLimitService.EntityType) (limit : RateLimitService.CostLimit) (now : Z)
  : Outcome Js.number :=
  let range := RateLimitService.getTimeRangeForPeriodWithMode env
                 (RateLimitService.period limit) (RateLimitService.resetTime limit)
                 (RateLimitService.resetMode limit) now in
  match type with
  | RateLimitService.KeyEntity =>
      RateLimitService.sumKeyCostInTimeRange env id range.1 range.2
  | RateLimitService.ProviderEntity =>
      RateLimitService.sumProviderCostInTimeRange env id range.1 range.2
  end.

(** A limit that is set: a positive amount. *)
Definition capOf (limit : RateLimitService.CostLimit) (a : Js.number) : Prop :=
  RateLimitService.amount limit = Some a /\ Js.lt Js.zero a = true.

(** What the durable store says about a list of limits: an allowing answer
    means every set limit has a total that has not reached its amount, a
    denying answer names a set limit whose total has reached its amount, and
    a failure comes from a failing query. *)
Definition durableVerdict (env : RateLimitService.Collaborators) (id : Z)
  (type : RateLimitService.EntityType) (costLimits : list RateLimitService.CostLimit)
  (now : Z) (o : Outcome RateLimitService.CheckResult) : Prop :=
  match o with
  | Returned r =>
      if RateLimitService.allowed r then
        forall limit a, In limit costLimits -> capOf limit a ->
          exists c, durableTotal env id type limit now = Returned c /\ Js.ge c a = false
      else
        exists limit a c, In limit costLimits /\ capOf limit a /\
          durableTotal env id type limit now = Returned c /\ Js.ge c a = true
  | Thrown =>
      exists limit a, In limit costLimits /\ capOf limit a /\
        durableTotal env id type limit now = Thrown
  end.

(** Every row of [endpoint] in the table carries the given streak and
    status, and there is such a row. *)
Definition persisted (endpoint failures : Z)
  (status : ProviderEndpointRepo.EndpointHealthStatus)
  (table : list ProviderEndpointRepo.ProviderEndpoint) : Prop :=
  (exists r, In r table /\ ProviderEndpointRepo.id r = endpoint) /\
  forall r, In r table -> ProviderEndpointRepo.id r = endpoint ->
            ProviderEndpointRepo.consecutiveFailures r = failures /\
            ProviderEndpointRepo.healthStatus r = status.

(** A provider in multi-endpoint mode with three healthy endpoints of
    priorities 5, 1 and 3 (ids 11, 12 and 13). *)
Definition exampleRow (endpoint prio : Z) : ProviderEndpointRepo.ProviderEndpoint :=
  {| ProviderEndpointRepo.id := endpoint; ProviderEndpointRepo.providerId := 4;
     ProviderEndpointRepo.name := "endpoint"; ProviderEndpointRepo.url := "https://upstream";
     ProviderEndpointRepo.apiKey := None; ProviderEndpointRepo.priority := prio;
     ProviderEndpointRepo.weight := 1; ProviderEndpointRepo.isEnabled := true;
     ProviderEndpointRepo.healthStatus := ProviderEndpointRepo.Healthy;
     ProviderEndpointRepo.consecutiveFailures := 0;
     ProviderEndpointRepo.lastFailureTime := None;
     ProviderEndpointRepo.lastSuccessTime := None;
     ProviderEndpointRepo.createdAt := 0; ProviderEndpointRepo.updatedAt := 0 |}.

Definition exampleTable : list ProviderEndpointRepo.ProviderEndpoint :=
  [exampleRow 11 5; exampleRow 12 1; exampleRow 13 3].

Definition exampleProvider : EndpointSelector.Provider :=
  {| EndpointSelector.pId := 4; EndpointSelector.pName := "provider";
     EndpointSelector.pUrl := "https://provider"; EndpointSelector.pKey := "sk-provider";
     EndpointSelector.useMultipleEndpoints := true;
     EndpointSelector.endpointSelectionStrategy := Some EndpointSelector.Failover |}.

(** The combined factor as the specification words it: 1 when no enabled rule
    matches, the product of the multipliers of the matched rules under
    [multiply], the multiplier of the matched rule of greatest priority (the
    first of them in rule order) under [highest_priority]. *)
Definition matchedRulesOf (intl : CostMultiplier.Intl)
  (context : CostMultiplier.CostMultiplierContext)
  (rules : list CostMultiplier.ProviderCostRule) : list CostMultiplier.ProviderCostRule :=
  List.filter (fun r => CostMultiplier.isEnabled r
                        && CostMultiplier.ruleMatches intl context r) rules.

(** The product of the multipliers of a list of rules, multiplied in the
    order of the list, from 1. *)
Definition productOf (rules : list CostMultiplier.ProviderCostRule) : Js.number :=
  foldl Js.mul Js.one (map (fun r => Js.parseFloat (CostMultiplier.multiplier r)) rules).

Fixpoint greatest (rules : list CostMultiplier.ProviderCostRule)
  : option CostMultiplier.ProviderCostRule :=
  match rules with
  | [] => None
  | r :: rest =>
      match greatest rest with
      | Some g =>
          if CostMultiplier.priority g <=? CostMultiplier.priority r then Some r else Some g
      | None => Some r
      end
  end.

Definition combinedFactor (intl : CostMultiplier.Intl)
  (rules : list CostMultiplier.ProviderCostRule)
  (context : CostMultiplier.CostMultiplierContext)
  (strategy : CostMultiplier.CostMultiplierStrategy) : Js.number :=
  match matchedRulesOf intl context rules with
  | [] => Js.one
  | matched =>
      match strategy with
      | CostMultiplier.Multiply => productOf matched
      | CostMultiplier.HighestPriority =>
          match greatest matched with
          | Some g => Js.parseFloat (CostMultiplier.multiplier g)
          | None => Js.one
          end
      end
  end.

(** The example of the specification: a model rule and a nightly period
    rule, a request for ["claude-3-5-sonnet"] at 23:00 local time. *)
Definition exampleRules : list CostMultiplier.ProviderCostRule :=
  [ {| CostMultiplier.id := 1; CostMultiplier.providerId := 4;
       CostMultiplier.ruleType := CostMultiplier.ModelRule;
       CostMultiplier.name := "sonnet"; CostMultiplier.multiplier := "1.5";
       CostMultiplier.priority := 1;
       CostMultiplier.modelPattern := Some "claude-3-5-*"%string;
       CostMultiplier.timePeriods := None; CostMultiplier.isEnabled := true |};
    {| CostMultiplier.id := 2; CostMultiplier.providerId := 4;
       CostMultiplier.ruleType := CostMultiplier.TimePeriodRule;
       CostMultiplier.name := "night"; CostMultiplier.multiplier := "2.0";
       CostMultiplier.priority := 2;
       CostMultiplier.modelPattern := None;
       CostMultiplier.timePeriods :=
         Some [ {| CostMultiplier.startTime := "22:00"; CostMultiplier.endTime := "06:00";
                   CostMultiplier.weekdays := None |} ];
       CostMultiplier.isEnabled := true |} ].

Definition exampleContext : CostMultiplier.CostMultiplierContext :=
  {| CostMultiplier.model := "claude-3-5-sonnet"; CostMultiplier.requestTime := 0;
     CostMultiplier.timezone := "Asia/Shanghai" |}.

(** A clock on which every instant is [hour]:[minute] of a Wednesday in
    every zone. *)
Definition clockAt (hour minute : Z) : CostMultiplier.Intl :=
  {| CostMultiplier.validTimezone := fun _ => true;
     CostMultiplier.toLocaleTime :=
       fun _ _ => Some {| CostMultiplier.hours := hour; CostMultiplier.minutes := minute;
                          CostMultiplier.day := 3 |};
     CostMultiplier.ownTime :=
       fun _ => {| CostMultiplier.hours := hour; CostMultiplier.minutes := minute;
                   CostMultiplier.day := 3 |} |}.

Definition elevenPm : CostMultiplier.Intl := clockAt 23 0.
Definition noon : CostMultiplier.Intl := clockAt 12 0.

(** The rolling windows of the cost check: the 5-hour window, or the daily
    window in rolling mode ([daily]). *)
Definition windowKeyOf (daily : bool) (type : RateLimitService.EntityType) (id : Z)
  : string :=
  RateLimitService.entityKey type id
    (if daily then "cost_daily_rolling" else "cost_5h_rolling")%string.

Definition windowOf (daily : bool) : Z := if daily then 86400000 else 18000000.


Definition windowLimit (env : RateLimitService.Collaborators) (daily : bool)
  (cap : Js.number) : RateLimitService.CostLimit :=
  if daily then
    {| RateLimitService.amount := Some cap;
       RateLimitService.period := RateLimitService.Daily;
       RateLimitService.name := "daily";
       RateLimitService.resetTime := Some (RateLimitService.normalizeResetTime env None);
       RateLimitService.resetMode := Some RateLimitService.Rolling |}
  else
    {| RateLimitService.amount := Some cap;
       RateLimitService.period := RateLimitService.P5h;
       RateLimitService.name := "5h";
       RateLimitService.resetTime := None;
       RateLimitService.resetMode := None |}.





(** The service holds a ready client whose provider set is [done]. *)
Definition serving (providerId : Z) (done : list (string * Z))
  (w : RateLimitService.World) : Prop :=
  exists st, RateLimitService.client w = Some st /\ InMemoryStore.isReady st = true /\
             zsetOf (SessionTracker.providerKey providerId) st = done.

(** The provider's sorted set of active sessions in a world. *)
Definition providerSessions (providerId : Z) (w : RateLimitService.World)
  : list (string * Z) :=
  match RateLimitService.client w with
  | Some st => zsetOf (SessionTracker.providerKey providerId) st
  | None => []
  end.

Definition admitted (rw : RateLimitService.ProviderSessionResult * RateLimitService.World)
  : bool :=
  RateLimitService.psAllowed rw.1 && RateLimitService.psTracked rw.1.

Definition rejected (rw : RateLimitService.ProviderSessionResult * RateLimitService.World)
  : bool :=
  negb (RateLimitService.psAllowed rw.1).

(** The shape every sorted set of the store keeps: one entry per member, and
    no empty set left under a key. *)
Definition zsetInvariant (st : InMemoryStore.t) : Prop :=
  forall key zs, InMemoryStore.zsetStore st !! key = Some zs ->
                 NoDup (map fst zs) /\ zs <> [].

(** [score] lies in the closed range from [lo] to [hi]. *)
Definition scoreInRange (lo hi : InMemoryZSet.bound) (score : Z) : bool :=
  InMemoryZSet.geBound score lo && InMemoryZSet.leBound score hi.


(** The key of a user's request window and of a user's cached daily cost. *)
Definition rpmKey (userId : Z) : string :=
  ("user:" ++ Js.numberToString userId ++ ":rpm_window")%string.

Definition dailyCostKey (userId : Z) : string :=
  ("user:" ++ Js.numberToString userId ++ ":daily_cost")%string.

(** The sorted set under [key] held by the client of a world. *)
Definition clientZSet (key : string) (w : RateLimitService.World) : list (string * Z) :=
  match RateLimitService.client w with
  | Some st => zsetOf key st
  | None => []
  end.

(** The entries of a sorted set scored after [cutoff]. *)
Definition after (cutoff : Z) (zs : list (string * Z)) : list (string * Z) :=
  List.filter (fun e => cutoff <? e.2) zs.

(** The session has a live marker [session:<id>:info] in the string store. *)
Definition hasLiveInfo (now : Z) (st : InMemoryStore.t) (sessionId : string) : bool :=
  InMemoryStore.exists_ [SessionTracker.infoKey sessionId] now st =? 1.


(** [k] consecutive calls of [selectRoundRobin] for one provider: the
    endpoints selected, in order, and the index map the calls leave. *)
Fixpoint roundRobinCalls (provider : Z) (endpoints : list EndpointSelector.ResolvedEndpoint)
  (k : nat) (roundRobinIndex : gmap Z Z)
  : list (option EndpointSelector.ResolvedEndpoint) * gmap Z Z :=
  match k with
  | O => ([], roundRobinIndex)
  | S k' =>
      let '(selected, index1) :=
        EndpointSelector.selectRoundRobin provider endpoints roundRobinIndex in
      let '(others, index2) := roundRobinCalls provider endpoints k' index1 in
      (selected :: others, index2)
  end.


(** The product of the multipliers reported in a list of applied rules. *)
Definition appliedProduct (report : list CostMultiplier.AppliedRule) : Js.number :=
  foldl Js.mul Js.one (map CostMultiplier.appliedMultiplier report).

(** Two rows of the endpoint table that differ in their health fields and
    their modification time only. *)
Definition sameConfiguration (a b : ProviderEndpointRepo.ProviderEndpoint) : Prop :=
  ProviderEndpointRepo.id a = ProviderEndpointRepo.id b /\
  ProviderEndpointRepo.providerId a = ProviderEndpointRepo.providerId b /\
  ProviderEndpointRepo.name a = ProviderEndpointRepo.name b /\
  ProviderEndpointRepo.url a = ProviderEndpointRepo.url b /\
  ProviderEndpointRepo.apiKey a = ProviderEndpointRepo.apiKey b /\
  ProviderEndpointRepo.priority a = ProviderEndpointRepo.priority b /\
  ProviderEndpointRepo.weight a = ProviderEndpointRepo.weight b /\
  ProviderEndpointRepo.isEnabled a = ProviderEndpointRepo.isEnabled b /\
  ProviderEndpointRepo.createdAt a = ProviderEndpointRepo.createdAt b.


(** The configuration of a row: everything but its health fields and its
    modification time. *)
Definition configuration (r : ProviderEndpointRepo.ProviderEndpoint) :=
  (ProviderEndpointRepo.id r, ProviderEndpointRepo.providerId r,
   ProviderEndpointRepo.name r, ProviderEndpointRepo.url r,
   ProviderEndpointRepo.apiKey r, ProviderEndpointRepo.priority r,
   ProviderEndpointRepo.weight r, ProviderEndpointRepo.isEnabled r,
   ProviderEndpointRepo.createdAt r).

(** The rows of the endpoints other than [endpoint]. *)
Definition otherEndpoints (endpoint : Z)
  (rows : list ProviderEndpointRepo.ProviderEndpoint)
  : list ProviderEndpointRepo.ProviderEndpoint :=
  List.filter (fun row => negb (ProviderEndpointRepo.id row =? endpoint)) rows.

(** Predicates on texts used to word the behaviour of [matchWildcard] and
    of the time periods. *)
Fixpoint allChars (p : ascii -> bool) (s : string) : bool :=
  match s with
  | EmptyString => true
  | String c r => p c && allChars p r
  end.

(** A character of a pattern that stands for itself. *)
Definition plainChar (c : ascii) : bool :=
  negb (Ascii.eqb c "*") && negb (Ascii.eqb c "?").

Definition isAscii (c : ascii) : bool := (nat_of_ascii c <? 128)%nat.

(** Equality of texts up to the case of letters. *)
Fixpoint equalIgnoringCase (a b : string) : bool :=
  match a, b with
  | EmptyString, EmptyString => true
  | String x a', String y b' =>
      Ascii.eqb (CostMultiplier.upperCase x) (CostMultiplier.upperCase y)
      && equalIgnoringCase a' b'
  | _, _ => false
  end.

(** [text] starts with [prefix], up to the case of letters. *)
Fixpoint startsWithIgnoringCase (prefix text : string) : bool :=
  match prefix, text with
  | EmptyString, _ => true
  | String x p', String y t' =>
      Ascii.eqb (CostMultiplier.upperCase x) (CostMultiplier.upperCase y)
      && startsWithIgnoringCase p' t'
  | String _ _, EmptyString => false
  end.

(** The value of a decimal digit. *)
Definition digitOf (c : ascii) : Z := Z.of_nat (nat_of_ascii c) - 48.

(** A period without a restriction on the days of the week. *)
Definition everyDay (startTime endTime : string) : CostMultiplier.TimePeriodConfig :=
  {| CostMultiplier.startTime := startTime; CostMultiplier.endTime := endTime;
     CostMultiplier.weekdays := None |}.


(* ===================================================================== *)
(** * Part II: properties *)
(* ===================================================================== *)

(** ** Numbers and their decimal rendering *)

Section JsFacts.

Import Js.

Lemma digit_not_special (c : ascii) :
  isDigit c = true ->
  isWhiteSpace c = false /\ Ascii.eqb c "-" = false /\
  Ascii.eqb c "+" = false /\ Ascii.eqb c ":" = false.
Proof.
  destruct c as [[] [] [] [] [] [] [] []]; vm_compute; intuition congruence.
Qed.

Lemma nilzero_string_of_uint (d : Decimal.uint) :
  d <> Decimal.Nil -> NilZero.string_of_uint d = NilEmpty.string_of_uint d.
Proof. destruct d; [congruence | reflexivity ..]. Qed.

Lemma digitPrefix_uint (d : Decimal.uint) (r : string) :
  digitPrefix (NilEmpty.string_of_uint d ++ r) =
  (NilEmpty.string_of_uint d ++ digitPrefix r)%string.
Proof. induction d; simpl; [reflexivity | rewrite IHd; reflexivity ..]. Qed.

Lemma append_empty (s : string) : (s ++ "")%string = s.
Proof.
  induction s as [| a s IH]; [reflexivity |].
  change (String a (s ++ "") = String a s). rewrite IH. reflexivity.
Qed.

Lemma uint_head_digit (d : Decimal.uint) :
  d <> Decimal.Nil ->
  exists c r, NilEmpty.string_of_uint d = String c r /\ isDigit c = true.
Proof. destruct d; [congruence | simpl; eauto ..]. Qed.

Lemma parseDigits_uint (d : Decimal.uint) (r : string) :
  d <> Decimal.Nil -> digitPrefix r = ""%string ->
  parseDigits (NilEmpty.string_of_uint d ++ r) = Some (Z.of_uint d).
Proof.
  intros Hd Hr. unfold parseDigits.
  rewrite digitPrefix_uint, Hr, append_empty.
  rewrite <- (nilzero_string_of_uint d Hd), NilZero.usu by exact Hd.
  reflexivity.
Qed.

Lemma parseInt_uint (d : Decimal.uint) (r : string) :
  d <> Decimal.Nil -> digitPrefix r = ""%string ->
  parseInt (NilEmpty.string_of_uint d ++ r) = Some (Z.of_uint d).
Proof.
  intros Hd Hr. destruct (uint_head_digit d Hd) as (c & s & Hs & Hc).
  destruct (digit_not_special c Hc) as (Hw & Hm & Hp & _).
  pose proof (parseDigits_uint d r Hd Hr) as Hpd.
  unfold parseInt. rewrite Hs in *.
  change (String c s ++ r)%string with (String c (s ++ r)) in *.
  cbn [trimStart]. rewrite Hw, Hm, Hp. exact Hpd.
Qed.

Lemma of_uint_to_uint (p : positive) : Z.of_uint (Pos.to_uint p) = Z.pos p.
Proof. unfold Z.of_uint. rewrite DecimalPos.Unsigned.of_to. reflexivity. Qed.

(** A number followed by a non-digit parses to that number. *)
Lemma parseInt_number_suffix (z : Z) (r : string) :
  digitPrefix r = ""%string -> parseInt (numberToString z ++ r) = Some z.
Proof.
  intros Hr.
  destruct z as [| p | p]; unfold numberToString; cbn [Z.to_int NilZero.string_of_int].
  - change (NilZero.string_of_uint (Decimal.D0 Decimal.Nil))
      with (NilEmpty.string_of_uint (Decimal.D0 Decimal.Nil)).
    rewrite parseInt_uint by (congruence || exact Hr). reflexivity.
  - rewrite nilzero_string_of_uint by apply DecimalPos.Unsigned.to_uint_nonnil.
    rewrite parseInt_uint by (apply DecimalPos.Unsigned.to_uint_nonnil || exact Hr).
    rewrite of_uint_to_uint. reflexivity.
  - rewrite nilzero_string_of_uint by apply DecimalPos.Unsigned.to_uint_nonnil.
    unfold parseInt.
    change (String "-" (NilEmpty.string_of_uint (Pos.to_uint p)) ++ r)%string
      with (String "-" (NilEmpty.string_of_uint (Pos.to_uint p) ++ r)).
    cbn [trimStart isWhiteSpace]. simpl.
    rewrite parseDigits_uint by (apply DecimalPos.Unsigned.to_uint_nonnil || exact Hr).
    rewrite of_uint_to_uint. reflexivity.
Qed.

(** [parseInt(String(n), 10)] is [n]. *)
Lemma parseInt_numberToString (z : Z) : parseInt (numberToString z) = Some z.
Proof.
  rewrite <- (append_empty (numberToString z)).
  apply parseInt_number_suffix. reflexivity.
Qed.

(** The rendering of a number holds no colon, so the first colon of
    [`${n}:${rest}`] is the separator. *)
Lemma indexOf_uint (d : Decimal.uint) (r : string) :
  indexOf ":" (NilEmpty.string_of_uint d ++ String ":" r) =
  Z.of_nat (String.length (NilEmpty.string_of_uint d)).
Proof.
  induction d; simpl String.length; simpl append;
    [reflexivity | simpl indexOf; rewrite IHd;
                   destruct (Z.ltb_spec (Z.of_nat (String.length (NilEmpty.string_of_uint d))) 0);
                   lia ..].
Qed.

Lemma indexOf_number (z : Z) (r : string) :
  indexOf ":" (numberToString z ++ String ":" r) =
  Z.of_nat (String.length (numberToString z)).
Proof.
  destruct z as [| p | p]; [reflexivity | |]; unfold numberToString; simpl Z.to_int;
    simpl NilZero.string_of_int;
    rewrite nilzero_string_of_uint by apply DecimalPos.Unsigned.to_uint_nonnil.
  - apply indexOf_uint.
  - simpl append. simpl indexOf. rewrite indexOf_uint. simpl String.length.
    destruct (Z.ltb_spec (Z.of_nat (String.length
                (NilEmpty.string_of_uint (Pos.to_uint p)))) 0); lia.
Qed.

Lemma dropChars_after (s r : string) (c : ascii) :
  dropChars (S (String.length s)) (s ++ String c r) = r.
Proof.
  induction s as [| a s IH]; [reflexivity |].
  change (dropChars (S (String.length s)) (s ++ String c r) = r). exact IH.
Qed.

Lemma substringFrom_after_colon (s r : string) :
  substringFrom (Z.of_nat (String.length s) + 1) (s ++ String ":" r) = r.
Proof.
  unfold substringFrom.
  replace (Z.to_nat (Z.max 0 (Z.of_nat (String.length s) + 1)))
    with (S (String.length s)) by lia.
  apply dropChars_after.
Qed.

End JsFacts.

(** ** Doubles *)

Section NumberFacts.

Import Js.













(** A positive number is greater than 0, differs from 0 and is not NaN. *)
Lemma isPositive_spec (x : number) :
  isPositive x = true ->
  gt x zero = true /\ strictEquals x zero = false /\ isNaN x = false /\ falsy x = false /\
  le x zero = false.
Proof. destruct x as [| [] | | [] m e]; cbn; intros H; try discriminate; auto. Qed.

(** [!a || a <= 0] fails exactly when [0 < a]. *)
Lemma unlimited_lt (a : number) :
  falsy a || le a zero = negb (lt zero a).
Proof. destruct a as [[] | [] | | [] m e]; reflexivity. Qed.

End NumberFacts.

Section MulOne.

Import Js.

Lemma digits2_pos_shift (m : positive) :
  Zpos (digits2_pos (4503599627370496 * m)) = Zpos (digits2_pos m) + 52.
Proof.
  cbv [Pos.mul]. cbn [digits2_pos]. rewrite !Pos2Z.inj_succ. lia.
Qed.

Lemma shr_shift (m : positive) :
  SpecFloat.iter_pos shr_1 52
    {| shr_m := Zpos (4503599627370496 * m); shr_r := false; shr_s := false |} =
  {| shr_m := Zpos m; shr_r := false; shr_s := false |}.
Proof. reflexivity. Qed.

(** Multiplying a number by 1 gives the number. *)
Lemma mul_one (x : number) : wellFormed x = true -> mul x one = x.
Proof.
  destruct x as [[] | [] | | s m e]; try reflexivity.
  unfold wellFormed. cbn [valid_binary]. unfold bounded, canonical_mantissa. intros H.
  apply andb_prop in H as [Hc Hb]. apply Z.eqb_eq in Hc.
  unfold mul, one, SFmul.
  replace (xorb s false) with s by (destruct s; reflexivity).
  rewrite (Pos.mul_comm m).
  unfold binary_round_aux, shr_fexp. cbn [Zdigits2].
  rewrite digits2_pos_shift.
  replace (Z.pos (digits2_pos m) + 52 + (e + -52)) with (Z.pos (digits2_pos m) + e) by lia.
  rewrite Hc.
  replace (e - (e + -52)) with 52 by lia.
  cbn [shr shr_record_of_loc]. rewrite shr_shift.
  cbn [shr_m loc_of_shr_record round_nearest_even Zdigits2 shr_record_of_loc].
  replace (e + -52 + 52) with e by lia.
  rewrite Hc, Z.sub_diag. cbn [shr shr_m]. rewrite Hb. reflexivity.
Qed.

End MulOne.

(** ** The sorted-set store *)

Section ZSetFacts.

Import InMemoryZSet.

Lemma sortInsert_Permutation {A} (key : A -> Z) (x : A) (l : list A) :
  Permutation (Js.sortInsert key x l) (x :: l).
Proof.
  induction l as [| y r IH]; simpl; [reflexivity |].
  destruct (key x <=? key y); [reflexivity |].
  rewrite IH. apply perm_swap.
Qed.

Lemma sortBy_Permutation {A} (key : A -> Z) (l : list A) :
  Permutation (Js.sortBy key l) l.
Proof.
  induction l as [| x r IH]; simpl; [reflexivity |].
  rewrite sortInsert_Permutation, IH. reflexivity.
Qed.

(** A list already in ascending order of [key] is left as it is. *)
Lemma sortBy_of_sorted {A} (key : A -> Z) (l : list A) :
  StronglySorted Z.le (map key l) -> Js.sortBy key l = l.
Proof.
  induction l as [| x r IH]; [reflexivity |]. intros Hs.
  apply StronglySorted_inv in Hs as [Hr Hx].
  change (Js.sortBy key (x :: r)) with (Js.sortInsert key x (Js.sortBy key r)).
  rewrite (IH Hr). destruct r as [| y r']; [reflexivity |].
  cbn [Js.sortInsert]. apply Forall_inv in Hx.
  destruct (Z.leb_spec (key x) (key y)); [reflexivity | lia].
Qed.

Lemma foldl_map {A B C} (f : A -> C -> A) (g : B -> C) (l : list B) (a : A) :
  foldl f a (map g l) = foldl (fun acc x => f acc (g x)) a l.
Proof. revert a. induction l as [| x r IH]; intros a; [reflexivity | apply IH]. Qed.

Lemma slice_all {A} (l : list A) :
  Js.slice 0 (Z.min (Z.of_nat (length l) + -1 + 1) (Z.of_nat (length l))) l = l.
Proof.
  unfold Js.slice.
  replace (Z.min (Z.of_nat (length l) + -1 + 1) (Z.of_nat (length l)))
    with (Z.of_nat (length l)) by lia.
  change (0 <? 0) with false. cbv iota.
  destruct (Z.ltb_spec (Z.of_nat (length l)) 0) as [Hlt | _]; [lia |].
  rewrite Z.min_id.
  replace (Z.min 0 (Z.of_nat (length l))) with 0 by lia.
  rewrite Z.sub_0_r, Nat2Z.id. simpl drop. apply firstn_all.
Qed.

(** [zrange(key, 0, -1)] lists every member, by ascending score. *)
Lemma zrange_all (key : string) (st : InMemoryStore.t) :
  InMemoryStore.zrange key 0 (-1) st = map fst (Js.sortBy snd (zsetOf key st)).
Proof.
  unfold InMemoryStore.zrange, zrange, zsetOf.
  destruct (InMemoryStore.zsetStore st !! key) as [[| e zs] |]; try reflexivity.
  cbv zeta. change (0 <? 0) with false. change (-1 <? 0) with true. cbv iota.
  rewrite slice_all. reflexivity.
Qed.

Lemma zsetOf_zremrangebyscore (key : string) (m : Z) (st : InMemoryStore.t) :
  zsetOf key (InMemoryStore.zremrangebyscore key NegInf (Num m) st).2 =
  List.filter (fun e => m <? e.2) (zsetOf key st).
Proof.
  unfold InMemoryStore.zremrangebyscore, zremrangebyscore, zsetOf.
  assert (Hf : forall zs : list (string * Z),
             List.filter (fun e => negb (inRange NegInf (Num m) e)) zs =
             List.filter (fun e => m <? e.2) zs).
  { intros zs. apply List.filter_ext. intros [a s]. unfold inRange. simpl.
    destruct (Z.leb_spec s m), (Z.ltb_spec m s); simpl; try reflexivity; lia. }
  destruct (InMemoryStore.zsetStore st !! key) as [[| e zs] |] eqn:Hk;
    cbn [snd InMemoryStore.zsetStore InMemoryStore.withZ];
    try (rewrite Hk; reflexivity).
  rewrite Hf. change (default [] (Some (e :: zs))) with (e :: zs).
  destruct (List.filter (fun e => m <? e.2) (e :: zs)) as [| e' kept];
    cbn [snd InMemoryStore.zsetStore InMemoryStore.withZ].
  - rewrite lookup_delete_eq. reflexivity.
  - rewrite lookup_insert_eq. reflexivity.
Qed.

Lemma zsetOf_zadd (key member : string) (score : Z) (st : InMemoryStore.t) :
  zsetOf key (InMemoryStore.zadd key score member st).2 =
  mapSet member score (zsetOf key st).
Proof.
  unfold InMemoryStore.zadd, zadd, zsetOf. simpl. rewrite lookup_insert_eq. reflexivity.
Qed.

Lemma mapSet_fresh (member : string) (score : Z) (zs : list (string * Z)) :
  mapGet member zs = None -> mapSet member score zs = zs ++ [(member, score)].
Proof.
  induction zs as [| [m s] r IH]; simpl; [reflexivity |].
  destruct (String.eqb m member); [discriminate |].
  intros H. rewrite IH by exact H. reflexivity.
Qed.

Lemma mapGet_None (member : string) (zs : list (string * Z)) :
  (forall e, In e zs -> e.1 <> member) -> mapGet member zs = None.
Proof.
  induction zs as [| [m s] r IH]; simpl; [reflexivity |]. intros H.
  destruct (String.eqb_spec m member) as [-> | _].
  - exfalso. apply (H (member, s)); [left |]; reflexivity.
  - apply IH. intros e He. apply H. right. exact He.
Qed.

Lemma zcard_length (key : string) (st : InMemoryStore.t) :
  InMemoryStore.zcard key st = Z.of_nat (length (zsetOf key st)).
Proof.
  unfold InMemoryStore.zcard, zcard, zsetOf.
  destruct (InMemoryStore.zsetStore st !! key); reflexivity.
Qed.

Lemma zscore_mapGet (key member : string) (st : InMemoryStore.t) :
  InMemoryStore.zscore key member st = mapGet member (zsetOf key st).
Proof.
  unfold InMemoryStore.zscore, zscore, zsetOf.
  destruct (InMemoryStore.zsetStore st !! key); reflexivity.
Qed.

Lemma filter_filter_le (m m' : Z) (zs : list (string * Z)) :
  m <= m' ->
  List.filter (fun e => m' <? e.2) (List.filter (fun e => m <? e.2) zs) =
  List.filter (fun e => m' <? e.2) zs.
Proof.
  intros Hle. induction zs as [| [a s] r IH]; simpl; [reflexivity |].
  destruct (Z.ltb_spec m s), (Z.ltb_spec m' s); simpl;
    try (destruct (Z.ltb_spec m' s)); try lia; rewrite ?IH; reflexivity.
Qed.

End ZSetFacts.

(** ** Rolling windows *)

Section RollingWindowFacts.

Import InMemoryZSet RollingWindow.

(** The cost read back from a member is the cost as [parseFloat] reads its
    text, NaN counting for 0. *)
Lemma parseCostFromMember_member (t : Z) (c : Js.number) :
  parseCostFromMember (member t c) = readBack c.
Proof.
  unfold parseCostFromMember, member.
  change (":" ++ Js.toString c)%string with (String ":" (Js.toString c)).
  rewrite indexOf_number, substringFrom_after_colon.
  destruct (Z.eqb_spec (Z.of_nat (String.length (Js.numberToString t))) (-1)); [lia |].
  reflexivity.
Qed.


Lemma member_time_inj (t t' : Z) (c c' : Js.number) : member t c = member t' c' -> t = t'.
Proof.
  intros H.
  assert (Hp : forall t c, Js.parseInt (member t c) = Some t).
  { intros a b. unfold member. apply parseInt_number_suffix. reflexivity. }
  pose proof (Hp t c) as H1. rewrite H, Hp in H1. congruence.
Qed.

Lemma filter_entries (thr : Z) (evs : list (Z * Js.number)) :
  List.filter (fun p : string * Z => thr <? p.2) (map entryOf evs) =
  map entryOf (List.filter (fun e : Z * Js.number => thr <? e.1) evs).
Proof.
  induction evs as [| e r IH]; simpl; [reflexivity |].
  destruct (thr <? e.1); simpl; rewrite IH; reflexivity.
Qed.

Lemma filter_events_le (m m' : Z) (evs : list (Z * Js.number)) :
  m <= m' ->
  List.filter (fun e : Z * Js.number => m' <? e.1)
    (List.filter (fun e : Z * Js.number => m <? e.1) evs) =
  List.filter (fun e : Z * Js.number => m' <? e.1) evs.
Proof.
  intros Hle. induction evs as [| [t c] r IH]; simpl; [reflexivity |].
  destruct (Z.ltb_spec m t), (Z.ltb_spec m' t); simpl;
    try (destruct (Z.ltb_spec m' t)); try lia; rewrite ?IH; reflexivity.
Qed.

Lemma track_zsetOf (key : string) (c : Js.number) (t w : Z) (st : InMemoryStore.t) :
  zsetOf key (trackCost5hRollingWindow key c t w st).2 =
  mapSet (member t c) t (List.filter (fun e => t - w <? e.2) (zsetOf key st)).
Proof.
  unfold trackCost5hRollingWindow. cbn [snd].
  rewrite zsetOf_zadd, zsetOf_zremrangebyscore. reflexivity.
Qed.

(** The total of the set stored under [key]: the costs of its members,
    added in ascending order of score. *)
Lemma calculateTotalCost_sum (key : string) (st : InMemoryStore.t) :
  calculateTotalCost key st =
  sumOf (map (fun e => parseCostFromMember e.1) (Js.sortBy snd (zsetOf key st))).
Proof.
  unfold calculateTotalCost, sumOf. rewrite zrange_all, !foldl_map. reflexivity.
Qed.

(** What a window read returns, in terms of the stored set. *)
Lemma get_total (key : string) (now w : Z) (st : InMemoryStore.t) :
  (getCost5hRollingWindow key now w st).1 =
  Js.toString
    (sumOf (map (fun e => parseCostFromMember e.1)
               (Js.sortBy snd (List.filter (fun e => now - w <? e.2) (zsetOf key st))))).
Proof.
  unfold getCost5hRollingWindow. cbn [fst].
  rewrite calculateTotalCost_sum, zsetOf_zremrangebyscore. reflexivity.
Qed.

Lemma get_zsetOf (key : string) (now w : Z) (st : InMemoryStore.t) :
  zsetOf key (getCost5hRollingWindow key now w st).2 =
  List.filter (fun e => now - w <? e.2) (zsetOf key st).
Proof. unfold getCost5hRollingWindow. cbn [snd]. apply zsetOf_zremrangebyscore. Qed.

Lemma trackAll_snoc (key : string) (w : Z) (evs : list (Z * Js.number))
  (e : Z * Js.number) (st : InMemoryStore.t) :
  trackAll key w (evs ++ [e]) st =
  (trackCost5hRollingWindow key e.2 e.1 w (trackAll key w evs st)).2.
Proof. unfold trackAll. rewrite foldl_app. reflexivity. Qed.

(** The set kept under [key] after a run of tracks, seen through any
    threshold that is at least the thresholds already applied. *)
Lemma trackAll_entries (key : string) (w : Z) (st : InMemoryStore.t)
  (events : list (Z * Js.number)) :
  InMemoryStore.zsetStore st !! key = None ->
  StronglySorted Z.lt (map fst events) ->
  forall thr, (forall e, In e events -> e.1 - w <= thr) ->
  List.filter (fun p => thr <? p.2) (zsetOf key (trackAll key w events st)) =
  map entryOf (List.filter (fun e => thr <? e.1) events).
Proof.
  intros Hnone. induction events as [| e evs IH] using rev_ind; intros Hs thr Hthr.
  - unfold trackAll, zsetOf. simpl. rewrite Hnone. reflexivity.
  - rewrite map_app in Hs. simpl in Hs.
    assert (Hlt : forall x, In x evs -> x.1 < e.1).
    { intros x Hx. eapply StronglySorted_app_1_elem_of; [exact Hs | |].
      - apply list_elem_of_In, in_map, Hx.
      - apply list_elem_of_In. left. reflexivity. }
    apply StronglySorted_app_1_l in Hs.
    rewrite trackAll_snoc, track_zsetOf.
    rewrite (IH Hs (e.1 - w)) by (intros x Hx; specialize (Hlt x Hx); lia).
    rewrite mapSet_fresh.
    + rewrite List.filter_app, filter_entries, filter_events_le.
      * rewrite List.filter_app. rewrite map_app. f_equal.
        simpl. destruct (thr <? e.1); reflexivity.
      * apply Hthr, in_or_app. right. left. reflexivity.
    + apply mapGet_None. intros p Hp Heq.
      apply in_map_iff in Hp as (x & <- & Hx).
      apply List.filter_In in Hx as [Hx _].
      apply member_time_inj in Heq. specialize (Hlt x Hx). simpl in Heq. lia.
Qed.

(** Events in ascending order of time give entries in ascending order of
    score, whatever events are left out. *)
Lemma entries_sorted (p : Z * Js.number -> bool) (events : list (Z * Js.number)) :
  StronglySorted Z.lt (map fst events) ->
  StronglySorted Z.le (map snd (map entryOf (List.filter p events))).
Proof.
  induction events as [| e r IH]; [constructor |]. intros Hs.
  apply StronglySorted_inv in Hs as [Hr He]. cbn [List.filter].
  destruct (p e); [| exact (IH Hr)].
  cbn [map]. constructor; [exact (IH Hr) |].
  apply List.Forall_forall. intros t Ht.
  apply in_map_iff in Ht as (entry & <- & Hentry).
  apply in_map_iff in Hentry as (x & <- & Hx).
  apply List.filter_In in Hx as [Hx _].
  rewrite List.Forall_forall in He. specialize (He x.1 (in_map fst r x Hx)).
  unfold entryOf. cbn [snd fst]. lia.
Qed.

End RollingWindowFacts.

(** C1 (amended).  Cost events are recorded with [trackCost5hRollingWindow]
    at strictly increasing times, none later than [now], under a key that
    held no sorted set before.  A following [getCost5hRollingWindow] at [now]
    with the window of 18,000,000 ms returns the text of the sum of the
    costs of exactly the events with [now - 18,000,000 < t <= now], each read
    back from its member and added in order of time as doubles; when the
    costs are numbers that their text gives back, this is the sum of the
    costs themselves.  The lower end of the window is open: an event at
    [now - 18,000,000] is left out, as is one at [now - 18,000,001]. *)
Theorem C1_window_sum (key : string) (events : list (Z * Js.number)) (now : Z)
  (st : InMemoryStore.t) :
  InMemoryStore.zsetStore st !! key = None ->
  StronglySorted Z.lt (map fst events) ->
  (forall e, In e events -> e.1 <= now) ->
  let inWindow :=
    List.filter (fun e => now - RollingWindow.window5h <? e.1) events in
  let read :=
    (RollingWindow.getCost5hRollingWindow key now RollingWindow.window5h
       (trackAll key RollingWindow.window5h events st)).1 in
  read = Js.toString (sumOf (map (fun e => readBack e.2) inWindow)) /\
  ((forall e, In e events -> printable e.2) ->
   read = Js.toString (sumOf (map snd inWindow))).
Proof.
  intros Hnone Hsorted Hnow inWindow read.
  assert (Hread : read = Js.toString (sumOf (map (fun e => readBack e.2) inWindow))).
  { subst read inWindow.
    rewrite get_total, (trackAll_entries key _ st events Hnone Hsorted)
      by (intros e He; specialize (Hnow e He); lia).
    rewrite sortBy_of_sorted by (apply entries_sorted; exact Hsorted).
    rewrite map_map. f_equal. f_equal. apply map_ext. intros [t c].
    apply parseCostFromMember_member. }
  split; [exact Hread |].
  intros Hprint. rewrite Hread. f_equal. f_equal. apply map_ext_in. intros [t c] Hin.
  subst inWindow. apply List.filter_In in Hin as [Hin _].
  destruct (Hprint (t, c) Hin) as [Hnan Hback]. cbn [snd] in *.
  unfold readBack. rewrite Hback, Hnan. reflexivity.
Qed.

Lemma C1_window_sum_witness :
  let events := [(0, num "5"); (10, num "0.1"); (20, num "0.2")] in
  let now := 18000005 in
  InMemoryStore.zsetStore InMemoryStore.empty !! "key:1:cost_5h_rolling"%string = None /\
  StronglySorted Z.lt (map fst events) /\
  (forall e, In e events -> e.1 <= now) /\
  (forall e, In e events -> printable e.2) /\
  (RollingWindow.getCost5hRollingWindow "key:1:cost_5h_rolling" now RollingWindow.window5h
     (trackAll "key:1:cost_5h_rolling" RollingWindow.window5h events
        InMemoryStore.empty)).1 = "0.30000000000000004"%string.
Proof.
  intros events now.
  assert (H1 : InMemoryStore.zsetStore InMemoryStore.empty
               !! "key:1:cost_5h_rolling"%string = None) by reflexivity.
  assert (H2 : StronglySorted Z.lt (map fst events)).
  { repeat constructor; lia. }
  assert (H3 : forall e, In e events -> e.1 <= now).
  { intros e [<- | [<- | [<- | []]]]; unfold now; simpl; lia. }
  assert (H4 : forall e, In e events -> printable e.2).
  { intros e [<- | [<- | [<- | []]]]; split; vm_compute; reflexivity. }
  split; [exact H1 | split; [exact H2 | split; [exact H3 | split; [exact H4 |]]]].
  rewrite (proj2 (C1_window_sum _ events now _ H1 H2 H3) H4). vm_compute. reflexivity.
Defined.

(** The claim as worded, with the closed window [now - 18,000,000 <= t <= now],
    fails for a single event recorded exactly 18,000,000 ms before the read:
    the read returns "0", not the cost of the event. *)
Lemma C1_closed_window_counterexample :
  let events := [(0, num "2.5")] in
  let now := 18000000 in
  InMemoryStore.zsetStore InMemoryStore.empty !! "key:1:cost_5h_rolling"%string = None /\
  StronglySorted Z.lt (map fst events) /\
  (forall e, In e events -> e.1 <= now) /\
  (forall e, In e events -> printable e.2) /\
  (RollingWindow.getCost5hRollingWindow "key:1:cost_5h_rolling" now RollingWindow.window5h
     (trackAll "key:1:cost_5h_rolling" RollingWindow.window5h events
        InMemoryStore.empty)).1 = "0"%string /\
  Js.toString
    (sumOf (map snd (List.filter
                       (fun e => (now - RollingWindow.window5h <=? e.1) && (e.1 <=? now))
                       events))) = "2.5"%string.
Proof.
  intros events now.
  split; [reflexivity | split; [repeat constructor | split; [| split; [| split]]]].
  - intros e [<- | []]. unfold now. simpl. lia.
  - intros e [<- | []]. split; vm_compute; reflexivity.
  - vm_compute. reflexivity.
  - vm_compute. reflexivity.
Qed.

(** C9.  A window read is idempotent: repeating [getCost5hRollingWindow]
    (or [getCostDailyRollingWindow]) with the same [now] and [windowMs] on the
    store left by the first read returns the same total. *)
Theorem C9_get_idempotent (key : string) (now windowMs : Z) (st : InMemoryStore.t) :
  (RollingWindow.getCost5hRollingWindow key now windowMs
     (RollingWindow.getCost5hRollingWindow key now windowMs st).2).1 =
  (RollingWindow.getCost5hRollingWindow key now windowMs st).1 /\
  (RollingWindow.getCostDailyRollingWindow key now windowMs
     (RollingWindow.getCostDailyRollingWindow key now windowMs st).2).1 =
  (RollingWindow.getCostDailyRollingWindow key now windowMs st).1.
Proof.
  assert (H : (RollingWindow.getCost5hRollingWindow key now windowMs
                 (RollingWindow.getCost5hRollingWindow key now windowMs st).2).1 =
              (RollingWindow.getCost5hRollingWindow key now windowMs st).1).
  { rewrite !get_total, get_zsetOf, filter_filter_le by lia. reflexivity. }
  split; [exact H | exact H].
Qed.

(** ** Atomic admission of provider sessions *)

Section AdmissionFacts.

Import InMemoryZSet RateLimitService SessionScript.

Lemma filter_all_kept (m : Z) (zs : list (string * Z)) :
  (forall e, In e zs -> m < e.2) -> List.filter (fun e => m <? e.2) zs = zs.
Proof.
  induction zs as [| e r IH]; simpl; intros H; [reflexivity |].
  destruct (Z.ltb_spec m e.2) as [_ | Hge].
  - rewrite IH; [reflexivity | intros x Hx; apply H; right; exact Hx].
  - specialize (H e (or_introl eq_refl)). lia.
Qed.

Lemma zremrangebyscore_ready (key : string) (lo hi : bound) (st : InMemoryStore.t) :
  InMemoryStore.isReady (InMemoryStore.zremrangebyscore key lo hi st).2 =
  InMemoryStore.isReady st.
Proof.
  unfold InMemoryStore.zremrangebyscore.
  destruct (zremrangebyscore key lo hi (InMemoryStore.zsetStore st)). reflexivity.
Qed.

Lemma zadd_ready (key member : string) (score : Z) (st : InMemoryStore.t) :
  InMemoryStore.isReady (InMemoryStore.zadd key score member st).2 =
  InMemoryStore.isReady st.
Proof. reflexivity. Qed.

Lemma checkAndTrackSession_ready (key id : string) (limit now : Z) (st : InMemoryStore.t) :
  InMemoryStore.isReady (checkAndTrackSession key id limit now st).2 =
  InMemoryStore.isReady st.
Proof.
  unfold checkAndTrackSession. cbv zeta.
  repeat match goal with |- context [if ?b then _ else _] => destruct b end;
    cbn [snd]; rewrite ?zadd_ready, zremrangebyscore_ready; reflexivity.
Qed.

(** A fresh session below the limit is tracked. *)
Lemma checkAndTrackSession_admit (key id : string) (limit now : Z)
  (st : InMemoryStore.t) (done : list (string * Z)) :
  zsetOf key st = done ->
  Z.of_nat (length done) < limit ->
  mapGet id done = None ->
  (forall d, In d done -> now - 300000 < d.2) ->
  checkAndTrackSession key id limit now st =
    ({| allowed := true; currentCount := Z.of_nat (length done) + 1; tracked := true |},
     (InMemoryStore.zadd key now id
        (InMemoryStore.zremrangebyscore key NegInf (Num (now - 300000)) st).2).2) /\
  zsetOf key (checkAndTrackSession key id limit now st).2 = done ++ [(id, now)].
Proof.
  intros Hz Hlen Hfresh Hwin.
  assert (Hz1 : zsetOf key (InMemoryStore.zremrangebyscore key NegInf
                              (Num (now - 300000)) st).2 = done).
  { rewrite zsetOf_zremrangebyscore, Hz. apply filter_all_kept, Hwin. }
  assert (Heq : checkAndTrackSession key id limit now st =
    ({| allowed := true; currentCount := Z.of_nat (length done) + 1; tracked := true |},
     (InMemoryStore.zadd key now id
        (InMemoryStore.zremrangebyscore key NegInf (Num (now - 300000)) st).2).2)).
  { unfold checkAndTrackSession. cbv zeta.
    rewrite zscore_mapGet, zcard_length, Hz1, Hfresh.
    destruct (Z.leb_spec limit (Z.of_nat (length done))); [lia |].
    rewrite andb_false_r. reflexivity. }
  split; [exact Heq |].
  rewrite Heq. cbn [snd]. rewrite zsetOf_zadd, Hz1. apply mapSet_fresh, Hfresh.
Qed.

(** A fresh session at the limit is turned away and the set is unchanged. *)
Lemma checkAndTrackSession_reject (key id : string) (limit now : Z)
  (st : InMemoryStore.t) (done : list (string * Z)) :
  zsetOf key st = done ->
  0 < limit -> limit <= Z.of_nat (length done) ->
  mapGet id done = None ->
  (forall d, In d done -> now - 300000 < d.2) ->
  allowed (checkAndTrackSession key id limit now st).1 = false /\
  zsetOf key (checkAndTrackSession key id limit now st).2 = done.
Proof.
  intros Hz Hpos Hlen Hfresh Hwin.
  assert (Hz1 : zsetOf key (InMemoryStore.zremrangebyscore key NegInf
                              (Num (now - 300000)) st).2 = done).
  { rewrite zsetOf_zremrangebyscore, Hz. apply filter_all_kept, Hwin. }
  unfold checkAndTrackSession. cbv zeta.
  rewrite zscore_mapGet, zcard_length, Hz1, Hfresh.
  destruct (Z.leb_spec limit (Z.of_nat (length done))); [| lia].
  destruct (Z.ltb_spec 0 limit); [| lia].
  cbn [andb negb fst snd allowed]. split; [reflexivity | exact Hz1].
Qed.

Lemma serving_sessions (providerId : Z) (done : list (string * Z)) (w : World) :
  serving providerId done w -> providerSessions providerId w = done.
Proof. intros (st & Hc & _ & Hz). unfold providerSessions. rewrite Hc. exact Hz. Qed.

Lemma service_admit (providerId limit now : Z) (id : string)
  (done : list (string * Z)) (w : World) :
  serving providerId done w ->
  Z.of_nat (length done) < limit ->
  mapGet id done = None ->
  (forall d, In d done -> now - 300000 < d.2) ->
  let rw := checkAndTrackProviderSession providerId id limit now w in
  admitted rw = true /\ rejected rw = false /\
  serving providerId (done ++ [(id, now)]) rw.2.
Proof.
  intros (st & Hc & Hr & Hz) Hlen Hfresh Hwin rw. subst rw.
  destruct (checkAndTrackSession_admit _ id limit now st done Hz Hlen Hfresh Hwin)
    as [Heq Hz'].
  pose proof (checkAndTrackSession_ready (SessionTracker.providerKey providerId)
                id limit now st) as Hr'.
  unfold checkAndTrackProviderSession.
  destruct (Z.leb_spec limit 0); [lia |].
  rewrite Hc, Hr. cbn [negb].
  change ("provider:" ++ Js.numberToString providerId ++ ":active_sessions")%string
    with (SessionTracker.providerKey providerId).
  destruct (checkAndTrackSession (SessionTracker.providerKey providerId) id limit now st)
    as [r st'] eqn:Hrun.
  injection Heq as Hres _. subst r. cbn [allowed negb tracked fst snd] in *.
  repeat split.
  exists st'. cbn [client withClient]. rewrite Hr' in *. auto.
Qed.

Lemma service_reject (providerId limit now : Z) (id : string)
  (done : list (string * Z)) (w : World) :
  serving providerId done w ->
  0 < limit -> limit <= Z.of_nat (length done) ->
  mapGet id done = None ->
  (forall d, In d done -> now - 300000 < d.2) ->
  let rw := checkAndTrackProviderSession providerId id limit now w in
  admitted rw = false /\ rejected rw = true /\ serving providerId done rw.2.
Proof.
  intros (st & Hc & Hr & Hz) Hpos Hlen Hfresh Hwin rw. subst rw.
  destruct (checkAndTrackSession_reject _ id limit now st done Hz Hpos Hlen Hfresh Hwin)
    as [Hno Hz'].
  pose proof (checkAndTrackSession_ready (SessionTracker.providerKey providerId)
                id limit now st) as Hr'.
  unfold checkAndTrackProviderSession.
  destruct (Z.leb_spec limit 0); [lia |].
  rewrite Hc, Hr. cbn [negb].
  change ("provider:" ++ Js.numberToString providerId ++ ":active_sessions")%string
    with (SessionTracker.providerKey providerId).
  destruct (checkAndTrackSession (SessionTracker.providerKey providerId) id limit now st)
    as [r st'] eqn:Hrun.
  cbn [fst snd] in *. rewrite Hno. cbn [negb].
  repeat split.
  exists st'. cbn [client withClient snd]. rewrite Hr' in *. auto.
Qed.

Lemma admitAll_app (providerId limit : Z) (l1 l2 : list (string * Z)) (w : World) :
  admitAll providerId limit (l1 ++ l2) w =
  admitAll providerId limit l1 w ++
  admitAll providerId limit l2 (finalWorld providerId limit l1 w).
Proof.
  revert w. induction l1 as [| c r IH]; intros w; simpl; [reflexivity |].
  rewrite IH. reflexivity.
Qed.

(** While the limit is not reached every fresh session is admitted, and the
    set grows by exactly the admitted sessions. *)
Lemma admission_phase (providerId limit : Z) (calls done : list (string * Z)) (w : World) :
  serving providerId done w ->
  Z.of_nat (length done + length calls) <= limit ->
  NoDup (map fst (done ++ calls)) ->
  (forall a b, In a (done ++ calls) -> In b (done ++ calls) -> b.2 - a.2 < 300000) ->
  Forall (fun rw => admitted rw = true /\ rejected rw = false /\
                    Z.of_nat (length (providerSessions providerId rw.2)) <= limit)
         (admitAll providerId limit calls w) /\
  serving providerId (done ++ calls) (finalWorld providerId limit calls w).
Proof.
  revert done w. induction calls as [| c rest IH]; intros done w Hs Hlen Hnd Hwin.
  - simpl. rewrite app_nil_r. split; [constructor | exact Hs].
  - assert (Hfresh : mapGet c.1 done = None).
    { apply mapGet_None. intros e He Heq.
      rewrite map_app in Hnd. simpl in Hnd.
      apply NoDup_app in Hnd as (_ & Hdis & _).
      apply (Hdis e.1).
      - apply list_elem_of_In, in_map, He.
      - rewrite Heq. left. }
    assert (Hw : forall d, In d done -> c.2 - 300000 < d.2).
    { intros d Hd.
      assert (H : c.2 - d.2 < 300000); [| lia].
      apply Hwin; apply in_or_app; [left; exact Hd | right; left; reflexivity]. }
    rewrite length_cons in Hlen.
    destruct (service_admit providerId limit c.2 c.1 done w Hs ltac:(lia) Hfresh Hw)
      as (Ha & Hr & Hs').
    replace (c.1, c.2) with c in Hs' by (destruct c; reflexivity).
    specialize (IH (done ++ [c]) _ Hs').
    rewrite <- app_assoc in IH. simpl in IH.
    destruct IH as [IHf IHs]; [rewrite length_app; simpl; lia | exact Hnd | exact Hwin |].
    split; [| exact IHs].
    simpl. constructor; [| exact IHf].
    repeat split; [exact Ha | exact Hr |].
    rewrite (serving_sessions _ _ _ Hs'), length_app. simpl. lia.
Qed.

End AdmissionFacts.

(** C2.  With a limit [N > 0], [N + 1] calls of [checkAndTrackProviderSession]
    carrying pairwise distinct session ids, all issued within the 5-minute
    liveness window, served in any order on a provider whose session set is
    empty: exactly [N] calls return allowed with tracked, exactly one returns
    not allowed, and after every call the provider's sorted set holds at most
    [N] members. *)
Theorem C2_atomic_admission (providerId N : Z) (calls : list (string * Z))
  (w : RateLimitService.World) (st : InMemoryStore.t) :
  0 < N ->
  Z.of_nat (length calls) = N + 1 ->
  NoDup (map fst calls) ->
  (forall a b, In a calls -> In b calls -> b.2 - a.2 < 300000) ->
  RateLimitService.client w = Some st ->
  InMemoryStore.isReady st = true ->
  zsetOf (SessionTracker.providerKey providerId) st = [] ->
  let run := admitAll providerId N calls w in
  Z.of_nat (length (List.filter admitted run)) = N /\
  Z.of_nat (length (List.filter rejected run)) = 1 /\
  Forall (fun rw => Z.of_nat (length (providerSessions providerId rw.2)) <= N) run.
Proof.
  intros HN Hlen Hnd Hwin Hc Hr Hz run. subst run.
  destruct calls as [| c0 calls0] using rev_ind; [simpl in Hlen; lia |].
  clear IHcalls0. rename calls0 into init, c0 into final.
  rewrite length_app in Hlen. simpl in Hlen.
  assert (Hs : serving providerId [] w) by (exists st; auto).
  destruct (admission_phase providerId N init [] w Hs) as [Hall Hs'].
  { simpl. lia. }
  { simpl. rewrite map_app in Hnd. apply NoDup_app in Hnd as (H & _). exact H. }
  { simpl. intros a b Ha Hb. apply Hwin; apply in_or_app; left; assumption. }
  simpl in Hs'.
  assert (Hfresh : InMemoryZSet.mapGet final.1 init = None).
  { apply mapGet_None. intros e He Heq.
    rewrite map_app in Hnd. simpl in Hnd.
    apply NoDup_app in Hnd as (_ & Hdis & _).
    apply (Hdis e.1).
    - apply list_elem_of_In, in_map, He.
    - rewrite Heq. left. }
  assert (Hw : forall d, In d init -> final.2 - 300000 < d.2).
  { intros d Hd.
    assert (H : final.2 - d.2 < 300000); [| lia].
    apply Hwin; apply in_or_app; [left; exact Hd | right; left; reflexivity]. }
  destruct (service_reject providerId N final.2 final.1 init _ Hs' HN ltac:(lia) Hfresh Hw)
    as (Hna & Hrej & Hs'').
  rewrite admitAll_app. simpl admitAll.
  set (phase := admitAll providerId N init w) in *.
  set (last := RateLimitService.checkAndTrackProviderSession providerId final.1 N final.2
                 (finalWorld providerId N init w)) in *.
  assert (Hcount : length phase = length init).
  { subst phase. clear. revert w. induction init as [| c r IH]; intros w; simpl;
      [reflexivity | rewrite IH; reflexivity]. }
  assert (Hfa : List.filter admitted phase = phase).
  { clear -Hall. induction Hall as [| rw l [Ha _] _ IH]; simpl; [reflexivity |].
    rewrite Ha, IH. reflexivity. }
  assert (Hfr : List.filter rejected phase = []).
  { clear -Hall. induction Hall as [| rw l (_ & Hr & _) _ IH]; simpl; [reflexivity |].
    rewrite Hr, IH. reflexivity. }
  rewrite !List.filter_app, Hfa, Hfr. simpl. rewrite Hna, Hrej.
  rewrite app_nil_r. simpl. split; [lia | split; [reflexivity |]].
  apply Forall_app. split.
  - eapply Forall_impl; [exact Hall |]. intros rw (_ & _ & H). exact H.
  - constructor; [| constructor].
    rewrite (serving_sessions _ _ _ Hs''). lia.
Qed.

Lemma C2_atomic_admission_witness :
  let calls := [("s1"%string, 0); ("s2"%string, 100); ("s3"%string, 50)] in
  let w := {| RateLimitService.client := Some InMemoryStore.empty;
              RateLimitService.dbQueries := [] |} in
  let run := admitAll 9 2 calls w in
  (0 < 2 /\ Z.of_nat (length calls) = 2 + 1 /\ NoDup (map fst calls) /\
   (forall a b, In a calls -> In b calls -> b.2 - a.2 < 300000)) /\
  Z.of_nat (length (List.filter admitted run)) = 2 /\
  Z.of_nat (length (List.filter rejected run)) = 1 /\
  Forall (fun rw => Z.of_nat (length (providerSessions 9 rw.2)) <= 2) run.
Proof.
  intros calls w run.
  assert (H1 : 0 < 2) by lia.
  assert (H2 : Z.of_nat (length calls) = 2 + 1) by reflexivity.
  assert (H3 : NoDup (map fst calls)) by (apply (bool_decide_unpack _); vm_compute; exact I).
  assert (H4 : forall a b, In a calls -> In b calls -> b.2 - a.2 < 300000).
  { intros a b Ha Hb. simpl in Ha, Hb.
    destruct Ha as [<- | [<- | [<- | []]]], Hb as [<- | [<- | [<- | []]]]; simpl; lia. }
  split; [auto |].
  exact (C2_atomic_admission 9 2 calls w InMemoryStore.empty H1 H2 H3 H4
           eq_refl eq_refl eq_refl).
Defined.

(** ** Expiry and the sorted sets *)

(** [expire] never reaches a sorted set, and on a key without a string entry
    it answers 0 and changes nothing; the sweep leaves the sorted sets alone
    as well. *)
Lemma expire_leaves_sorted_sets (key : string) (seconds now : Z) (st : InMemoryStore.t) :
  InMemoryStore.zsetStore (InMemoryStore.expire key seconds now st).2 =
    InMemoryStore.zsetStore st /\
  (InMemoryStore.mapStore st !! key = None ->
   InMemoryStore.expire key seconds now st = (0, st)) /\
  InMemoryStore.zsetStore (sweep now st) = InMemoryStore.zsetStore st.
Proof.
  unfold InMemoryStore.expire, InMemoryMap.expire, sweep.
  destruct st as [zs ms status]. cbn [InMemoryStore.mapStore InMemoryStore.zsetStore].
  split; [| split; [| reflexivity]].
  - destruct (ms !! key) as [e |]; [destruct (InMemoryMap.isExpired now e) |]; reflexivity.
  - intros ->. reflexivity.
Qed.

(** ** Behaviour when the store is unavailable *)

Section UnavailableFacts.

Import RateLimitService.

Context (env : Collaborators).

Lemma warmCache_unavailable (id : Z) (type : EntityType) (limit : CostLimit)
  (current : Js.number) (now : Z) (w : World) :
  unavailable w -> warmCache env id type limit current now w = w.
Proof.
  unfold unavailable, SessionTracker.usable, warmCache.
  destruct (client w) as [st |]; [| reflexivity].
  destruct (InMemoryStore.isReady st); [discriminate | reflexivity].
Qed.

Lemma durableVerdict_skip (id : Z) (type : EntityType) (limit : CostLimit)
  (rest : list CostLimit) (now : Z) (o : Outcome CheckResult) :
  (forall a, ~ capOf limit a) ->
  durableVerdict env id type rest now o ->
  durableVerdict env id type (limit :: rest) now o.
Proof.
  intros Hno. destruct o as [[[] why] |]; simpl.
  - intros H l a [<- | Hl] Hcap; [destruct (Hno a Hcap) | exact (H l a Hl Hcap)].
  - intros (l & a & c & Hl & H). exists l, a, c. auto.
  - intros (l & a & Hl & H). exists l, a. auto.
Qed.

Lemma durableVerdict_below (id : Z) (type : EntityType) (limit : CostLimit)
  (rest : list CostLimit) (now : Z) (a c : Js.number) (o : Outcome CheckResult) :
  amount limit = Some a ->
  durableTotal env id type limit now = Returned c -> Js.ge c a = false ->
  durableVerdict env id type rest now o ->
  durableVerdict env id type (limit :: rest) now o.
Proof.
  intros Ha Ht Hlt. destruct o as [[[] why] |]; simpl.
  - intros H l a' [<- | Hl] Hcap; [| exact (H l a' Hl Hcap)].
    destruct Hcap as [Ha' _]. exists c. split; [exact Ht | congruence].
  - intros (l & a' & c' & Hl & H). exists l, a', c'. auto.
  - intros (l & a' & Hl & H). exists l, a'. auto.
Qed.

(** With the store unavailable the durable store alone decides, and the
    cache is left as it is. *)
Lemma fromDatabase_unavailable (id : Z) (type : EntityType) (now : Z)
  (costLimits : list CostLimit) (w : World) :
  unavailable w ->
  unavailable (checkCostLimitsFromDatabase env id type costLimits now w).2 /\
  durableVerdict env id type costLimits now
    (checkCostLimitsFromDatabase env id type costLimits now w).1.
Proof.
  revert w. induction costLimits as [| limit rest IH]; intros w Hw.
  - simpl. split; [exact Hw |]. intros l a [].
  - cbn [checkCostLimitsFromDatabase].
    destruct (amount limit) as [a |] eqn:Ha.
    2:{ destruct (IH w Hw) as [H1 H2]. split; [exact H1 |].
        apply durableVerdict_skip; [| exact H2]. intros a [Hc _]. congruence. }
    rewrite unlimited_lt.
    destruct (Js.lt Js.zero a) eqn:Hpos; cbn [negb].
    2:{ destruct (IH w Hw) as [H1 H2]. split; [exact H1 |].
        apply durableVerdict_skip; [| exact H2]. intros a' [Hc Hp].
        rewrite Ha in Hc. injection Hc as <-. congruence. }
    pose proof (eq_refl : durableTotal env id type limit now = _) as Ht.
    unfold durableTotal in Ht at 2.
    destruct (getTimeRangeForPeriodWithMode env (period limit) (resetTime limit)
                (resetMode limit) now) as [startTime endTime].
    cbn [fst snd] in Ht.
    destruct type; cbn beta iota zeta in *.
    + destruct (sumKeyCostInTimeRange env id startTime endTime) as [current |].
      * rewrite warmCache_unavailable by exact Hw.
        unfold reaches. destruct (Js.ge current a) eqn:Hreach.
        -- split; [exact Hw |]. exists limit, a, current.
           repeat split; auto. left. reflexivity.
        -- destruct (IH (logQuery (KeyCostInTimeRange id startTime endTime) w) Hw)
             as [H1 H2].
           split; [exact H1 |]. eapply durableVerdict_below; eauto.
      * split; [exact Hw |]. exists limit, a. repeat split; auto. left. reflexivity.
    + destruct (sumProviderCostInTimeRange env id startTime endTime) as [current |].
      * rewrite warmCache_unavailable by exact Hw.
        unfold reaches. destruct (Js.ge current a) eqn:Hreach.
        -- split; [exact Hw |]. exists limit, a, current.
           repeat split; auto. left. reflexivity.
        -- destruct (IH (logQuery (ProviderCostInTimeRange id startTime endTime) w) Hw)
             as [H1 H2].
           split; [exact H1 |]. eapply durableVerdict_below; eauto.
      * split; [exact Hw |]. exists limit, a. repeat split; auto. left. reflexivity.
Qed.

Lemma degrade_unavailable (tries : nat) (id : Z) (type : EntityType) (now : Z)
  (costLimits : list CostLimit) (w : World) :
  unavailable w ->
  durableVerdict env id type costLimits now
    (degrade env (S tries) id type costLimits now w).1.
Proof.
  revert w. induction tries as [| k IH]; intros w Hw.
  - cbn [degrade].
    destruct (fromDatabase_unavailable id type now costLimits w Hw) as [_ Hv].
    destruct (checkCostLimitsFromDatabase env id type costLimits now w) as [[r |] w'];
      exact Hv.
  - change (degrade env (S (S k)) id type costLimits now w)
      with (match checkCostLimitsFromDatabase env id type costLimits now w with
            | (Returned r, w') => (Returned r, w')
            | (Thrown, w') => degrade env (S k) id type costLimits now w'
            end).
    destruct (fromDatabase_unavailable id type now costLimits w Hw) as [Hw' Hv].
    destruct (checkCostLimitsFromDatabase env id type costLimits now w) as [[r |] w'].
    + exact Hv.
    + apply IH. exact Hw'.
Qed.

Lemma checkCostLimits_unavailable (id : Z) (type : EntityType) (limits : Limits)
  (now : Z) (w : World) :
  unavailable w ->
  checkCostLimits env id type limits now w =
  degrade env 2 id type (costLimitsOf env limits) now w.
Proof.
  unfold unavailable, SessionTracker.usable, checkCostLimits.
  destruct (client w) as [st |]; [| reflexivity].
  destruct (InMemoryStore.isReady st); [discriminate | reflexivity].
Qed.

Lemma checkSessionLimit_unavailable (id : Z) (type : EntityType) (limit now : Z)
  (w : World) :
  unavailable w -> allowed (checkSessionLimit id type limit now w).1 = true.
Proof.
  intros Hw. unfold checkSessionLimit.
  destruct (Z.leb_spec limit 0); [reflexivity |].
  unfold SessionTracker.getKeySessionCount, SessionTracker.getProviderSessionCount.
  unfold unavailable in Hw. rewrite Hw.
  destruct type; cbn beta iota zeta; (destruct (Z.leb_spec limit 0); [lia | reflexivity]).
Qed.

Lemma checkAndTrackProviderSession_unavailable (providerId : Z) (sessionId : string)
  (limit now : Z) (w : World) :
  unavailable w ->
  psAllowed (checkAndTrackProviderSession providerId sessionId limit now w).1 = true.
Proof.
  unfold unavailable, SessionTracker.usable, checkAndTrackProviderSession.
  destruct (limit <=? 0); [reflexivity |].
  destruct (client w) as [st |]; [| reflexivity].
  destruct (InMemoryStore.isReady st); [discriminate | reflexivity].
Qed.

End UnavailableFacts.

(** C4 (amended).  When the store is unavailable (client missing or status
    not "ready"), [checkSessionLimit] and [checkAndTrackProviderSession]
    return allowed, and so does [checkUserRPM] when the client is missing.
    [checkCostLimits] does not fail open: the durable store decides, so the
    check allows when every set limit has a stored total that has not
    reached its amount, denies when a stored total has reached its amount,
    and lets a failure of
    the durable query reach the caller.  With the client missing
    [checkUserDailyCost] denies exactly when the durable total has reached
    the limit, and allows when the durable query fails. *)
Theorem C4_unavailable_store (env : RateLimitService.Collaborators)
  (w : RateLimitService.World) :
  unavailable w ->
  (forall id type limit now,
      RateLimitService.allowed
        (RateLimitService.checkSessionLimit id type limit now w).1 = true) /\
  (forall providerId sessionId limit now,
      RateLimitService.psAllowed
        (RateLimitService.checkAndTrackProviderSession providerId sessionId limit now w).1
      = true) /\
  (RateLimitService.client w = None ->
   forall userId rpmLimit now random,
      RateLimitService.uAllowed
        (RateLimitService.checkUserRPM userId rpmLimit now random w).1 = true) /\
  (forall id type limits now,
      durableVerdict env id type (RateLimitService.costLimitsOf env limits) now
        (RateLimitService.checkCostLimits env id type limits now w).1) /\
  (RateLimitService.client w = None ->
   forall userId dailyLimitUsd now,
      RateLimitService.uAllowed
        (RateLimitService.checkUserDailyCost env userId dailyLimitUsd now w).1 =
      negb (Js.lt Js.zero dailyLimitUsd &&
            match RateLimitService.sumUserCostToday env userId with
            | Returned total => Js.ge total dailyLimitUsd
            | Thrown => false
            end)).
Proof.
  intros Hw. repeat split.
  - intros. apply checkSessionLimit_unavailable, Hw.
  - intros. apply checkAndTrackProviderSession_unavailable, Hw.
  - intros Hnone userId rpmLimit now random. unfold RateLimitService.checkUserRPM.
    rewrite Hnone. destruct (rpmLimit <=? 0); reflexivity.
  - intros. rewrite checkCostLimits_unavailable by exact Hw.
    apply degrade_unavailable, Hw.
  - intros Hnone userId lim now. unfold RateLimitService.checkUserDailyCost.
    rewrite Hnone, unlimited_lt.
    destruct (Js.lt Js.zero lim); cbn [negb andb]; [| reflexivity].
    destruct (RateLimitService.sumUserCostToday env userId) as [total |];
      [| reflexivity].
    unfold RateLimitService.reaches. destruct (Js.ge total lim); reflexivity.
Qed.

Lemma C4_unavailable_store_witness :
  let w := {| RateLimitService.client := Some (InMemoryStore.destroy InMemoryStore.empty);
              RateLimitService.dbQueries := [] |} in
  unavailable w /\
  RateLimitService.psAllowed
    (RateLimitService.checkAndTrackProviderSession 9 "s1" 1 0 w).1 = true /\
  durableVerdict (constantStore (num "50")) 1 RateLimitService.KeyEntity
    (RateLimitService.costLimitsOf (constantStore (num "50")) (only5h (num "10"))) 2000
    (RateLimitService.checkCostLimits (constantStore (num "50")) 1
       RateLimitService.KeyEntity (only5h (num "10")) 2000 w).1.
Proof.
  intros w.
  assert (Hw : unavailable w) by reflexivity.
  destruct (C4_unavailable_store (constantStore (num "50")) w Hw) as (_ & H2 & _ & H4 & _).
  split; [exact Hw | split; [apply H2 | apply H4]].
Defined.

(** The claim as worded fails for [checkCostLimits]: with the client missing
    and a stored 5-hour total of 50 against a limit of 10, the check returns
    not allowed. *)
Lemma C4_cost_check_denies_counterexample :
  let w := {| RateLimitService.client := None; RateLimitService.dbQueries := [] |} in
  unavailable w /\
  (RateLimitService.checkCostLimits (constantStore (num "50")) 1
     RateLimitService.KeyEntity (only5h (num "10")) 2000 w).1 =
  Returned {| RateLimitService.allowed := false;
              RateLimitService.reason :=
                Some (RateLimitService.CostLimitReached
                        RateLimitService.KeyEntity "5h" (num "50") (num "10")) |}.
Proof. split; vm_compute; reflexivity. Qed.

(** ** Endpoint health *)

Section HealthFacts.

Import ProviderEndpointRepo EndpointHealthTracker.

Lemma updateEndpointHealth_persists (endpoint now failures : Z)
  (status : EndpointHealthStatus) (health : HealthUpdate)
  (table : list ProviderEndpoint) :
  (exists r, In r table /\ id r = endpoint) ->
  newConsecutiveFailures health = Some failures ->
  fitsInteger failures = true ->
  newHealthStatus health = Some status ->
  exists table',
    updateEndpointHealth endpoint health now table = (Returned tt, table') /\
    persisted endpoint failures status table'.
Proof.
  intros (r0 & Hin & Hid) Hf Hfits Hs.
  exists (map (fun r => if id r =? endpoint then applyHealth health now r else r) table).
  split.
  - unfold updateEndpointHealth. rewrite Hf, Hfits. cbn [negb].
    destruct (List.filter (fun r => id r =? endpoint) table) as [| x l] eqn:Hfil;
      [| reflexivity].
    assert (Hx : In r0 (List.filter (fun r => id r =? endpoint) table)).
    { apply List.filter_In. split; [exact Hin | apply Z.eqb_eq, Hid]. }
    rewrite Hfil in Hx. destruct Hx.
  - split.
    + exists (applyHealth health now r0). split; [| exact Hid].
      apply in_map_iff. exists r0. split; [| exact Hin].
      rewrite (proj2 (Z.eqb_eq _ _) Hid). reflexivity.
    + intros r Hr Hidr. apply in_map_iff in Hr as (r1 & Heq & _).
      destruct (Z.eqb_spec (id r1) endpoint) as [_ | Hne].
      * subst r. simpl. rewrite Hf, Hs. split; reflexivity.
      * subst r. contradiction.
Qed.

Lemma recordFailure_persists (endpoint current now : Z) (table : list ProviderEndpoint) :
  endpoint <> 0 ->
  fitsInteger (current + 1) = true ->
  (exists r, In r table /\ id r = endpoint) ->
  let status := if 3 <=? current + 1 then Unhealthy
                else if 1 <=? current + 1 then Degraded else Healthy in
  exists table',
    recordFailure endpoint current now table = (Returned status, table') /\
    persisted endpoint (current + 1) status table'.
Proof.
  intros Hne Hfits Hex status. unfold recordFailure.
  destruct (Z.eqb_spec endpoint 0) as [| _]; [contradiction |].
  cbv zeta. fold status.
  edestruct (updateEndpointHealth_persists endpoint now (current + 1) status) as (t' & Hu & Hp);
    [exact Hex | | exact Hfits | | rewrite Hu; exists t'; split; [reflexivity | exact Hp]];
    reflexivity.
Qed.

(** A streak that no longer fits its column: the update is rejected, the
    rejection reaches the caller of [recordFailure], and the table is left
    as it was. *)
Lemma recordFailure_rejected (endpoint current now : Z) (table : list ProviderEndpoint) :
  endpoint <> 0 ->
  fitsInteger (current + 1) = false ->
  recordFailure endpoint current now table = (Thrown, table).
Proof.
  intros Hne Hfits. unfold recordFailure.
  destruct (Z.eqb_spec endpoint 0) as [| _]; [contradiction |].
  cbv zeta. unfold updateEndpointHealth.
  cbn [newConsecutiveFailures]. rewrite Hfits. reflexivity.
Qed.

End HealthFacts.

(** C5.  For an endpoint other than the sentinel 0 whose streak is 0, three
    consecutive [recordFailure] calls, each given the streak persisted by the
    previous one, return degraded, degraded and unhealthy and persist the
    streaks 1, 2 and 3 with those statuses; from any streak that makes the
    new count at least 3 and still fits the 32-bit column the status is
    unhealthy and the new count is persisted, while a count past the column
    is rejected by the database: [recordFailure] throws and the row keeps its
    state; and [recordSuccess], on any state of the table holding the
    endpoint, persists a streak of 0 and the status healthy. *)
Theorem C5_health_state_machine (endpoint now1 now2 now3 : Z)
  (table : list ProviderEndpointRepo.ProviderEndpoint) :
  endpoint <> 0 ->
  (exists status, persisted endpoint 0 status table) ->
  (exists t1 t2 t3,
      EndpointHealthTracker.recordFailure endpoint 0 now1 table =
        (Returned ProviderEndpointRepo.Degraded, t1) /\
      persisted endpoint 1 ProviderEndpointRepo.Degraded t1 /\
      EndpointHealthTracker.recordFailure endpoint 1 now2 t1 =
        (Returned ProviderEndpointRepo.Degraded, t2) /\
      persisted endpoint 2 ProviderEndpointRepo.Degraded t2 /\
      EndpointHealthTracker.recordFailure endpoint 2 now3 t2 =
        (Returned ProviderEndpointRepo.Unhealthy, t3) /\
      persisted endpoint 3 ProviderEndpointRepo.Unhealthy t3) /\
  (forall current now t status,
      2 <= current -> current < 2147483647 -> persisted endpoint current status t ->
      exists t',
        EndpointHealthTracker.recordFailure endpoint current now t =
          (Returned ProviderEndpointRepo.Unhealthy, t') /\
        persisted endpoint (current + 1) ProviderEndpointRepo.Unhealthy t') /\
  (forall current now t,
      2147483647 <= current ->
      EndpointHealthTracker.recordFailure endpoint current now t = (Thrown, t)) /\
  (forall current now t status,
      persisted endpoint current status t ->
      exists t',
        EndpointHealthTracker.recordSuccess endpoint now t = (Returned tt, t') /\
        persisted endpoint 0 ProviderEndpointRepo.Healthy t').
Proof.
  intros Hne (status0 & Hex0 & _). split; [| split; [| split]].
  - destruct (recordFailure_persists endpoint 0 now1 table Hne eq_refl Hex0)
      as (t1 & H1 & P1).
    destruct (recordFailure_persists endpoint 1 now2 t1 Hne eq_refl (proj1 P1))
      as (t2 & H2 & P2).
    destruct (recordFailure_persists endpoint 2 now3 t2 Hne eq_refl (proj1 P2))
      as (t3 & H3 & P3).
    exists t1, t2, t3. auto 10.
  - intros current now t status Hge Hmax [Hex _].
    assert (Hfits : ProviderEndpointRepo.fitsInteger (current + 1) = true).
    { unfold ProviderEndpointRepo.fitsInteger. apply andb_true_intro.
      split; apply Z.leb_le; lia. }
    destruct (recordFailure_persists endpoint current now t Hne Hfits Hex) as (t' & H & P).
    destruct (Z.leb_spec 3 (current + 1)); [| lia]. exists t'. auto.
  - intros current now t Hmax. apply recordFailure_rejected; [exact Hne |].
    unfold ProviderEndpointRepo.fitsInteger. apply andb_false_intro2, Z.leb_gt. lia.
  - intros current now t status [Hex _].
    unfold EndpointHealthTracker.recordSuccess.
    destruct (Z.eqb_spec endpoint 0) as [| _]; [contradiction |].
    eapply updateEndpointHealth_persists;
      [exact Hex | reflexivity | reflexivity | reflexivity].
Qed.

Lemma C5_health_state_machine_witness :
  let table := [exampleRow 11 5; exampleRow 12 1] in
  11 <> 0 /\
  (exists status, persisted 11 0 status table) /\
  (exists t1 t2 t3,
    EndpointHealthTracker.recordFailure 11 0 100 table =
      (Returned ProviderEndpointRepo.Degraded, t1) /\
    persisted 11 1 ProviderEndpointRepo.Degraded t1 /\
    EndpointHealthTracker.recordFailure 11 1 200 t1 =
      (Returned ProviderEndpointRepo.Degraded, t2) /\
    persisted 11 2 ProviderEndpointRepo.Degraded t2 /\
    EndpointHealthTracker.recordFailure 11 2 300 t2 =
      (Returned ProviderEndpointRepo.Unhealthy, t3) /\
    persisted 11 3 ProviderEndpointRepo.Unhealthy t3) /\
  EndpointHealthTracker.recordFailure 11 2147483647 400 table = (Thrown, table).
Proof.
  intros table.
  assert (H1 : 11 <> 0) by lia.
  assert (H2 : exists status, persisted 11 0 status table).
  { exists ProviderEndpointRepo.Healthy. split.
    - exists (exampleRow 11 5). split; [left |]; reflexivity.
    - intros r [<- | [<- | []]]; simpl; intros H; [split; reflexivity | lia]. }
  split; [exact H1 | split; [exact H2 |]].
  destruct (C5_health_state_machine 11 100 200 300 table H1 H2) as (Hrun & _ & Hmax & _).
  split; [exact Hrun |]. apply Hmax. lia.
Defined.

(** ** Endpoint selection *)

Section SelectorFacts.

Import ProviderEndpointRepo EndpointSelector.

Lemma head_sortInsert {A} (key : A -> Z) (x : A) (l : list A) :
  head (Js.sortInsert key x l) =
  Some (match head l with
        | Some y => if key x <=? key y then x else y
        | None => x
        end).
Proof. destruct l as [| y r]; simpl; [| destruct (key x <=? key y)]; reflexivity. Qed.

(** The first element after sorting is a least element of the list. *)
Lemma head_sortBy_least {A} (key : A -> Z) (l : list A) :
  match head (Js.sortBy key l) with
  | Some m => In m l /\ forall x, In x l -> key m <= key x
  | None => l = []
  end.
Proof.
  induction l as [| a r IH]; [reflexivity |].
  change (Js.sortBy key (a :: r)) with (Js.sortInsert key a (Js.sortBy key r)).
  rewrite head_sortInsert.
  destruct (head (Js.sortBy key r)) as [y |].
  - destruct IH as [Hy Hmin].
    destruct (Z.leb_spec (key a) (key y)) as [Hle | Hgt].
    + split; [left; reflexivity |].
      intros x [<- | Hx]; [lia | specialize (Hmin x Hx); lia].
    + split; [right; exact Hy |].
      intros x [<- | Hx]; [lia | exact (Hmin x Hx)].
  - subst r. split; [left; reflexivity |]. intros x [<- | []]. lia.
Qed.

Lemma selectFailover_least (endpoints : list ResolvedEndpoint) :
  endpoints <> [] ->
  exists e, selectFailover endpoints = Some e /\ In e endpoints /\
            forall e', In e' endpoints -> rPriority e <= rPriority e'.
Proof.
  intros Hne. unfold selectFailover.
  pose proof (head_sortBy_least rPriority endpoints) as H.
  destruct (head (Js.sortBy rPriority endpoints)) as [m |]; [| contradiction].
  exists m. destruct H. auto.
Qed.

Lemma isUsable_spec (excludeEndpointIds : option (list Z)) (ep : ProviderEndpoint) :
  isUsable excludeEndpointIds ep = true <->
  isEnabled ep = true /\ healthStatus ep <> Unhealthy /\
  forall ids, excludeEndpointIds = Some ids -> ~ In (id ep) ids.
Proof.
  unfold isUsable. rewrite !andb_true_iff, negb_true_iff. split.
  - intros [[He Hh] Hx]. split; [exact He | split].
    + destruct (healthStatus ep); congruence.
    + intros ids -> Hin.
      assert (Ht : existsb (Z.eqb (id ep)) ids = true).
      { apply existsb_exists. exists (id ep). split; [exact Hin | apply Z.eqb_refl]. }
      congruence.
  - intros (He & Hh & Hx). split; [split; [exact He |] |].
    + destruct (healthStatus ep); congruence.
    + destruct excludeEndpointIds as [ids |]; [| reflexivity].
      destruct (existsb (Z.eqb (id ep)) ids) eqn:Hex; [| reflexivity].
      apply existsb_exists in Hex as (x & Hin & Heq). apply Z.eqb_eq in Heq. subst x.
      destruct (Hx ids eq_refl Hin).
Qed.

Lemma at_In {A} (l : list A) (i : Z) (x : A) : Js.at_ l i = Some x -> In x l.
Proof.
  unfold Js.at_. destruct (i <? 0); [discriminate |].
  intros H. apply list_elem_of_In, list_elem_of_lookup. eauto.
Qed.

Lemma weightedWalk_In (endpoints : list ResolvedEndpoint) (random : Q) (e : ResolvedEndpoint) :
  weightedWalk random endpoints = Some e -> In e endpoints.
Proof.
  revert random. induction endpoints as [| a r IH]; intros random; simpl; [discriminate |].
  destruct (Qle_bool (random - inject_Z (rWeight a)) 0).
  - intros [= <-]. left. reflexivity.
  - intros H. right. eapply IH, H.
Qed.

End SelectorFacts.

(** C6.  In multi-endpoint mode the candidates are exactly the provider's
    endpoints that are enabled, not unhealthy and not excluded (with the key
    resolved); with no candidate [selectEndpoint] returns [null], and under
    the failover strategy it returns a candidate of minimum priority.  With
    healthy endpoints of priorities 5, 1 and 3 it selects the one of priority
    1, and with that one excluded the one of priority 3. *)
Theorem C6_failover_selection
  (toProviderEndpoint :
     ProviderEndpointRepo.ProviderEndpoint -> ProviderEndpointRepo.ProviderEndpoint)
  (provider : EndpointSelector.Provider) (excludeEndpointIds : option (list Z))
  (random : Q) (table : list ProviderEndpointRepo.ProviderEndpoint)
  (roundRobinIndex : gmap Z Z) :
  EndpointSelector.useMultipleEndpoints provider = true ->
  let allEndpoints :=
    ProviderEndpointRepo.findEndpointsByProviderId toProviderEndpoint
      (EndpointSelector.pId provider) table in
  let candidates :=
    EndpointSelector.availableEndpoints provider excludeEndpointIds allEndpoints in
  let selected :=
    (EndpointSelector.selectEndpoint toProviderEndpoint provider excludeEndpointIds
       random table roundRobinIndex).1 in
  (forall e, In e candidates <->
             exists ep, In ep allEndpoints /\ e = EndpointSelector.resolve provider ep /\
                        ProviderEndpointRepo.isEnabled ep = true /\
                        ProviderEndpointRepo.healthStatus ep <> ProviderEndpointRepo.Unhealthy /\
                        forall ids, excludeEndpointIds = Some ids ->
                                    ~ In (ProviderEndpointRepo.id ep) ids) /\
  (candidates = [] -> selected = None) /\
  (candidates <> [] ->
   default EndpointSelector.Failover (EndpointSelector.endpointSelectionStrategy provider)
     = EndpointSelector.Failover ->
   exists e, selected = Some e /\ In e candidates /\
             forall e', In e' candidates ->
                        EndpointSelector.rPriority e <= EndpointSelector.rPriority e') /\
  (EndpointSelector.rPriority <$>
     (EndpointSelector.selectEndpoint (fun r => r) exampleProvider None random
        exampleTable roundRobinIndex).1) = Some 1 /\
  (EndpointSelector.rPriority <$>
     (EndpointSelector.selectEndpoint (fun r => r) exampleProvider (Some [12]) random
        exampleTable roundRobinIndex).1) = Some 3.
Proof.
  intros Hmulti allEndpoints candidates selected.
  assert (Hsel : selected =
                 match candidates with
                 | [] => None
                 | _ => (match default EndpointSelector.Failover
                                 (EndpointSelector.endpointSelectionStrategy provider) with
                         | EndpointSelector.Failover =>
                             (EndpointSelector.selectFailover candidates, roundRobinIndex)
                         | EndpointSelector.RoundRobin =>
                             EndpointSelector.selectRoundRobin
                               (EndpointSelector.pId provider) candidates roundRobinIndex
                         | EndpointSelector.Random =>
                             (EndpointSelector.selectRandom candidates random, roundRobinIndex)
                         | EndpointSelector.Weighted =>
                             (EndpointSelector.selectWeighted candidates random,
                              roundRobinIndex)
                         | EndpointSelector.OtherStrategy =>
                             (EndpointSelector.selectFailover candidates, roundRobinIndex)
                         end).1
                 end).
  { subst selected. unfold EndpointSelector.selectEndpoint. rewrite Hmulti. cbn [negb].
    fold allEndpoints. fold candidates. destruct candidates; reflexivity. }
  split; [| split; [| split; [| split]]].
  - intros e. subst candidates. unfold EndpointSelector.availableEndpoints.
    rewrite in_map_iff. split.
    + intros (ep & <- & Hin). apply List.filter_In in Hin as [Hin Hu].
      apply isUsable_spec in Hu. exists ep. tauto.
    + intros (ep & Hin & -> & Hrest). exists ep. split; [reflexivity |].
      apply List.filter_In. split; [exact Hin |]. apply isUsable_spec. exact Hrest.
  - intros Hnil. rewrite Hsel, Hnil. reflexivity.
  - intros Hne Hstrategy. rewrite Hsel, Hstrategy.
    destruct (selectFailover_least candidates Hne) as (e & He & Hin & Hmin).
    destruct candidates as [| c cs]; [contradiction |].
    exists e. cbn [fst]. auto.
  - vm_compute. reflexivity.
  - vm_compute. reflexivity.
Qed.

Lemma C6_failover_selection_witness :
  EndpointSelector.useMultipleEndpoints exampleProvider = true /\
  exists e,
    (EndpointSelector.selectEndpoint (fun r => r) exampleProvider (Some [12]) (1 # 2)
       exampleTable ∅).1 = Some e /\
    EndpointSelector.rId e = 13.
Proof.
  assert (H : EndpointSelector.useMultipleEndpoints exampleProvider = true) by reflexivity.
  split; [exact H |].
  destruct (C6_failover_selection (fun r => r) exampleProvider (Some [12]) (1 # 2)
              exampleTable ∅ H) as (_ & _ & Hmin & _).
  destruct Hmin as (e & He & _ & _); [vm_compute; discriminate | reflexivity |].
  exists e. split; [exact He |].
  vm_compute in He. injection He as <-. reflexivity.
Defined.

(** C10.  [selectWeighted] is total on non-empty lists: whatever the random
    draw, it returns an element of its input, found by the subtraction walk
    or else by the fallback to the last element, and never [undefined]. *)
Theorem C10_selectWeighted_total (endpoints : list EndpointSelector.ResolvedEndpoint)
  (random : Q) :
  endpoints <> [] ->
  exists e, EndpointSelector.selectWeighted endpoints random = Some e /\ In e endpoints.
Proof.
  intros Hne. unfold EndpointSelector.selectWeighted. cbv zeta.
  destruct (EndpointSelector.weightedWalk _ endpoints) as [e |] eqn:Hwalk.
  - exists e. split; [reflexivity |]. eapply weightedWalk_In, Hwalk.
  - destruct (Js.at_ endpoints (Z.of_nat (length endpoints) - 1)) as [e |] eqn:Hlast.
    + exists e. split; [reflexivity |]. eapply at_In, Hlast.
    + exfalso. unfold Js.at_ in Hlast.
      destruct endpoints as [| a r]; [contradiction |].
      destruct (Z.ltb_spec (Z.of_nat (length (a :: r)) - 1) 0) as [Hlt | _].
      * simpl in Hlt. lia.
      * apply lookup_ge_None in Hlast. simpl in Hlast. lia.
Qed.

Lemma C10_selectWeighted_total_witness :
  let endpoints := EndpointSelector.availableEndpoints exampleProvider None exampleTable in
  endpoints <> [] /\
  exists e, EndpointSelector.selectWeighted endpoints (3 # 4) = Some e /\ In e endpoints.
Proof.
  intros endpoints.
  assert (H : endpoints <> []) by (vm_compute; discriminate).
  split; [exact H |]. exact (C10_selectWeighted_total endpoints (3 # 4) H).
Defined.

(** ** Cost multiplier *)

Section MultiplierFacts.

Import CostMultiplier.

(** The loop collecting the matched rules is a filter. *)
Lemma collect_filter {A} (f : A -> bool) (l acc : list A) :
  foldl (fun matched x => if f x then matched ++ [x] else matched) acc l =
  acc ++ List.filter f l.
Proof.
  revert acc. induction l as [| x r IH]; intros acc; simpl.
  - rewrite app_nil_r. reflexivity.
  - rewrite IH. destruct (f x); [rewrite <- app_assoc |]; reflexivity.
Qed.

Lemma filter_filter_and {A} (f g : A -> bool) (l : list A) :
  List.filter g (List.filter f l) = List.filter (fun x => f x && g x) l.
Proof.
  induction l as [| x r IH]; simpl; [reflexivity |].
  destruct (f x); simpl; [destruct (g x) |]; rewrite IH; reflexivity.
Qed.

Lemma matched_loop (intl : Intl) (context : CostMultiplierContext)
  (rules : list ProviderCostRule) :
  foldl (fun matched rule =>
           if ruleMatches intl context rule then matched ++ [rule] else matched)
        [] (List.filter isEnabled rules) =
  matchedRulesOf intl context rules.
Proof. rewrite collect_filter, filter_filter_and. reflexivity. Qed.

(** The [multiply] loop: the running product and the report. *)
Lemma multiply_loop (rules : list ProviderCostRule) (acc : Js.number * list AppliedRule) :
  foldl (fun acc rule =>
           (Js.mul acc.1 (Js.parseFloat (multiplier rule)), acc.2 ++ [applied rule]))
        acc rules =
  (foldl Js.mul acc.1 (map (fun r => Js.parseFloat (multiplier r)) rules),
   acc.2 ++ map applied rules).
Proof.
  revert acc. induction rules as [| r rest IH]; intros [x report]; cbn [foldl map fst snd].
  - rewrite app_nil_r. reflexivity.
  - rewrite IH. cbn [fst snd]. rewrite <- app_assoc. reflexivity.
Qed.

(** The head of the rules sorted by descending priority is the first rule of
    greatest priority. *)
Lemma head_sorted_greatest (rules : list ProviderCostRule) :
  head (Js.sortBy (fun r => - priority r) rules) = greatest rules.
Proof.
  induction rules as [| r rest IH]; [reflexivity |].
  change (Js.sortBy (fun r => - priority r) (r :: rest))
    with (Js.sortInsert (fun r => - priority r) r (Js.sortBy (fun r => - priority r) rest)).
  rewrite head_sortInsert, IH. simpl.
  destruct (greatest rest) as [g |]; [| reflexivity].
  destruct (Z.leb_spec (- priority r) (- priority g)),
           (Z.leb_spec (priority g) (priority r)); try lia; reflexivity.
Qed.

Lemma greatest_spec (rules : list ProviderCostRule) :
  match greatest rules with
  | Some g => In g rules /\ forall r, In r rules -> priority r <= priority g
  | None => rules = []
  end.
Proof.
  induction rules as [| r rest IH]; [reflexivity |]. simpl.
  destruct (greatest rest) as [g |].
  - destruct IH as [Hin Hmax].
    destruct (Z.leb_spec (priority g) (priority r)).
    + split; [left; reflexivity |].
      intros x [<- | Hx]; [lia | specialize (Hmax x Hx); lia].
    + split; [right; exact Hin |].
      intros x [<- | Hx]; [lia | exact (Hmax x Hx)].
  - subst rest. split; [left; reflexivity |]. intros x [<- | []]. lia.
Qed.

(** With a matched rule the result is the base multiplier times the
    combined factor; without one it is the base multiplier. *)
Lemma final_matched (intl : Intl) (base : Js.number) (rules : list ProviderCostRule)
  (context : CostMultiplierContext) (strategy : CostMultiplierStrategy) :
  matchedRulesOf intl context rules <> [] ->
  finalMultiplier (calculateFinalMultiplier intl base rules context strategy) =
  Js.mul base (combinedFactor intl rules context strategy).
Proof.
  intros Hne. unfold calculateFinalMultiplier, combinedFactor. cbv zeta.
  rewrite matched_loop.
  destruct (matchedRulesOf intl context rules) as [| m ms] eqn:Hm; [contradiction |].
  destruct strategy.
  - rewrite head_sorted_greatest.
    destruct (greatest (m :: ms)) as [g |] eqn:Hg; [reflexivity |].
    pose proof (greatest_spec (m :: ms)) as H. rewrite Hg in H. discriminate.
  - rewrite multiply_loop. reflexivity.
Qed.

Lemma final_unmatched (intl : Intl) (base : Js.number) (rules : list ProviderCostRule)
  (context : CostMultiplierContext) (strategy : CostMultiplierStrategy) :
  matchedRulesOf intl context rules = [] ->
  finalMultiplier (calculateFinalMultiplier intl base rules context strategy) = base.
Proof.
  intros Hnil. unfold calculateFinalMultiplier. cbv zeta.
  rewrite matched_loop, Hnil. reflexivity.
Qed.

End MultiplierFacts.

(** C7.  [calculateFinalMultiplier] returns the base multiplier times the
    combined factor, where the factor is 1 when no enabled rule matches, the
    product of the multipliers of all matched rules under [multiply]
    (multiplied in rule order, from 1), and the multiplier of a matched rule
    of greatest priority under [highest_priority]; the products are those of
    doubles.  For the rules [claude-3-5-* x1.5 (priority 1)] and
    [22:00-06:00 daily x2.0 (priority 2)] and the model ["claude-3-5-sonnet"],
    at 23:00 local time [multiply] gives base x 3.0 and [highest_priority]
    gives base x 2.0, whereas at 12:00, outside the period, both give
    base x 1.5. *)
Theorem C7_final_multiplier (intl : CostMultiplier.Intl) (base : Js.number)
  (rules : list CostMultiplier.ProviderCostRule)
  (context : CostMultiplier.CostMultiplierContext)
  (strategy : CostMultiplier.CostMultiplierStrategy) :
  wellFormed base = true ->
  let final :=
    CostMultiplier.finalMultiplier
      (CostMultiplier.calculateFinalMultiplier intl base rules context strategy) in
  let matched := matchedRulesOf intl context rules in
  let example clock strategy :=
    CostMultiplier.finalMultiplier
      (CostMultiplier.calculateFinalMultiplier clock base exampleRules exampleContext
         strategy) in
  final = Js.mul base (combinedFactor intl rules context strategy) /\
  (matched = [] -> final = base) /\
  (matched <> [] -> strategy = CostMultiplier.Multiply ->
   final = Js.mul base (productOf matched)) /\
  (matched <> [] -> strategy = CostMultiplier.HighestPriority ->
   exists g, In g matched /\
             (forall r, In r matched ->
                        CostMultiplier.priority r <= CostMultiplier.priority g) /\
             final = Js.mul base (Js.parseFloat (CostMultiplier.multiplier g))) /\
  example elevenPm CostMultiplier.Multiply = Js.mul base (num "3.0") /\
  example elevenPm CostMultiplier.HighestPriority = Js.mul base (num "2.0") /\
  example noon CostMultiplier.Multiply = Js.mul base (num "1.5") /\
  example noon CostMultiplier.HighestPriority = Js.mul base (num "1.5").
Proof.
  intros Hbase final matched example.
  assert (Hfinal : final = Js.mul base (combinedFactor intl rules context strategy)).
  { destruct (matchedRulesOf intl context rules) as [| m ms] eqn:Hm.
    - subst final. rewrite final_unmatched by exact Hm.
      unfold combinedFactor. rewrite Hm. symmetry. apply mul_one. exact Hbase.
    - apply final_matched. rewrite Hm. discriminate. }
  assert (Hexample : forall clock how x,
            matchedRulesOf clock exampleContext exampleRules <> [] ->
            combinedFactor clock exampleRules exampleContext how = x ->
            example clock how = Js.mul base x).
  { intros clock how x Hne <-. apply final_matched. exact Hne. }
  split; [exact Hfinal | split; [| split; [| split; [| split; [| split; [| split]]]]]].
  - intros Hnil. apply final_unmatched. exact Hnil.
  - intros Hne ->. unfold combinedFactor in Hfinal. fold matched in Hfinal.
    destruct matched; [contradiction | exact Hfinal].
  - intros Hne ->. unfold combinedFactor in Hfinal. fold matched in Hfinal.
    pose proof (greatest_spec matched) as Hg.
    destruct matched as [| m ms]; [contradiction |].
    destruct (greatest (m :: ms)) as [g |]; [| discriminate].
    exists g. destruct Hg. auto.
  - apply Hexample; [vm_compute; discriminate | vm_compute; reflexivity].
  - apply Hexample; [vm_compute; discriminate | vm_compute; reflexivity].
  - apply Hexample; [vm_compute; discriminate | vm_compute; reflexivity].
  - apply Hexample; [vm_compute; discriminate | vm_compute; reflexivity].
Qed.

Lemma C7_final_multiplier_witness :
  let base := num "1.2" in
  let final strategy :=
    CostMultiplier.finalMultiplier
      (CostMultiplier.calculateFinalMultiplier elevenPm base exampleRules exampleContext
         strategy) in
  wellFormed base = true /\
  final CostMultiplier.Multiply = Js.mul base (num "3.0") /\
  Js.toString (final CostMultiplier.Multiply) = "3.5999999999999996"%string /\
  Js.toString (final CostMultiplier.HighestPriority) = "2.4"%string.
Proof.
  intros base final.
  assert (H : wellFormed base = true) by (vm_compute; reflexivity).
  split; [exact H |].
  split; [| split; vm_compute; reflexivity].
  exact (proj1 (proj2 (proj2 (proj2 (proj2
           (C7_final_multiplier elevenPm base exampleRules exampleContext
              CostMultiplier.Multiply H)))))).
Defined.

(* ===================================================================== *)
(** * Part III: further properties of the store and its users *)
(* ===================================================================== *)

(** ** Sorted sets: insertion, lookup, removal *)

Section ZSetOperations.

Import InMemoryZSet.

Lemma mapGet_mapSet_eq (member : string) (score : Z) (zs : list (string * Z)) :
  mapGet member (mapSet member score zs) = Some score.
Proof.
  induction zs as [| [m s] r IH]; simpl.
  - rewrite String.eqb_refl. reflexivity.
  - destruct (String.eqb_spec m member) as [-> | Hne]; simpl.
    + rewrite String.eqb_refl. reflexivity.
    + destruct (String.eqb_spec m member); [contradiction | exact IH].
Qed.

Lemma mapGet_mapSet_ne (member other : string) (score : Z) (zs : list (string * Z)) :
  other <> member -> mapGet other (mapSet member score zs) = mapGet other zs.
Proof.
  intros Hne. induction zs as [| [m s] r IH]; simpl.
  - destruct (String.eqb_spec member other); [congruence | reflexivity].
  - destruct (String.eqb_spec m member) as [-> | Hm]; simpl.
    + destruct (String.eqb_spec member other); [congruence | reflexivity].
    + destruct (String.eqb_spec m other); [reflexivity | exact IH].
Qed.

Lemma mapSet_length (member : string) (score : Z) (zs : list (string * Z)) :
  length (mapSet member score zs) =
  (length zs + if mapHas member zs then 0 else 1)%nat.
Proof.
  unfold mapHas. induction zs as [| [m s] r IH]; simpl; [reflexivity |].
  destruct (String.eqb_spec m member); simpl; [lia |].
  rewrite IH. destruct (mapGet member r); lia.
Qed.

Lemma mapSet_members (member : string) (score : Z) (zs : list (string * Z)) :
  map fst (mapSet member score zs) =
  if mapHas member zs then map fst zs else map fst zs ++ [member].
Proof.
  unfold mapHas. induction zs as [| [m s] r IH]; simpl; [reflexivity |].
  destruct (String.eqb_spec m member); simpl; [reflexivity |].
  rewrite IH. destruct (mapGet member r); reflexivity.
Qed.

Lemma mapGet_In (member : string) (score : Z) (zs : list (string * Z)) :
  mapGet member zs = Some score -> In (member, score) zs.
Proof.
  induction zs as [| [m s] r IH]; simpl; [discriminate |].
  destruct (String.eqb_spec m member) as [-> | _].
  - intros [= ->]. left. reflexivity.
  - intros H. right. exact (IH H).
Qed.

Lemma mapGet_None_iff (member : string) (zs : list (string * Z)) :
  mapGet member zs = None <-> ~ In member (map fst zs).
Proof.
  induction zs as [| [m s] r IH]; simpl; [tauto |].
  destruct (String.eqb_spec m member) as [-> | Hne].
  - split; [discriminate | intros H; exfalso; apply H; left; reflexivity].
  - rewrite IH. tauto.
Qed.

Lemma In_mapGet (member : string) (score : Z) (zs : list (string * Z)) :
  NoDup (map fst zs) -> In (member, score) zs -> mapGet member zs = Some score.
Proof.
  induction zs as [| [m s] r IH]; simpl; [tauto |].
  intros Hnd [[= -> ->] | Hin].
  - rewrite String.eqb_refl. reflexivity.
  - apply NoDup_cons in Hnd as [Hnot Hnd].
    destruct (String.eqb_spec m member) as [-> | _]; [| exact (IH Hnd Hin)].
    exfalso. apply Hnot. apply list_elem_of_In.
    change member with (fst (member, score)). apply in_map, Hin.
Qed.

Lemma zsetOf_zadd_other (key key' member : string) (score : Z) (st : InMemoryStore.t) :
  key <> key' -> zsetOf key' (InMemoryStore.zadd key score member st).2 = zsetOf key' st.
Proof.
  intros Hne. unfold InMemoryStore.zadd, zadd, zsetOf. simpl.
  rewrite lookup_insert_ne by exact Hne. reflexivity.
Qed.

Lemma zadd_result (key member : string) (score : Z) (st : InMemoryStore.t) :
  (InMemoryStore.zadd key score member st).1 =
  if mapHas member (zsetOf key st) then 0 else 1.
Proof.
  unfold InMemoryStore.zadd, zadd, zsetOf. simpl.
  destruct (mapHas member _); reflexivity.
Qed.

End ZSetOperations.

(** X1.  [zadd] is an upsert: afterwards [zscore] of the member is the new
    score, every other member and every other key reads as before, the
    result is 1 for a new member and 0 for an update, and the cardinality
    grows by exactly that result. *)
Theorem X1_zadd_upsert (key member : string) (score : Z) (st : InMemoryStore.t) :
  let r := InMemoryStore.zadd key score member st in
  InMemoryStore.zscore key member r.2 = Some score /\
  (forall other, other <> member ->
                 InMemoryStore.zscore key other r.2 = InMemoryStore.zscore key other st) /\
  (forall key' other, key' <> key ->
                 InMemoryStore.zscore key' other r.2 = InMemoryStore.zscore key' other st) /\
  r.1 = (match InMemoryStore.zscore key member st with Some _ => 0 | None => 1 end) /\
  InMemoryStore.zcard key r.2 = InMemoryStore.zcard key st + r.1.
Proof.
  intros r. subst r. repeat split.
  - rewrite zscore_mapGet, zsetOf_zadd. apply mapGet_mapSet_eq.
  - intros other Hne. rewrite !zscore_mapGet, zsetOf_zadd.
    apply mapGet_mapSet_ne, Hne.
  - intros key' other Hne. rewrite !zscore_mapGet, zsetOf_zadd_other by congruence.
    reflexivity.
  - rewrite zadd_result, zscore_mapGet. unfold InMemoryZSet.mapHas.
    destruct (InMemoryZSet.mapGet member (zsetOf key st)); reflexivity.
  - rewrite !zcard_length, zsetOf_zadd, zadd_result, mapSet_length.
    destruct (InMemoryZSet.mapHas member (zsetOf key st)); lia.
Qed.

Section ZSetInvariant.

Import InMemoryZSet.

Lemma NoDup_members_filter (f : string * Z -> bool) (zs : list (string * Z)) :
  NoDup (map fst zs) -> NoDup (map fst (List.filter f zs)).
Proof.
  induction zs as [| e r IH]; simpl; [auto |].
  intros Hnd. apply NoDup_cons in Hnd as [Hnot Hnd].
  destruct (f e); simpl; [| exact (IH Hnd)].
  apply NoDup_cons. split; [| exact (IH Hnd)].
  intros Hin. apply Hnot. apply list_elem_of_In in Hin. apply list_elem_of_In.
  apply in_map_iff in Hin as (x & Hx & Hin). apply List.filter_In in Hin as [Hin _].
  apply in_map_iff. eauto.
Qed.

Lemma NoDup_members_mapSet (member : string) (score : Z) (zs : list (string * Z)) :
  NoDup (map fst zs) -> NoDup (map fst (mapSet member score zs)).
Proof.
  intros Hnd. rewrite mapSet_members. unfold mapHas.
  destruct (mapGet member zs) eqn:Hg; [exact Hnd |].
  apply NoDup_app. split; [exact Hnd | split].
  - intros x Hx Hin. apply list_elem_of_In in Hin as [<- | []].
    apply mapGet_None_iff in Hg. apply Hg, list_elem_of_In, Hx.
  - apply NoDup_singleton.
Qed.

Lemma mapSet_nonempty (member : string) (score : Z) (zs : list (string * Z)) :
  mapSet member score zs <> [].
Proof. destruct zs as [| [m s] r]; simpl; [| destruct (String.eqb m member)]; discriminate. Qed.

(** The general form of the trim: the entries outside the range are kept. *)
Lemma zsetOf_zremrangebyscore_range (key : string) (lo hi : bound) (st : InMemoryStore.t) :
  zsetOf key (InMemoryStore.zremrangebyscore key lo hi st).2 =
  List.filter (fun e => negb (inRange lo hi e)) (zsetOf key st).
Proof.
  unfold InMemoryStore.zremrangebyscore, zremrangebyscore, zsetOf.
  destruct (InMemoryStore.zsetStore st !! key) as [[| e zs] |] eqn:Hk;
    cbn [snd InMemoryStore.zsetStore InMemoryStore.withZ];
    try (rewrite Hk; reflexivity).
  change (default [] (Some (e :: zs))) with (e :: zs).
  destruct (List.filter (fun e => negb (inRange lo hi e)) (e :: zs)) as [| e' kept];
    cbn [snd InMemoryStore.zsetStore InMemoryStore.withZ].
  - rewrite lookup_delete_eq. reflexivity.
  - rewrite lookup_insert_eq. reflexivity.
Qed.

Lemma zsetOf_zremrangebyscore_other (key key' : string) (lo hi : bound)
  (st : InMemoryStore.t) :
  key <> key' ->
  InMemoryStore.zsetStore (InMemoryStore.zremrangebyscore key lo hi st).2 !! key' =
  InMemoryStore.zsetStore st !! key'.
Proof.
  intros Hne. unfold InMemoryStore.zremrangebyscore, zremrangebyscore.
  destruct (InMemoryStore.zsetStore st !! key) as [[| e zs] |];
    cbn [snd InMemoryStore.zsetStore InMemoryStore.withZ]; try reflexivity.
  destruct (List.filter (fun e => negb (inRange lo hi e)) (e :: zs));
    cbn [snd InMemoryStore.zsetStore InMemoryStore.withZ].
  - rewrite lookup_delete_ne by exact Hne. reflexivity.
  - rewrite lookup_insert_ne by exact Hne. reflexivity.
Qed.

Lemma zsetInvariant_empty : zsetInvariant InMemoryStore.empty.
Proof.
  intros key zs Hk. unfold InMemoryStore.empty in Hk. simpl in Hk.
  rewrite lookup_empty in Hk. discriminate.
Qed.

Lemma zsetInvariant_zadd (key member : string) (score : Z) (st : InMemoryStore.t) :
  zsetInvariant st -> zsetInvariant (InMemoryStore.zadd key score member st).2.
Proof.
  intros Hinv k zs. unfold InMemoryStore.zadd, zadd. simpl.
  destruct (decide (key = k)) as [<- | Hne].
  - rewrite lookup_insert_eq. intros [= <-]. split; [| apply mapSet_nonempty].
    apply NoDup_members_mapSet.
    destruct (InMemoryStore.zsetStore st !! key) as [zs0 |] eqn:Hk; simpl.
    + exact (proj1 (Hinv key zs0 Hk)).
    + constructor.
  - rewrite lookup_insert_ne by exact Hne. apply Hinv.
Qed.

Lemma zsetInvariant_zremrangebyscore (key : string) (lo hi : bound) (st : InMemoryStore.t) :
  zsetInvariant st -> zsetInvariant (InMemoryStore.zremrangebyscore key lo hi st).2.
Proof.
  intros Hinv k zs. unfold InMemoryStore.zremrangebyscore, zremrangebyscore.
  destruct (InMemoryStore.zsetStore st !! key) as [[| e zs0] |] eqn:Hk0;
    cbn [snd InMemoryStore.zsetStore InMemoryStore.withZ]; try apply Hinv.
  pose proof (NoDup_members_filter (fun e => negb (inRange lo hi e)) (e :: zs0)
                (proj1 (Hinv key _ Hk0))) as Hnd.
  destruct (List.filter (fun e => negb (inRange lo hi e)) (e :: zs0)) as [| e' kept];
    cbn [snd InMemoryStore.zsetStore InMemoryStore.withZ].
  - destruct (decide (key = k)) as [<- | Hne].
    + rewrite lookup_delete_eq. discriminate.
    + rewrite lookup_delete_ne by exact Hne. apply Hinv.
  - destruct (decide (key = k)) as [<- | Hne].
    + rewrite lookup_insert_eq. intros [= <-]. split; [exact Hnd | discriminate].
    + rewrite lookup_insert_ne by exact Hne. apply Hinv.
Qed.

Lemma mapDelete_absent (member : string) (zs : list (string * Z)) :
  mapGet member zs = None -> mapDelete member zs = zs.
Proof.
  unfold mapDelete. induction zs as [| [a s] r IH]; simpl; [reflexivity |].
  destruct (String.eqb_spec a member); simpl; [discriminate |].
  intros H. rewrite (IH H). reflexivity.
Qed.

Lemma mapDelete_present_length (member : string) (zs : list (string * Z)) :
  NoDup (map fst zs) -> mapHas member zs = true ->
  length zs = S (length (mapDelete member zs)).
Proof.
  unfold mapHas. induction zs as [| [a s] r IH]; [discriminate |].
  intros Hnd. apply NoDup_cons in Hnd as [Hnot Hnd].
  change (mapGet member ((a, s) :: r))
    with (if String.eqb a member then Some s else mapGet member r).
  change (mapDelete member ((a, s) :: r))
    with (if negb (String.eqb a member) then (a, s) :: mapDelete member r
          else mapDelete member r).
  destruct (String.eqb_spec a member) as [-> | Hne]; cbn [negb]; intros H.
  - rewrite mapDelete_absent; [reflexivity |].
    apply mapGet_None_iff. intros Hin. apply Hnot, list_elem_of_In, Hin.
  - simpl. rewrite (IH Hnd H). reflexivity.
Qed.

Lemma zrem_fold (members : list string) (n : Z) (zs : list (string * Z)) :
  NoDup (map fst zs) ->
  let r := foldl (fun (acc : Z * list (string * Z)) (m : string) =>
                    if mapHas m acc.2 then (acc.1 + 1, mapDelete m acc.2) else acc)
                 (n, zs) members in
  r.2 = List.filter (fun e => negb (existsb (String.eqb e.1) members)) zs /\
  r.1 = n + Z.of_nat (length zs) - Z.of_nat (length r.2) /\
  NoDup (map fst r.2).
Proof.
  revert n zs. induction members as [| m ms IH]; intros n zs Hnd.
  - cbn [foldl existsb negb fst snd]. split; [| split; [lia | exact Hnd]].
    clear. induction zs as [| e r IHr]; simpl; [reflexivity |].
    rewrite <- IHr. reflexivity.
  - assert (Hfil : forall l : list (string * Z),
               List.filter (fun e => negb (existsb (String.eqb e.1) ms)) (mapDelete m l) =
               List.filter (fun e => negb (existsb (String.eqb e.1) (m :: ms))) l).
    { intros l. unfold mapDelete. rewrite filter_filter_and.
      apply List.filter_ext. intros e. cbn [existsb]. rewrite negb_orb. reflexivity. }
    cbn [foldl fst snd].
    destruct (mapHas m zs) eqn:Hhas.
    + destruct (IH (n + 1) (mapDelete m zs) (NoDup_members_filter _ _ Hnd))
        as (H1 & H2 & H3).
      split; [rewrite H1; apply Hfil | split; [| exact H3]].
      rewrite H2, (mapDelete_present_length m zs Hnd Hhas). lia.
    + destruct (IH n zs Hnd) as (H1 & H2 & H3).
      split; [| split; [exact H2 | exact H3]].
      rewrite H1. rewrite <- (mapDelete_absent m zs) at 1; [apply Hfil |].
      unfold mapHas in Hhas. destruct (mapGet m zs); [discriminate | reflexivity].
Qed.

Lemma zsetInvariant_zrem (key : string) (members : list string) (st : InMemoryStore.t) :
  zsetInvariant st -> zsetInvariant (InMemoryStore.zrem key members st).2.
Proof.
  intros Hinv k zs. unfold InMemoryStore.zrem, zrem.
  destruct (InMemoryStore.zsetStore st !! key) as [zs0 |] eqn:Hk0;
    [| cbn [snd InMemoryStore.zsetStore InMemoryStore.withZ]; apply Hinv].
  destruct (zrem_fold members 0 zs0 (proj1 (Hinv key zs0 Hk0))) as (H1 & H2 & H3).
  destruct (foldl _ (0, zs0) members) as [removed kept].
  cbn [fst snd] in *.
  destruct (decide (key = k)) as [<- | Hne].
  - destruct kept as [| e kept']; cbn [snd InMemoryStore.zsetStore InMemoryStore.withZ].
    + rewrite lookup_delete_eq. discriminate.
    + rewrite lookup_insert_eq. intros [= <-]. split; [exact H3 | discriminate].
  - destruct kept; cbn [snd InMemoryStore.zsetStore InMemoryStore.withZ];
      [rewrite lookup_delete_ne by exact Hne | rewrite lookup_insert_ne by exact Hne];
      apply Hinv.
Qed.

Lemma zsetStore_run (now : Z) (cmd : InMemoryPipeline.Command) (st : InMemoryStore.t) :
  zsetInvariant st -> zsetInvariant (InMemoryPipeline.run now cmd st).2.
Proof.
  intros Hinv. destruct cmd; cbn [InMemoryPipeline.run].
  - pose proof (zsetInvariant_zadd key member score st Hinv) as H.
    destruct (InMemoryStore.zadd key score member st). exact H.
  - pose proof (zsetInvariant_zremrangebyscore key lo hi st Hinv) as H.
    destruct (InMemoryStore.zremrangebyscore key lo hi st). exact H.
  - exact Hinv.
  - exact Hinv.
  - unfold InMemoryStore.expire.
    destruct (InMemoryMap.expire key seconds now (InMemoryStore.mapStore st)). exact Hinv.
  - exact Hinv.
Qed.

Lemma zsetInvariant_exec (now : Z) (commands : list InMemoryPipeline.Command)
  (st : InMemoryStore.t) :
  zsetInvariant st -> zsetInvariant (InMemoryPipeline.exec now commands st).2.
Proof.
  revert st. induction commands as [| cmd rest IH]; intros st Hinv; [exact Hinv |].
  cbn [InMemoryPipeline.exec].
  pose proof (zsetStore_run now cmd st Hinv) as H1.
  destruct (InMemoryPipeline.run now cmd st) as [r st1].
  pose proof (IH st1 H1) as H2.
  destruct (InMemoryPipeline.exec now rest st1) as [results st2]. exact H2.
Qed.

End ZSetInvariant.

(** X2.  The sorted-set store keeps its shape: starting from the empty store,
    [zadd], [zrem], [zremrangebyscore], a pipeline of any commands and the
    window and session scripts leave every stored set with one entry per
    member and never leave an empty set under a key. *)
Theorem X2_zset_invariant_kept :
  zsetInvariant InMemoryStore.empty /\
  forall st, zsetInvariant st ->
    (forall key score member,
        zsetInvariant (InMemoryStore.zadd key score member st).2) /\
    (forall key members, zsetInvariant (InMemoryStore.zrem key members st).2) /\
    (forall key lo hi, zsetInvariant (InMemoryStore.zremrangebyscore key lo hi st).2) /\
    (forall now commands, zsetInvariant (InMemoryPipeline.exec now commands st).2) /\
    (forall key cost now windowMs,
        zsetInvariant (RollingWindow.trackCost5hRollingWindow key cost now windowMs st).2 /\
        zsetInvariant (RollingWindow.getCost5hRollingWindow key now windowMs st).2) /\
    (forall key sessionId limit now,
        zsetInvariant (SessionScript.checkAndTrackSession key sessionId limit now st).2).
Proof.
  split.
  - apply zsetInvariant_empty.
  - intros st Hinv.
    split; [intros; apply zsetInvariant_zadd, Hinv |].
    split; [intros; apply zsetInvariant_zrem, Hinv |].
    split; [intros; apply zsetInvariant_zremrangebyscore, Hinv |].
    split; [intros; apply zsetInvariant_exec, Hinv |].
    split.
    + intros key cost now windowMs. split.
      * unfold RollingWindow.trackCost5hRollingWindow. cbn [snd].
        apply zsetInvariant_zadd, zsetInvariant_zremrangebyscore, Hinv.
      * unfold RollingWindow.getCost5hRollingWindow. cbn [snd].
        apply zsetInvariant_zremrangebyscore, Hinv.
    + intros key sessionId limit now.
      unfold SessionScript.checkAndTrackSession. cbv zeta.
      repeat match goal with |- context [if ?b then _ else _] => destruct b end;
        cbn [snd]; try apply zsetInvariant_zadd;
        apply zsetInvariant_zremrangebyscore, Hinv.
Qed.

Lemma X2_zset_invariant_kept_witness :
  zsetInvariant InMemoryStore.empty /\
  zsetInvariant (InMemoryStore.zrem "k" ["a"%string]
                   (InMemoryStore.zadd "k" 5 "a" InMemoryStore.empty).2).2.
Proof.
  destruct X2_zset_invariant_kept as [H0 H]. split; [exact H0 |].
  apply H. apply H. exact H0.
Defined.

Section ZSetRanges.

Import InMemoryZSet.

Lemma mapGet_filter (f : string * Z -> bool) (member : string) (zs : list (string * Z)) :
  NoDup (map fst zs) ->
  mapGet member (List.filter f zs) =
  match mapGet member zs with
  | Some s => if f (member, s) then Some s else None
  | None => None
  end.
Proof.
  induction zs as [| [a s] r IH]; [reflexivity |].
  intros Hnd. apply NoDup_cons in Hnd as [Hnot Hnd].
  change (mapGet member ((a, s) :: r))
    with (if String.eqb a member then Some s else mapGet member r).
  change (List.filter f ((a, s) :: r))
    with (if f (a, s) then (a, s) :: List.filter f r else List.filter f r).
  destruct (String.eqb_spec a member) as [-> | Hne].
  - destruct (f (member, s)); simpl.
    + rewrite String.eqb_refl. reflexivity.
    + rewrite (IH Hnd).
      assert (Hg : mapGet member r = None).
      { apply mapGet_None_iff. intros Hin. apply Hnot, list_elem_of_In, Hin. }
      rewrite Hg. reflexivity.
  - destruct (f (a, s)); simpl; [| exact (IH Hnd)].
    destruct (String.eqb_spec a member); [contradiction | exact (IH Hnd)].
Qed.

Lemma zsetOf_NoDup (key : string) (st : InMemoryStore.t) :
  zsetInvariant st -> NoDup (map fst (zsetOf key st)).
Proof.
  intros Hinv. unfold zsetOf.
  destruct (InMemoryStore.zsetStore st !! key) as [zs |] eqn:Hk; simpl.
  - exact (proj1 (Hinv key zs Hk)).
  - constructor.
Qed.

Lemma sortInsert_sorted {A} (key : A -> Z) (x : A) (l : list A) :
  StronglySorted (fun a b => key a <= key b) l ->
  StronglySorted (fun a b => key a <= key b) (Js.sortInsert key x l).
Proof.
  induction l as [| y r IH]; simpl; intros Hs.
  - repeat constructor.
  - apply StronglySorted_inv in Hs as [Hr Hy].
    destruct (Z.leb_spec (key x) (key y)) as [Hle | Hgt].
    + constructor; [constructor; assumption |].
      constructor; [exact Hle |].
      eapply Forall_impl; [exact Hy |]. intros z Hz. simpl in Hz. lia.
    + constructor; [exact (IH Hr) |].
      rewrite sortInsert_Permutation. constructor; [lia | exact Hy].
Qed.

Lemma sortBy_sorted {A} (key : A -> Z) (l : list A) :
  StronglySorted (fun a b => key a <= key b) (Js.sortBy key l).
Proof.
  induction l as [| x r IH]; simpl; [constructor | apply sortInsert_sorted, IH].
Qed.

Lemma sorted_scores (zs l : list (string * Z)) :
  NoDup (map fst zs) -> (forall e, In e l -> In e zs) ->
  StronglySorted (fun a b : string * Z => a.2 <= b.2) l ->
  StronglySorted Z.le (map (fun m => default 0 (mapGet m zs)) (map fst l)).
Proof.
  intros Hnd Hsub Hs. rewrite map_map.
  assert (Hsnd : forall e, In e l -> default 0 (mapGet e.1 zs) = e.2).
  { intros [m s] He. simpl. rewrite (In_mapGet m s zs Hnd (Hsub _ He)). reflexivity. }
  clear Hnd Hsub. induction Hs as [| e r Hr IH Hall]; simpl; [constructor |].
  constructor.
  - apply IH. intros x Hx. apply Hsnd. right. exact Hx.
  - rewrite Forall_map. rewrite Forall_forall in Hall. apply Forall_forall.
    intros x Hx. apply list_elem_of_In in Hx as Hx'.
    rewrite (Hsnd e (or_introl eq_refl)), (Hsnd x (or_intror Hx')).
    apply Hall, Hx.
Qed.

End ZSetRanges.

(** X3.  On a well-formed store [zremrangebyscore] removes exactly the
    members whose score lies in the closed range: afterwards such a member
    has no score, every other member keeps its score, other keys are
    untouched, and the result is the number of members removed. *)
Theorem X3_zremrangebyscore_exact (key : string) (lo hi : InMemoryZSet.bound)
  (st : InMemoryStore.t) :
  zsetInvariant st ->
  let r := InMemoryStore.zremrangebyscore key lo hi st in
  (forall member,
      InMemoryStore.zscore key member r.2 =
      match InMemoryStore.zscore key member st with
      | Some s => if scoreInRange lo hi s then None else Some s
      | None => None
      end) /\
  (forall key', key' <> key ->
      InMemoryStore.zsetStore r.2 !! key' = InMemoryStore.zsetStore st !! key') /\
  r.1 = InMemoryStore.zcard key st - InMemoryStore.zcard key r.2 /\
  0 <= r.1.
Proof.
  intros Hinv r. subst r. split; [| split; [| split]].
  - intros member. rewrite !zscore_mapGet, zsetOf_zremrangebyscore_range.
    rewrite mapGet_filter by (apply zsetOf_NoDup, Hinv).
    destruct (InMemoryZSet.mapGet member (zsetOf key st)) as [s |]; [| reflexivity].
    unfold InMemoryZSet.inRange, scoreInRange. simpl.
    destruct (InMemoryZSet.geBound s lo && InMemoryZSet.leBound s hi); reflexivity.
  - intros key' Hne. apply zsetOf_zremrangebyscore_other. congruence.
  - rewrite !zcard_length, zsetOf_zremrangebyscore_range.
    unfold InMemoryStore.zremrangebyscore, InMemoryZSet.zremrangebyscore, zsetOf.
    destruct (InMemoryStore.zsetStore st !! key) as [[| e zs] |] eqn:Hk;
      cbn [fst default from_option id]; reflexivity.
  - unfold InMemoryStore.zremrangebyscore, InMemoryZSet.zremrangebyscore.
    destruct (InMemoryStore.zsetStore st !! key) as [[| e zs] |]; cbn [fst]; try lia.
    pose proof (List.filter_length_le
                  (fun e0 => negb (InMemoryZSet.inRange lo hi e0)) (e :: zs)). lia.
Qed.

Lemma X3_zremrangebyscore_exact_witness :
  let st := (InMemoryStore.zadd "k" 20 "b" (InMemoryStore.zadd "k" 10 "a"
               InMemoryStore.empty).2).2 in
  let r := InMemoryStore.zremrangebyscore "k" InMemoryZSet.NegInf (InMemoryZSet.Num 10) st in
  zsetInvariant st /\
  InMemoryStore.zscore "k" "a" r.2 = None /\
  InMemoryStore.zscore "k" "b" r.2 = Some 20 /\
  r.1 = 1.
Proof.
  intros st r.
  assert (Hinv : zsetInvariant st).
  { apply zsetInvariant_zadd, zsetInvariant_zadd, zsetInvariant_empty. }
  destruct (X3_zremrangebyscore_exact "k" InMemoryZSet.NegInf (InMemoryZSet.Num 10) st Hinv)
    as (Hscore & _ & Hcount & _).
  split; [exact Hinv | split; [| split]].
  - unfold r. rewrite (Hscore "a"%string). reflexivity.
  - unfold r. rewrite (Hscore "b"%string). reflexivity.
  - unfold r. rewrite Hcount. reflexivity.
Defined.

(** X4.  On a well-formed store [zrangebyscore] returns exactly the members
    whose score lies in the closed range, each once, by ascending score; and
    [zrange(key, 0, -1)] returns every member once, by ascending score. *)
Theorem X4_range_reads_sorted (key : string) (lo hi : InMemoryZSet.bound)
  (st : InMemoryStore.t) :
  zsetInvariant st ->
  let byScore := InMemoryStore.zrangebyscore key lo hi st in
  let everything := InMemoryStore.zrange key 0 (-1) st in
  let scoreOf := fun member => default 0 (InMemoryStore.zscore key member st) in
  (forall member,
      In member byScore <->
      exists s, InMemoryStore.zscore key member st = Some s /\ scoreInRange lo hi s = true) /\
  NoDup byScore /\
  StronglySorted Z.le (map scoreOf byScore) /\
  (forall member,
      In member everything <-> exists s, InMemoryStore.zscore key member st = Some s) /\
  Z.of_nat (length everything) = InMemoryStore.zcard key st /\
  StronglySorted Z.le (map scoreOf everything).
Proof.
  intros Hinv byScore everything scoreOf.
  pose proof (zsetOf_NoDup key st Hinv) as Hnd.
  assert (HbyScore : byScore =
            map fst (Js.sortBy snd (List.filter (InMemoryZSet.inRange lo hi) (zsetOf key st)))).
  { subst byScore. unfold InMemoryStore.zrangebyscore, InMemoryZSet.zrangebyscore, zsetOf.
    destruct (InMemoryStore.zsetStore st !! key) as [[| e zs] |]; reflexivity. }
  assert (Hscore : forall m, scoreOf m = default 0 (InMemoryZSet.mapGet m (zsetOf key st))).
  { intros m. subst scoreOf. cbv beta. rewrite zscore_mapGet. reflexivity. }
  split; [| split; [| split; [| split; [| split]]]].
  - intros member. rewrite HbyScore, zscore_mapGet. split.
    + intros Hin. apply in_map_iff in Hin as ([m s] & <- & Hin).
      apply (Permutation_in _ (sortBy_Permutation snd _)) in Hin.
      apply List.filter_In in Hin as [Hin Hr]. exists s. split; [| exact Hr].
      apply In_mapGet; assumption.
    + intros (s & Hg & Hr). apply in_map_iff. exists (member, s). split; [reflexivity |].
      apply (Permutation_in _ (Permutation_sym (sortBy_Permutation snd _))).
      apply List.filter_In. split; [apply mapGet_In, Hg | exact Hr].
  - rewrite HbyScore.
    rewrite (Permutation_map fst (sortBy_Permutation snd
               (List.filter (InMemoryZSet.inRange lo hi) (zsetOf key st)))).
    apply NoDup_members_filter, Hnd.
  - rewrite HbyScore. erewrite map_ext by apply Hscore.
    apply sorted_scores; [exact Hnd | | apply sortBy_sorted].
    intros e He. apply (Permutation_in _ (sortBy_Permutation snd _)) in He.
    apply List.filter_In in He. tauto.
  - intros member. subst everything. rewrite zrange_all, zscore_mapGet. split.
    + intros Hin. apply in_map_iff in Hin as ([m s] & <- & Hin).
      apply (Permutation_in _ (sortBy_Permutation snd _)) in Hin.
      exists s. apply In_mapGet; assumption.
    + intros (s & Hg). apply in_map_iff. exists (member, s). split; [reflexivity |].
      apply (Permutation_in _ (Permutation_sym (sortBy_Permutation snd _))).
      apply mapGet_In, Hg.
  - subst everything. rewrite zrange_all, zcard_length, length_map.
    rewrite (Permutation_length (sortBy_Permutation snd (zsetOf key st))). reflexivity.
  - subst everything. rewrite zrange_all. erewrite map_ext by apply Hscore.
    apply sorted_scores; [exact Hnd | | apply sortBy_sorted].
    intros e He. apply (Permutation_in _ (sortBy_Permutation snd _)) in He. exact He.
Qed.

Lemma X4_range_reads_sorted_witness :
  let st := (InMemoryStore.zadd "k" 10 "b" (InMemoryStore.zadd "k" 20 "a"
               InMemoryStore.empty).2).2 in
  zsetInvariant st /\
  StronglySorted Z.le
    (map (fun member => default 0 (InMemoryStore.zscore "k" member st))
         (InMemoryStore.zrange "k" 0 (-1) st)).
Proof.
  intros st.
  assert (Hinv : zsetInvariant st).
  { apply zsetInvariant_zadd, zsetInvariant_zadd, zsetInvariant_empty. }
  split; [exact Hinv |].
  exact (proj2 (proj2 (proj2 (proj2 (proj2
           (X4_range_reads_sorted "k" InMemoryZSet.NegInf InMemoryZSet.PosInf st Hinv)))))).
Defined.

(** X5.  On a well-formed store [zrem] removes the listed members and nothing
    else: a listed member has no score afterwards, an unlisted member keeps
    its score, and the result is the number of members removed. *)
Theorem X5_zrem_exact (key : string) (members : list string) (st : InMemoryStore.t) :
  zsetInvariant st ->
  let r := InMemoryStore.zrem key members st in
  (forall member, In member members -> InMemoryStore.zscore key member r.2 = None) /\
  (forall member, ~ In member members ->
      InMemoryStore.zscore key member r.2 = InMemoryStore.zscore key member st) /\
  r.1 = InMemoryStore.zcard key st - InMemoryStore.zcard key r.2.
Proof.
  intros Hinv r.
  assert (Hr : zsetOf key r.2 =
               List.filter (fun e => negb (existsb (String.eqb e.1) members)) (zsetOf key st)
               /\ r.1 = Z.of_nat (length (zsetOf key st)) - Z.of_nat (length (zsetOf key r.2))).
  { subst r. unfold InMemoryStore.zrem, InMemoryZSet.zrem, zsetOf.
    destruct (InMemoryStore.zsetStore st !! key) as [zs0 |] eqn:Hk0.
    - destruct (zrem_fold members 0 zs0 (proj1 (Hinv key zs0 Hk0))) as (H1 & H2 & _).
      destruct (foldl _ (0, zs0) members) as [removed kept]. cbn [fst snd] in *.
      change (default [] (Some zs0)) with zs0.
      destruct kept as [| e kept']; cbn [fst snd InMemoryStore.zsetStore InMemoryStore.withZ].
      + rewrite lookup_delete_eq. simpl. split; [exact H1 | simpl in H2; lia].
      + rewrite lookup_insert_eq. simpl. split; [exact H1 | simpl in H2; lia].
    - cbn [fst snd InMemoryStore.zsetStore InMemoryStore.withZ]. rewrite Hk0. simpl.
      split; [reflexivity | lia]. }
  destruct Hr as [Hz Hn].
  assert (Hlisted : forall (m : string) (s : Z),
             existsb (String.eqb (m, s).1) members = true <-> In m members).
  { intros m s. rewrite existsb_exists. simpl. split.
    - intros (x & Hx & Heq). apply String.eqb_eq in Heq. subst x. exact Hx.
    - intros Hin. exists m. split; [exact Hin | apply String.eqb_refl]. }
  split; [| split].
  - intros member Hin. rewrite zscore_mapGet, Hz.
    rewrite mapGet_filter by (apply zsetOf_NoDup, Hinv).
    destruct (InMemoryZSet.mapGet member (zsetOf key st)) as [s |]; [| reflexivity].
    rewrite (proj2 (Hlisted member s) Hin). reflexivity.
  - intros member Hnot. rewrite !zscore_mapGet, Hz.
    rewrite mapGet_filter by (apply zsetOf_NoDup, Hinv).
    destruct (InMemoryZSet.mapGet member (zsetOf key st)) as [s |]; [| reflexivity].
    destruct (existsb (String.eqb (member, s).1) members) eqn:He; [| reflexivity].
    apply Hlisted in He. contradiction.
  - rewrite !zcard_length. exact Hn.
Qed.

Lemma X5_zrem_exact_witness :
  let st := (InMemoryStore.zadd "k" 20 "b" (InMemoryStore.zadd "k" 10 "a"
               InMemoryStore.empty).2).2 in
  let r := InMemoryStore.zrem "k" ["a"%string; "c"%string] st in
  zsetInvariant st /\
  InMemoryStore.zscore "k" "a" r.2 = None /\
  InMemoryStore.zscore "k" "b" r.2 = Some 20.
Proof.
  intros st r.
  assert (Hinv : zsetInvariant st).
  { apply zsetInvariant_zadd, zsetInvariant_zadd, zsetInvariant_empty. }
  destruct (X5_zrem_exact "k" ["a"%string; "c"%string] st Hinv) as (Hgone & Hkept & _).
  split; [exact Hinv | split].
  - apply Hgone. left. reflexivity.
  - unfold r. rewrite Hkept; [reflexivity |].
    intros [H | [H | []]]; discriminate.
Defined.

(** ** The string store: expiry, conditional set, counters, hashes *)

Section MapFacts.

Import InMemoryMap.

Lemma get_insert_eq (key : string) (e : CacheEntry) (now : Z) (d : InMemoryMap.t) :
  get key now (<[key := e]> d) =
  if isExpired now e then (None, delete key (<[key := e]> d))
  else (Some (value e), <[key := e]> d).
Proof. unfold get. rewrite lookup_insert_eq. reflexivity. Qed.

Lemma store_get_fst (key : string) (now : Z) (st : InMemoryStore.t) :
  (InMemoryStore.get key now st).1 = (get key now (InMemoryStore.mapStore st)).1.
Proof.
  unfold InMemoryStore.get. destruct (get key now (InMemoryStore.mapStore st)). reflexivity.
Qed.

Lemma store_get_map (key : string) (now : Z) (st : InMemoryStore.t) :
  InMemoryStore.mapStore (InMemoryStore.get key now st).2 =
  (get key now (InMemoryStore.mapStore st)).2.
Proof.
  unfold InMemoryStore.get. destruct (get key now (InMemoryStore.mapStore st)). reflexivity.
Qed.

(** What a read returns, in terms of the stored entry. *)
Lemma get_fst (key : string) (now : Z) (d : InMemoryMap.t) :
  (get key now d).1 =
  match d !! key with
  | Some e => if isExpired now e then None else Some (value e)
  | None => None
  end.
Proof. unfold get. destruct (d !! key) as [e |]; [destruct (isExpired now e) |]; reflexivity. Qed.

End MapFacts.

(** X6.  An entry written by [setex(key, seconds, value)] at time [t] is
    read back until [t + seconds * 1000] excluded: a [get] before that
    instant returns the value, a [get] at or after it returns [null] and
    removes the entry, and [exists] agrees with [get].  An entry written by
    [set] is read back at every time. *)
Theorem X6_setex_expiry_boundary (key val : string) (seconds t t' : Z)
  (st : InMemoryStore.t) :
  let st1 := InMemoryStore.setex key seconds val t st in
  (t' < t + seconds * 1000 ->
   (InMemoryStore.get key t' st1).1 = Some val /\
   InMemoryStore.exists_ [key] t' st1 = 1) /\
  (t + seconds * 1000 <= t' ->
   (InMemoryStore.get key t' st1).1 = None /\
   InMemoryStore.mapStore (InMemoryStore.get key t' st1).2 !! key = None /\
   InMemoryStore.exists_ [key] t' st1 = 0) /\
  (InMemoryStore.get key t' (InMemoryStore.set key val st)).1 = Some val.
Proof.
  intros st1. subst st1.
  unfold InMemoryStore.exists_, InMemoryMap.exists_. cbn [foldl].
  rewrite !store_get_fst, store_get_map, !get_fst.
  unfold InMemoryStore.setex, InMemoryStore.set, InMemoryMap.setex, InMemoryMap.set.
  cbn [InMemoryStore.mapStore InMemoryStore.withM].
  unfold InMemoryMap.get. rewrite !lookup_insert_eq.
  unfold InMemoryMap.isExpired. cbn [InMemoryMap.expiry InMemoryMap.value].
  split; [| split; [| reflexivity]].
  - intros Hlt. destruct (Z.leb_spec (t + seconds * 1000) t'); [lia |]. auto.
  - intros Hge. destruct (Z.leb_spec (t + seconds * 1000) t'); [| lia].
    cbn [snd]. rewrite lookup_delete_eq. auto.
Qed.

Lemma X6_setex_expiry_boundary_witness :
  let st1 := InMemoryStore.setex "k" 5 "v" 1000 InMemoryStore.empty in
  5999 < 1000 + 5 * 1000 /\
  (InMemoryStore.get "k" 5999 st1).1 = Some "v"%string /\
  InMemoryStore.exists_ ["k"%string] 5999 st1 = 1.
Proof.
  intros st1.
  assert (H : 5999 < 1000 + 5 * 1000) by lia.
  split; [exact H |].
  exact (proj1 (X6_setex_expiry_boundary "k" "v" 5 1000 5999 InMemoryStore.empty) H).
Defined.

(** X7.  [set(key, value, "EX", seconds, "NX")] is a set-if-absent with
    expiry.  When the key holds no live entry the call answers "OK" and the
    value is read back; a second such call before the expiry answers [null]
    and changes nothing, so the first value stays; a second call at or after
    the expiry succeeds. *)
Theorem X7_set_if_absent (key v1 v2 : string) (sec1 sec2 now now2 : Z)
  (st : InMemoryStore.t) :
  (InMemoryStore.get key now st).1 = None ->
  let first := InMemoryStore.setWith key v1 true (Some sec1) true now st in
  let second := InMemoryStore.setWith key v2 true (Some sec2) true now2 first.2 in
  first.1 = Some "OK"%string /\
  (now2 < now + sec1 * 1000 ->
   second = (None, first.2) /\ (InMemoryStore.get key now2 second.2).1 = Some v1) /\
  (now + sec1 * 1000 <= now2 ->
   second.1 = Some "OK"%string /\
   (now2 < now2 + sec2 * 1000 -> (InMemoryStore.get key now2 second.2).1 = Some v2)).
Proof.
  intros Hfree first second.
  rewrite store_get_fst, get_fst in Hfree.
  assert (Hfirst : first = (Some "OK"%string,
            InMemoryStore.withM st
              (<[key := {| InMemoryMap.value := v1;
                           InMemoryMap.expiry := Some (now + sec1 * 1000) |}]>
                 (InMemoryStore.mapStore st)))).
  { subst first. unfold InMemoryStore.setWith, InMemoryMap.setWithOptions. cbn [orb andb].
    destruct (InMemoryStore.mapStore st !! key) as [e |]; [| reflexivity].
    destruct (InMemoryMap.isExpired now e); [reflexivity | discriminate]. }
  subst second. rewrite Hfirst. cbn [fst snd].
  split; [reflexivity |].
  unfold InMemoryStore.setWith, InMemoryMap.setWithOptions. cbn [orb andb].
  cbn [InMemoryStore.mapStore InMemoryStore.withM]. rewrite lookup_insert_eq.
  unfold InMemoryMap.isExpired. cbn [InMemoryMap.expiry].
  split.
  - intros Hlt. destruct (Z.leb_spec (now + sec1 * 1000) now2); [lia |]. cbn [negb].
    split; [reflexivity |].
    cbn [snd]. rewrite store_get_fst, get_fst.
    cbn [InMemoryStore.mapStore InMemoryStore.withM]. rewrite lookup_insert_eq.
    unfold InMemoryMap.isExpired. cbn [InMemoryMap.expiry InMemoryMap.value].
    destruct (Z.leb_spec (now + sec1 * 1000) now2); [lia | reflexivity].
  - intros Hge. destruct (Z.leb_spec (now + sec1 * 1000) now2); [| lia]. cbn [negb fst snd].
    split; [reflexivity |]. intros Hpos.
    rewrite store_get_fst, get_fst.
    cbn [InMemoryStore.mapStore InMemoryStore.withM]. rewrite lookup_insert_eq.
    unfold InMemoryMap.isExpired. cbn [InMemoryMap.expiry InMemoryMap.value].
    destruct (Z.leb_spec (now2 + sec2 * 1000) now2); [lia | reflexivity].
Qed.

Lemma X7_set_if_absent_witness :
  let first := InMemoryStore.setWith "lock" "a" true (Some 10) true 0 InMemoryStore.empty in
  let second := InMemoryStore.setWith "lock" "b" true (Some 10) true 9999 first.2 in
  (InMemoryStore.get "lock" 0 InMemoryStore.empty).1 = None /\
  first.1 = Some "OK"%string /\
  second = (None, first.2) /\
  (InMemoryStore.get "lock" 9999 second.2).1 = Some "a"%string.
Proof.
  intros first second.
  assert (H : (InMemoryStore.get "lock" 0 InMemoryStore.empty).1 = None) by reflexivity.
  destruct (X7_set_if_absent "lock" "a" "b" 10 10 0 9999 InMemoryStore.empty H)
    as (H1 & H2 & _).
  split; [exact H | split; [exact H1 |]].
  apply H2. lia.
Defined.

Section CounterFacts.

Import InMemoryMap.


Lemma liveNumber_get (key : string) (now : Z) (d : InMemoryMap.t) :
  (liveNumber Js.parseInt key now d).1 =
  match (get key now d).1 with
  | Some v => default 0 (Js.parseInt v)
  | None => 0
  end.
Proof.
  rewrite get_fst. unfold liveNumber.
  destruct (d !! key) as [e |]; [destruct (isExpired now e) |]; reflexivity.
Qed.

(** The expiry kept by a numeric operation is the one of the live entry. *)
Lemma liveNumber_expiry (parse : string -> option Z) (key : string) (now : Z)
  (d : InMemoryMap.t) :
  (liveNumber parse key now d).2 =
  match d !! key with
  | Some e => if isExpired now e then None else expiry e
  | None => None
  end.
Proof.
  unfold liveNumber.
  destruct (d !! key) as [e |]; [destruct (isExpired now e) |]; reflexivity.
Qed.

Lemma liveNumber_not_expired (parse : string -> option Z) (key : string) (now : Z)
  (d : InMemoryMap.t) (v : string) :
  isExpired now {| value := v; expiry := (liveNumber parse key now d).2 |} = false.
Proof.
  rewrite liveNumber_expiry. unfold isExpired at 1. cbn [expiry].
  destruct (d !! key) as [e |]; [| reflexivity].
  destruct (isExpired now e) eqn:He; [reflexivity |].
  unfold isExpired in He. exact He.
Qed.

Lemma incr_unfold (key : string) (now : Z) (d : InMemoryMap.t) :
  incr key now d =
  ((liveNumber Js.parseInt key now d).1 + 1,
   <[key := {| value := Js.numberToString ((liveNumber Js.parseInt key now d).1 + 1);
               expiry := (liveNumber Js.parseInt key now d).2 |}]> d).
Proof. unfold incr. destruct (liveNumber Js.parseInt key now d). reflexivity. Qed.

Lemma decr_unfold (key : string) (now : Z) (d : InMemoryMap.t) :
  decr key now d =
  ((liveNumber Js.parseInt key now d).1 - 1,
   <[key := {| value := Js.numberToString ((liveNumber Js.parseInt key now d).1 - 1);
               expiry := (liveNumber Js.parseInt key now d).2 |}]> d).
Proof. unfold decr. destruct (liveNumber Js.parseInt key now d). reflexivity. Qed.

Lemma store_incr_unfold (key : string) (now : Z) (st : InMemoryStore.t) :
  InMemoryStore.incr key now st =
  ((incr key now (InMemoryStore.mapStore st)).1,
   InMemoryStore.withM st (incr key now (InMemoryStore.mapStore st)).2).
Proof.
  unfold InMemoryStore.incr. destruct (incr key now (InMemoryStore.mapStore st)). reflexivity.
Qed.

Lemma store_decr_unfold (key : string) (now : Z) (st : InMemoryStore.t) :
  InMemoryStore.decr key now st =
  ((decr key now (InMemoryStore.mapStore st)).1,
   InMemoryStore.withM st (decr key now (InMemoryStore.mapStore st)).2).
Proof.
  unfold InMemoryStore.decr. destruct (decr key now (InMemoryStore.mapStore st)). reflexivity.
Qed.

(** The number read by a numeric operation on an entry just written by one. *)
Lemma liveNumber_written (key : string) (now n : Z) (exp : option Z) (d : InMemoryMap.t) :
  isExpired now {| value := Js.numberToString n; expiry := exp |} = false ->
  liveNumber Js.parseInt key now
    (<[key := {| value := Js.numberToString n; expiry := exp |}]> d) = (n, exp).
Proof.
  intros Hlive. unfold liveNumber. rewrite lookup_insert_eq, Hlive.
  cbn [value expiry]. rewrite parseInt_numberToString. reflexivity.
Qed.

End CounterFacts.

(** X8.  [incr] adds one to the number held by the live entry (0 when the
    key is absent, expired or not a number), stores its rendering, and
    returns it; a [decr] straight after gives the previous number back.  The
    time to live is the one of the live entry: a counter created by [incr]
    never expires, and a counter that was live keeps its expiry instant. *)
Theorem X8_counter_keeps_ttl (key : string) (now : Z) (st : InMemoryStore.t) :
  let current := match (InMemoryStore.get key now st).1 with
                 | Some v => default 0 (Js.parseInt v)
                 | None => 0
                 end in
  let up := InMemoryStore.incr key now st in
  up.1 = current + 1 /\
  (InMemoryStore.get key now up.2).1 = Some (Js.numberToString (current + 1)) /\
  (InMemoryStore.decr key now up.2).1 = current /\
  ((InMemoryStore.get key now st).1 = None ->
   forall t, (InMemoryStore.get key t up.2).1 = Some "1"%string) /\
  ((InMemoryStore.get key now st).1 <> None ->
   forall t, (InMemoryStore.get key t st).1 = None <->
             (InMemoryStore.get key t up.2).1 = None).
Proof.
  intros current up. subst current up.
  rewrite store_incr_unfold. cbn [fst snd].
  rewrite store_decr_unfold. cbn [fst].
  rewrite (store_get_fst key now st), <- liveNumber_get.
  rewrite incr_unfold. cbn [fst snd InMemoryStore.mapStore InMemoryStore.withM].
  set (n := (InMemoryMap.liveNumber Js.parseInt key now (InMemoryStore.mapStore st)).1).
  pose proof (liveNumber_not_expired Js.parseInt key now (InMemoryStore.mapStore st)
                (Js.numberToString (n + 1))) as Hlive.
  split; [reflexivity |].
  split.
  { rewrite store_get_fst, get_fst.
    cbn [InMemoryStore.mapStore InMemoryStore.withM].
    rewrite lookup_insert_eq, Hlive. reflexivity. }
  split.
  { rewrite decr_unfold. cbn [fst].
    rewrite liveNumber_written by exact Hlive. cbn [fst]. lia. }
  split.
  - intros Hnone t. rewrite store_get_fst, get_fst.
    cbn [InMemoryStore.mapStore InMemoryStore.withM]. rewrite lookup_insert_eq.
    subst n. rewrite liveNumber_get, liveNumber_expiry, Hnone.
    rewrite get_fst in Hnone.
    destruct (InMemoryStore.mapStore st !! key) as [e |]; [| reflexivity].
    destruct (InMemoryMap.isExpired now e); [reflexivity | discriminate].
  - intros Hsome t. rewrite !store_get_fst, !get_fst.
    cbn [InMemoryStore.mapStore InMemoryStore.withM]. rewrite lookup_insert_eq.
    rewrite liveNumber_expiry. rewrite get_fst in Hsome.
    destruct (InMemoryStore.mapStore st !! key) as [e |]; [| congruence].
    destruct (InMemoryMap.isExpired now e); [congruence |].
    unfold InMemoryMap.isExpired. cbn [InMemoryMap.expiry InMemoryMap.value].
    destruct (InMemoryMap.expiry e) as [x |]; [destruct (x <=? t) |];
      split; intros H; congruence.
Qed.

Lemma X8_counter_keeps_ttl_witness :
  let st := InMemoryStore.setex "n" 5 "41" 0 InMemoryStore.empty in
  (InMemoryStore.get "n" 1000 st).1 <> None /\
  (InMemoryStore.incr "n" 1000 st).1 = 42 /\
  (InMemoryStore.get "n" 5000 (InMemoryStore.incr "n" 1000 st).2).1 = None.
Proof.
  intros st.
  assert (Hlive : (InMemoryStore.get "n" 1000 st).1 <> None) by discriminate.
  destruct (X8_counter_keeps_ttl "n" 1000 st) as (H1 & _ & _ & _ & H5).
  split; [exact Hlive |]. split; [exact H1 |].
  apply (H5 Hlive 5000). reflexivity.
Defined.

(** ** The per-session concurrency counter *)

Section ConcurrentCount.

Import InMemoryMap SessionTracker.

Lemma store_expire_unfold (key : string) (seconds now : Z) (st : InMemoryStore.t) :
  InMemoryStore.expire key seconds now st =
  ((expire key seconds now (InMemoryStore.mapStore st)).1,
   InMemoryStore.withM st (expire key seconds now (InMemoryStore.mapStore st)).2).
Proof.
  unfold InMemoryStore.expire.
  destruct (expire key seconds now (InMemoryStore.mapStore st)). reflexivity.
Qed.

Lemma store_del_unfold (keys : list string) (st : InMemoryStore.t) :
  InMemoryStore.del keys st =
  ((del keys (InMemoryStore.mapStore st)).1,
   InMemoryStore.withM st (del keys (InMemoryStore.mapStore st)).2).
Proof.
  unfold InMemoryStore.del. destruct (del keys (InMemoryStore.mapStore st)). reflexivity.
Qed.

Lemma usable_ready (c : option InMemoryStore.t) (st : InMemoryStore.t) :
  usable c = Some st -> c = Some st /\ InMemoryStore.isReady st = true.
Proof.
  unfold usable. destruct c as [s |]; [| discriminate].
  destruct (InMemoryStore.isReady s) eqn:Hr; [| discriminate].
  intros [= <-]. auto.
Qed.

Lemma usable_withM (st : InMemoryStore.t) (m : InMemoryMap.t) :
  InMemoryStore.isReady st = true ->
  usable (Some (InMemoryStore.withM st m)) = Some (InMemoryStore.withM st m).
Proof.
  intros Hr. unfold usable.
  replace (InMemoryStore.isReady (InMemoryStore.withM st m)) with true; reflexivity || auto.
Qed.

(** What [getConcurrentCount] answers on a usable client, from the entry. *)
Lemma getConcurrentCount_fst (s : string) (now : Z) (st : InMemoryStore.t) :
  usable (Some st) = Some st ->
  (getConcurrentCount s now (Some st)).1 =
  match InMemoryStore.mapStore st !! concurrentKey s with
  | Some e =>
      if isExpired now e then Some 0
      else match value e with
           | EmptyString => Some 0
           | text => Js.parseInt text
           end
  | None => Some 0
  end.
Proof.
  intros Hu. unfold getConcurrentCount. rewrite Hu.
  unfold InMemoryStore.get, get.
  destruct (InMemoryStore.mapStore st !! concurrentKey s) as [e |]; [| reflexivity].
  destruct (isExpired now e); [reflexivity |]. cbn [fst].
  destruct (value e); reflexivity.
Qed.

Lemma numberToString_nonempty (z : Z) : Js.numberToString z <> ""%string.
Proof.
  intros H. pose proof (parseInt_numberToString z) as Hp. rewrite H in Hp. discriminate.
Qed.

(** The counter read back from an entry holding the rendering of [n]. *)
Lemma count_of_rendering (n : Z) :
  match Js.numberToString n with
  | EmptyString => Some 0
  | text => Js.parseInt text
  end = Some n.
Proof.
  pose proof (numberToString_nonempty n) as Hne.
  pose proof (parseInt_numberToString n) as Hp.
  destruct (Js.numberToString n); [congruence | exact Hp].
Qed.

(** The number the numeric operations see is the count that is read. *)
Lemma liveNumber_count (s : string) (now k : Z) (st : InMemoryStore.t) :
  usable (Some st) = Some st ->
  (getConcurrentCount s now (Some st)).1 = Some k ->
  (liveNumber Js.parseInt (concurrentKey s) now (InMemoryStore.mapStore st)).1 = k.
Proof.
  intros Hu. rewrite getConcurrentCount_fst by exact Hu. unfold liveNumber.
  destruct (InMemoryStore.mapStore st !! concurrentKey s) as [e |]; [| intros [= <-]; reflexivity].
  destruct (isExpired now e); [intros [= <-]; reflexivity |].
  cbn [fst]. destruct (value e) as [| a r] eqn:Hv.
  - intros [= <-]. reflexivity.
  - intros ->. reflexivity.
Qed.

End ConcurrentCount.

(** X9.  On a usable client whose counter for the session reads [k]:
    after [incrementConcurrentCount] at time [now] the counter reads
    [k + 1] until [now + 600000] excluded and 0 from then on (the ten-minute
    guard against leaked counts); after [decrementConcurrentCount] it reads
    [max 0 (k - 1)], and the key is deleted when the count falls to 0 or
    below, so a negative count is never served. *)
Theorem X9_concurrent_count (s : string) (now k : Z)
  (c : option InMemoryStore.t) (st : InMemoryStore.t) :
  SessionTracker.usable c = Some st ->
  (SessionTracker.getConcurrentCount s now c).1 = Some k ->
  (forall t, t < now + 600000 ->
     (SessionTracker.getConcurrentCount s t
        (SessionTracker.incrementConcurrentCount s now c)).1 = Some (k + 1)) /\
  (forall t, now + 600000 <= t ->
     (SessionTracker.getConcurrentCount s t
        (SessionTracker.incrementConcurrentCount s now c)).1 = Some 0) /\
  (forall t, now <= t ->
     exists k', 0 <= k' <= Z.max 0 (k - 1) /\
     (SessionTracker.getConcurrentCount s t
        (SessionTracker.decrementConcurrentCount s now c)).1 = Some k') /\
  (SessionTracker.getConcurrentCount s now
     (SessionTracker.decrementConcurrentCount s now c)).1 = Some (Z.max 0 (k - 1)) /\
  (k <= 1 ->
   exists st', SessionTracker.decrementConcurrentCount s now c = Some st' /\
               InMemoryStore.mapStore st' !! SessionTracker.concurrentKey s = None).
Proof.
  intros Hu Hk.
  destruct (usable_ready c st Hu) as [-> Hready].
  pose proof (liveNumber_count s now k st Hu Hk) as Hn.
  unfold SessionTracker.incrementConcurrentCount, SessionTracker.decrementConcurrentCount.
  rewrite Hu.
  rewrite store_incr_unfold, store_decr_unfold. cbn [fst snd].
  rewrite store_expire_unfold. cbn [snd InMemoryStore.mapStore InMemoryStore.withM].
  rewrite incr_unfold, decr_unfold. cbn [fst snd]. rewrite Hn.
  pose proof (liveNumber_not_expired Js.parseInt (SessionTracker.concurrentKey s) now
                (InMemoryStore.mapStore st)) as Hlive.
  unfold InMemoryMap.expire. rewrite lookup_insert_eq, Hlive.
  cbn [snd InMemoryMap.value]. rewrite insert_insert_eq.
  split; [| split; [| split; [| split]]].
  - intros t Ht. rewrite getConcurrentCount_fst by (apply usable_withM; exact Hready).
    cbn [InMemoryStore.mapStore InMemoryStore.withM]. rewrite lookup_insert_eq.
    unfold InMemoryMap.isExpired. cbn [InMemoryMap.expiry InMemoryMap.value].
    destruct (Z.leb_spec (now + 600 * 1000) t); [lia |].
    apply count_of_rendering.
  - intros t Ht. rewrite getConcurrentCount_fst by (apply usable_withM; exact Hready).
    cbn [InMemoryStore.mapStore InMemoryStore.withM]. rewrite lookup_insert_eq.
    unfold InMemoryMap.isExpired. cbn [InMemoryMap.expiry InMemoryMap.value].
    destruct (Z.leb_spec (now + 600 * 1000) t); [reflexivity | lia].
  - intros t Ht. destruct (Z.leb_spec (k - 1) 0) as [Hle | Hgt].
    + exists 0. split; [lia |].
      rewrite store_del_unfold. cbn [snd].
      rewrite getConcurrentCount_fst by (apply usable_withM; exact Hready).
      cbn [InMemoryStore.mapStore InMemoryStore.withM].
      unfold InMemoryMap.del. cbn [foldl snd fst]. rewrite lookup_insert_eq.
      cbn [snd]. rewrite lookup_delete_eq. reflexivity.
    + rewrite getConcurrentCount_fst by (apply usable_withM; exact Hready).
      cbn [InMemoryStore.mapStore InMemoryStore.withM]. rewrite lookup_insert_eq.
      cbn [InMemoryMap.value].
      destruct (InMemoryMap.isExpired t _).
      * exists 0. split; [lia | reflexivity].
      * exists (k - 1). split; [lia | apply count_of_rendering].
  - destruct (Z.leb_spec (k - 1) 0) as [Hle | Hgt].
    + rewrite store_del_unfold. cbn [snd].
      rewrite getConcurrentCount_fst by (apply usable_withM; exact Hready).
      cbn [InMemoryStore.mapStore InMemoryStore.withM].
      unfold InMemoryMap.del. cbn [foldl snd fst]. rewrite lookup_insert_eq.
      cbn [snd]. rewrite lookup_delete_eq. f_equal. lia.
    + rewrite getConcurrentCount_fst by (apply usable_withM; exact Hready).
      cbn [InMemoryStore.mapStore InMemoryStore.withM]. rewrite lookup_insert_eq.
      rewrite Hlive. cbn [InMemoryMap.value].
      rewrite count_of_rendering. f_equal. lia.
  - intros Hk1. destruct (Z.leb_spec (k - 1) 0) as [Hle | Hgt]; [| lia].
    eexists. split; [reflexivity |].
    rewrite store_del_unfold. cbn [snd InMemoryStore.mapStore InMemoryStore.withM].
    unfold InMemoryMap.del. cbn [foldl snd fst]. rewrite lookup_insert_eq.
    cbn [snd]. apply lookup_delete_eq.
Qed.

Lemma X9_concurrent_count_witness :
  let c := Some InMemoryStore.empty in
  SessionTracker.usable c = Some InMemoryStore.empty /\
  (SessionTracker.getConcurrentCount "s" 0 c).1 = Some 0 /\
  (SessionTracker.getConcurrentCount "s" 599999
     (SessionTracker.incrementConcurrentCount "s" 0 c)).1 = Some (0 + 1).
Proof.
  intros c.
  assert (Hu : SessionTracker.usable c = Some InMemoryStore.empty) by reflexivity.
  assert (Hk : (SessionTracker.getConcurrentCount "s" 0 c).1 = Some 0) by reflexivity.
  split; [exact Hu |]. split; [exact Hk |].
  apply (proj1 (X9_concurrent_count "s" 0 0 c InMemoryStore.empty Hu Hk)). lia.
Defined.

(** ** Hash fields *)

Section HashFacts.

Import InMemoryMap.

Lemma string_app_assoc (a b c : string) : ((a ++ b) ++ c = a ++ (b ++ c))%string.
Proof.
  induction a as [| x a IH]; [reflexivity |].
  change (String x ((a ++ b) ++ c) = String x (a ++ (b ++ c)))%string.
  rewrite IH. reflexivity.
Qed.

Lemma string_app_inv_head (a b c : string) : (a ++ b = a ++ c)%string -> b = c.
Proof.
  induction a as [| x a IH]; [auto |].
  change (String x (a ++ b) = String x (a ++ c) -> b = c)%string.
  intros [= H]. auto.
Qed.

Lemma hashKey_inj_field (key f1 f2 : string) : hashKey key f1 = hashKey key f2 -> f1 = f2.
Proof.
  unfold hashKey. intros H. apply string_app_inv_head in H.
  change (String ":" f1 = String ":" f2) in H. congruence.
Qed.

(** A field whose name holds a colon is the field of a longer hash too. *)
Lemma hashKey_colon (key f1 f2 : string) :
  hashKey key (f1 ++ ":" ++ f2) = hashKey (key ++ ":" ++ f1) f2.
Proof.
  unfold hashKey. rewrite !string_app_assoc. reflexivity.
Qed.

Lemma hget_fst (key field : string) (now : Z) (d : InMemoryMap.t) :
  (hget key field now d).1 = (get (hashKey key field) now d).1.
Proof.
  unfold hget, get.
  destruct (d !! hashKey key field) as [e |]; [destruct (isExpired now e) |]; reflexivity.
Qed.

Lemma hsetAll_other (key f : string) (fields : list (string * string))
  (n : Z) (d : InMemoryMap.t) :
  f ∉ map fst fields ->
  (foldl (fun acc fv =>
            ((match acc.2 !! hashKey key fv.1 with
              | Some _ => acc.1
              | None => acc.1 + 1
              end),
             <[hashKey key fv.1 := {| value := fv.2; expiry := None |}]> acc.2))
         (n, d) fields).2 !! hashKey key f = d !! hashKey key f.
Proof.
  revert n d. induction fields as [| [g w] fields IH]; intros n d Hnot; [reflexivity |].
  cbn [foldl map fst snd] in *. apply not_elem_of_cons in Hnot as [Hne Hnot].
  rewrite IH by exact Hnot. cbn [snd].
  apply lookup_insert_ne. intros He. apply Hne. symmetry.
  exact (hashKey_inj_field key g f He).
Qed.

Lemma hsetAll_listed (key f v : string) (fields : list (string * string))
  (n : Z) (d : InMemoryMap.t) :
  NoDup (map fst fields) -> (f, v) ∈ fields ->
  (foldl (fun acc fv =>
            ((match acc.2 !! hashKey key fv.1 with
              | Some _ => acc.1
              | None => acc.1 + 1
              end),
             <[hashKey key fv.1 := {| value := fv.2; expiry := None |}]> acc.2))
         (n, d) fields).2 !! hashKey key f = Some {| value := v; expiry := None |}.
Proof.
  revert n d. induction fields as [| [g w] fields IH]; intros n d Hnd Hin.
  - apply elem_of_nil in Hin. destruct Hin.
  - cbn [map fst] in Hnd. apply NoDup_cons in Hnd as [Hfresh Hnd].
    apply elem_of_cons in Hin as [Heq | Hin].
    + injection Heq as -> ->. cbn [foldl fst snd].
      rewrite hsetAll_other by exact Hfresh. cbn [snd]. apply lookup_insert_eq.
    + cbn [foldl]. apply IH; assumption.
Qed.

End HashFacts.

(** X10.  A hash field is the plain entry stored under [key:field].  A
    field written by [hset] is read back by [hget] and by [get] on
    [key:field], at every time; the fields of an object passed to [hset]
    are each read back; and because only the joined text is stored, a field
    whose name holds a colon is read back as a field of the longer hash
    [key:f1] as well. *)
Theorem X10_hash_round_trip (key field v : string) (now : Z) (st : InMemoryStore.t) :
  let st1 := (InMemoryStore.hset key field v st).2 in
  (InMemoryStore.hget key field now st1).1 = Some v /\
  (InMemoryStore.get (key ++ ":" ++ field) now st1).1 = Some v /\
  (InMemoryStore.hset key field v st1).1 = 0 /\
  (forall f1 f2, field = (f1 ++ ":" ++ f2)%string ->
     (InMemoryStore.hget (key ++ ":" ++ f1) f2 now st1).1 = Some v) /\
  (forall fields f w d, NoDup (map fst fields) -> (f, w) ∈ fields ->
     (InMemoryMap.hget key f now (InMemoryMap.hsetAll key fields d).2).1 = Some w).
Proof.
  intros st1. subst st1.
  unfold InMemoryStore.hset, InMemoryStore.hget, InMemoryMap.hset.
  cbn [fst snd InMemoryStore.mapStore InMemoryStore.withM].
  assert (Hread : forall k f, InMemoryMap.hashKey k f = InMemoryMap.hashKey key field ->
            InMemoryMap.hget k f now
              (<[InMemoryMap.hashKey key field :=
                   {| InMemoryMap.value := v; InMemoryMap.expiry := None |}]>
                 (InMemoryStore.mapStore st)) =
            (Some v,
             <[InMemoryMap.hashKey key field :=
                 {| InMemoryMap.value := v; InMemoryMap.expiry := None |}]>
               (InMemoryStore.mapStore st))).
  { intros k f He. unfold InMemoryMap.hget. rewrite He, lookup_insert_eq. reflexivity. }
  split; [rewrite Hread by reflexivity; reflexivity |].
  split.
  { rewrite store_get_fst, get_fst. cbn [InMemoryStore.mapStore InMemoryStore.withM].
    change (key ++ ":" ++ field)%string with (InMemoryMap.hashKey key field).
    rewrite lookup_insert_eq. reflexivity. }
  split; [rewrite lookup_insert_eq; reflexivity |].
  split.
  - intros f1 f2 ->. rewrite Hread; [reflexivity |].
    symmetry. apply hashKey_colon.
  - intros fields f w d Hnd Hin. rewrite hget_fst, get_fst.
    unfold InMemoryMap.hsetAll.
    rewrite (hsetAll_listed key f w fields 0 d Hnd Hin). reflexivity.
Qed.

Lemma X10_hash_round_trip_witness :
  (InMemoryStore.hget "session:7" "info" 0
     (InMemoryStore.hset "session" "7:info" "x" InMemoryStore.empty).2).1
  = Some "x"%string.
Proof.
  assert (H : "7:info"%string = ("7" ++ ":" ++ "info")%string) by reflexivity.
  destruct (X10_hash_round_trip "session" "7:info" "x" 0 InMemoryStore.empty)
    as (_ & _ & _ & Hcolon & _).
  exact (Hcolon "7"%string "info"%string H).
Defined.

(** ** The periodic sweep *)

(** X11.  The sweep of the string store is invisible to reads: at the
    time of the sweep and at every later time, [get] returns on the swept
    store what it returns on the store as it was.  Every entry that is left
    is an entry that was there and that the sweep does not select. *)
Theorem X11_cleanup_invisible (now t : Z) (key : string) (d : InMemoryMap.t) :
  now <= t ->
  (InMemoryMap.get key t (InMemoryMap.cleanup now d)).1 = (InMemoryMap.get key t d).1 /\
  (forall e, InMemoryMap.cleanup now d !! key = Some e ->
             d !! key = Some e /\ InMemoryMap.sweepable now e = false) /\
  (forall e, d !! key = Some e -> InMemoryMap.isExpired now e = false ->
             InMemoryMap.cleanup now d !! key = Some e).
Proof.
  intros Hle. unfold InMemoryMap.cleanup.
  split; [| split].
  - rewrite !get_fst.
    destruct (d !! key) as [e |] eqn:Hd.
    + destruct (InMemoryMap.sweepable now e) eqn:Hs.
      * rewrite (proj2 (map_lookup_filter_None _ d key)).
        -- unfold InMemoryMap.sweepable in Hs. unfold InMemoryMap.isExpired.
           destruct (InMemoryMap.expiry e) as [x |]; [| discriminate].
           apply andb_true_iff in Hs as [_ Hx]. apply Z.leb_le in Hx.
           destruct (Z.leb_spec x t); [reflexivity | lia].
        -- right. intros e' He'. rewrite Hd in He'. injection He' as <-.
           cbn [snd]. congruence.
      * rewrite (proj2 (map_lookup_filter_Some _ d key e)); [reflexivity |].
        split; [exact Hd | exact Hs].
    + rewrite (proj2 (map_lookup_filter_None _ d key)); [reflexivity |].
      left. exact Hd.
  - intros e He. apply map_lookup_filter_Some in He. exact He.
  - intros e Hd Hlive. apply map_lookup_filter_Some. split; [exact Hd |].
    cbn [snd]. unfold InMemoryMap.sweepable. unfold InMemoryMap.isExpired in Hlive.
    destruct (InMemoryMap.expiry e) as [x |]; [| reflexivity].
    rewrite Hlive. apply andb_false_r.
Qed.

Lemma X11_cleanup_invisible_witness :
  let d := InMemoryMap.setex "a" 1 "x" 0 (InMemoryMap.set "b" "y" ∅) in
  60000 <= 60001 /\
  (InMemoryMap.get "a" 60001 (InMemoryMap.cleanup 60000 d)).1 =
  (InMemoryMap.get "a" 60001 d).1.
Proof.
  intros d.
  assert (H : 60000 <= 60001) by lia.
  split; [exact H |].
  exact (proj1 (X11_cleanup_invisible 60000 60001 "a" d H)).
Defined.

(** ** The pipeline *)

Section PipelineFacts.

Import InMemoryPipeline.

Lemma exec_cons (now : Z) (cmd : Command) (rest : list Command) (st : InMemoryStore.t) :
  exec now (cmd :: rest) st =
  ((None, (run now cmd st).1) :: (exec now rest (run now cmd st).2).1,
   (exec now rest (run now cmd st).2).2).
Proof.
  cbn [exec]. destruct (run now cmd st) as [r st1]. cbn [fst snd].
  destruct (exec now rest st1). reflexivity.
Qed.

Lemma run_status (now : Z) (cmd : Command) (st : InMemoryStore.t) :
  InMemoryStore.status (run now cmd st).2 = InMemoryStore.status st.
Proof.
  destruct cmd; cbn [run].
  - unfold InMemoryStore.zadd. destruct (InMemoryZSet.zadd _ _ _ _). reflexivity.
  - unfold InMemoryStore.zremrangebyscore.
    destruct (InMemoryZSet.zremrangebyscore _ _ _ _). reflexivity.
  - reflexivity.
  - reflexivity.
  - unfold InMemoryStore.expire. destruct (InMemoryMap.expire _ _ _ _). reflexivity.
  - reflexivity.
Qed.

End PipelineFacts.

(** ** The session scripts *)

Section ScriptFacts.

Import InMemoryZSet SessionScript.

Lemma mapHas_mapGet (member : string) (zs : list (string * Z)) :
  mapHas member zs = match mapGet member zs with Some _ => true | None => false end.
Proof. reflexivity. Qed.

Lemma zsetOf_trim_NoDup (key key' : string) (m : Z) (st : InMemoryStore.t) :
  zsetInvariant st ->
  NoDup (map fst (zsetOf key'
    (InMemoryStore.zremrangebyscore key NegInf (Num m) st).2)).
Proof.
  intros Hinv. apply zsetOf_NoDup. apply zsetInvariant_zremrangebyscore. exact Hinv.
Qed.

Lemma zsetOf_zremrangebyscore_other_key (key key' : string) (lo hi : bound)
  (st : InMemoryStore.t) :
  key <> key' ->
  zsetOf key' (InMemoryStore.zremrangebyscore key lo hi st).2 = zsetOf key' st.
Proof.
  intros Hne. unfold zsetOf. rewrite zsetOf_zremrangebyscore_other by exact Hne. reflexivity.
Qed.

End ScriptFacts.

(** X13.  A session that is already in the provider's set and was seen
    less than five minutes ago is always admitted again, whatever the limit
    and the number of sessions: the call reports [tracked = false] and the
    count of the trimmed set unchanged, and refreshes the session's
    timestamp to [now] without changing any other member. *)
Theorem X13_tracked_session_readmitted
  (providerKey sessionId : string) (limit now seen : Z) (st : InMemoryStore.t) :
  zsetInvariant st ->
  InMemoryStore.zscore providerKey sessionId st = Some seen ->
  now - 300000 < seen ->
  let trimmed := (InMemoryStore.zremrangebyscore providerKey InMemoryZSet.NegInf
                    (InMemoryZSet.Num (now - 300000)) st).2 in
  let r := SessionScript.checkAndTrackSession providerKey sessionId limit now st in
  SessionScript.allowed r.1 = true /\
  SessionScript.tracked r.1 = false /\
  SessionScript.currentCount r.1 = InMemoryStore.zcard providerKey trimmed /\
  InMemoryStore.zcard providerKey r.2 = InMemoryStore.zcard providerKey trimmed /\
  InMemoryStore.zscore providerKey sessionId r.2 = Some now /\
  (forall other, other <> sessionId ->
     InMemoryStore.zscore providerKey other r.2 =
     InMemoryStore.zscore providerKey other trimmed).
Proof.
  intros Hinv Hseen Hlive trimmed r.
  assert (Htracked : InMemoryStore.zscore providerKey sessionId trimmed = Some seen).
  { subst trimmed. rewrite zscore_mapGet, zsetOf_zremrangebyscore.
    rewrite mapGet_filter by (apply zsetOf_NoDup; exact Hinv).
    rewrite <- zscore_mapGet, Hseen. cbn [snd].
    destruct (Z.ltb_spec (now - 300000) seen); [reflexivity | lia]. }
  assert (Hr : r = ({| SessionScript.allowed := true;
                       SessionScript.currentCount := InMemoryStore.zcard providerKey trimmed;
                       SessionScript.tracked := false |},
                    (InMemoryStore.zadd providerKey now sessionId trimmed).2)).
  { subst r. unfold SessionScript.checkAndTrackSession. fold trimmed.
    rewrite Htracked. cbn [negb]. rewrite andb_false_r. reflexivity. }
  rewrite Hr. cbn [fst snd SessionScript.allowed SessionScript.tracked
                   SessionScript.currentCount].
  split; [reflexivity |]. split; [reflexivity |]. split; [reflexivity |].
  rewrite !zcard_length, !zscore_mapGet, zsetOf_zadd.
  rewrite zscore_mapGet in Htracked.
  split; [| split].
  - rewrite mapSet_length, mapHas_mapGet, Htracked. f_equal. lia.
  - apply mapGet_mapSet_eq.
  - intros other Hne. rewrite !zscore_mapGet, zsetOf_zadd.
    apply mapGet_mapSet_ne. exact Hne.
Qed.

Lemma X13_tracked_session_readmitted_witness :
  let st := (InMemoryStore.zadd "p" 1000 "s2"
               (InMemoryStore.zadd "p" 1000 "s1" InMemoryStore.empty).2).2 in
  zsetInvariant st /\
  InMemoryStore.zscore "p" "s1" st = Some 1000 /\
  2000 - 300000 < 1000 /\
  SessionScript.allowed (SessionScript.checkAndTrackSession "p" "s1" 1 2000 st).1 = true.
Proof.
  intros st.
  assert (Hinv : zsetInvariant st)
    by (apply zsetInvariant_zadd, zsetInvariant_zadd, zsetInvariant_empty).
  assert (Hs : InMemoryStore.zscore "p" "s1" st = Some 1000) by reflexivity.
  assert (Hl : 2000 - 300000 < 1000) by lia.
  split; [exact Hinv |]. split; [exact Hs |]. split; [exact Hl |].
  exact (proj1 (X13_tracked_session_readmitted "p" "s1" 1 2000 1000 st Hinv Hs Hl)).
Defined.

Section BatchFacts.

Import InMemoryZSet SessionScript.

Lemma batch_cons (providerKey : string) (keys : list string) (limits : list Z)
  (now : Z) (st : InMemoryStore.t) :
  let st1 := (InMemoryStore.zremrangebyscore providerKey NegInf
                (Num (now - 300000)) st).2 in
  batchCheckSessionLimits (providerKey :: keys) limits now st =
  ({| batchAllowed :=
        negb match head limits with
             | Some l => (0 <? l) && (l <=? InMemoryStore.zcard providerKey st1)
             | None => false
             end;
      batchCount := InMemoryStore.zcard providerKey st1 |}
   :: (batchCheckSessionLimits keys (tail limits) now st1).1,
   (batchCheckSessionLimits keys (tail limits) now st1).2).
Proof.
  intros st1. cbn [batchCheckSessionLimits]. fold st1.
  destruct (batchCheckSessionLimits keys (tail limits) now st1). reflexivity.
Qed.

(** Trimming adds no member and changes no score. *)
Lemma trim_zscore_sub (key key' member : string) (lo hi : bound) (s : Z)
  (st : InMemoryStore.t) :
  zsetInvariant st ->
  InMemoryStore.zscore key' member (InMemoryStore.zremrangebyscore key lo hi st).2 = Some s ->
  InMemoryStore.zscore key' member st = Some s.
Proof.
  intros Hinv. rewrite !zscore_mapGet.
  destruct (decide (key = key')) as [<- | Hne].
  - rewrite zsetOf_zremrangebyscore_range.
    rewrite mapGet_filter by (apply zsetOf_NoDup; exact Hinv).
    destruct (mapGet member (zsetOf key st)) as [s' |]; [| discriminate].
    destruct (negb (inRange lo hi (member, s'))); [auto | discriminate].
  - rewrite zsetOf_zremrangebyscore_other_key by exact Hne. auto.
Qed.

Lemma batch_facts (keys : list string) (limits : list Z) (now : Z) (st : InMemoryStore.t) :
  zsetInvariant st ->
  length (batchCheckSessionLimits keys limits now st).1 = length keys /\
  zsetInvariant (batchCheckSessionLimits keys limits now st).2 /\
  (forall key member s,
     InMemoryStore.zscore key member (batchCheckSessionLimits keys limits now st).2 = Some s ->
     InMemoryStore.zscore key member st = Some s) /\
  (forall key, key ∉ keys ->
     zsetOf key (batchCheckSessionLimits keys limits now st).2 = zsetOf key st).
Proof.
  revert limits st. induction keys as [| k keys IH]; intros limits st Hinv.
  - cbn [batchCheckSessionLimits fst snd length]. auto.
  - rewrite batch_cons. cbn [fst snd length].
    pose proof (zsetInvariant_zremrangebyscore k NegInf (Num (now - 300000)) st Hinv)
      as Hinv1.
    destruct (IH (tail limits) _ Hinv1) as (Hlen & Hinv2 & Hsub & Hother).
    split; [rewrite Hlen; reflexivity |].
    split; [exact Hinv2 |].
    split.
    + intros key member s Hs. apply Hsub in Hs.
      exact (trim_zscore_sub k key member _ _ s st Hinv Hs).
    + intros key Hnot. apply not_elem_of_cons in Hnot as [Hne Hnot].
      rewrite Hother by exact Hnot.
      apply zsetOf_zremrangebyscore_other_key. congruence.
Qed.

End BatchFacts.

(** X14.  [batchCheckSessionLimits] is a probe: it answers one result per
    provider key, adds no member and changes no score (it only trims), and
    leaves the sets of the keys it was not given as they were.  For one
    provider and a session that is not in its set, the probe and
    [checkAndTrackSession] agree at the same instant: the same verdict, and
    on a refusal the same count. *)
Theorem X14_batch_probe (keys : list string) (limits : list Z) (now : Z)
  (st : InMemoryStore.t) :
  zsetInvariant st ->
  let r := SessionScript.batchCheckSessionLimits keys limits now st in
  length r.1 = length keys /\
  (forall key member s,
     InMemoryStore.zscore key member r.2 = Some s ->
     InMemoryStore.zscore key member st = Some s) /\
  (forall key, key ∉ keys -> zsetOf key r.2 = zsetOf key st) /\
  (forall providerKey sessionId limit,
     InMemoryStore.zscore providerKey sessionId st = None ->
     let admission :=
       (SessionScript.checkAndTrackSession providerKey sessionId limit now st).1 in
     exists probe,
       (SessionScript.batchCheckSessionLimits [providerKey] [limit] now st).1 = [probe] /\
       SessionScript.batchAllowed probe = SessionScript.allowed admission /\
       (SessionScript.allowed admission = false ->
        SessionScript.batchCount probe = SessionScript.currentCount admission)).
Proof.
  intros Hinv r. subst r.
  destruct (batch_facts keys limits now st Hinv) as (Hlen & _ & Hsub & Hother).
  split; [exact Hlen |]. split; [exact Hsub |]. split; [exact Hother |].
  intros providerKey sessionId limit Hnew admission. subst admission.
  rewrite batch_cons. cbn [fst snd head tail SessionScript.batchCheckSessionLimits].
  eexists. split; [reflexivity |]. cbn [SessionScript.batchAllowed SessionScript.batchCount].
  unfold SessionScript.checkAndTrackSession.
  set (trimmed := (InMemoryStore.zremrangebyscore providerKey InMemoryZSet.NegInf
                     (InMemoryZSet.Num (now - 300000)) st).2).
  assert (Hnone : InMemoryStore.zscore providerKey sessionId trimmed = None).
  { destruct (InMemoryStore.zscore providerKey sessionId trimmed) as [s |] eqn:Hs;
      [| reflexivity].
    apply (trim_zscore_sub providerKey providerKey sessionId _ _ s st Hinv) in Hs.
    congruence. }
  rewrite Hnone. cbn [negb]. rewrite andb_true_r.
  destruct ((0 <? limit) && (limit <=? InMemoryStore.zcard providerKey trimmed));
    cbn [negb fst SessionScript.allowed SessionScript.currentCount];
    split; [reflexivity | reflexivity | reflexivity | discriminate].
Qed.

Lemma X14_batch_probe_witness :
  let st := (InMemoryStore.zadd "p" 1000 "s1" InMemoryStore.empty).2 in
  zsetInvariant st /\
  length (SessionScript.batchCheckSessionLimits ["p"; "q"]%string [1] 2000 st).1
  = length ["p"; "q"]%string.
Proof.
  intros st.
  assert (Hinv : zsetInvariant st) by (apply zsetInvariant_zadd, zsetInvariant_empty).
  split; [exact Hinv |].
  exact (proj1 (X14_batch_probe ["p"; "q"]%string [1] 2000 st Hinv)).
Defined.

Section DuplicateEvents.

Import InMemoryZSet RollingWindow.

Lemma mapSet_idem (member : string) (score : Z) (zs : list (string * Z)) :
  mapSet member score (mapSet member score zs) = mapSet member score zs.
Proof.
  induction zs as [| [m s] r IH]; cbn [mapSet].
  - rewrite String.eqb_refl. reflexivity.
  - destruct (String.eqb m member) eqn:He; cbn [mapSet]; rewrite He; [reflexivity |].
    rewrite IH. reflexivity.
Qed.

Lemma filter_mapSet_kept (f : string * Z -> bool) (member : string) (score : Z)
  (zs : list (string * Z)) :
  (forall m, f (m, score) = true) ->
  List.filter f (mapSet member score (List.filter f zs)) =
  mapSet member score (List.filter f zs).
Proof.
  intros Hf. induction zs as [| [m s] r IH]; cbn [List.filter mapSet].
  - rewrite Hf. reflexivity.
  - destruct (f (m, s)) eqn:Hms; [| exact IH].
    cbn [mapSet]. destruct (String.eqb m member); cbn [List.filter].
    + rewrite Hf. f_equal.
      clear. induction r as [| e r IH]; cbn [List.filter]; [reflexivity |].
      destruct (f e) eqn:He; [| exact IH]. cbn [List.filter]. rewrite He, IH. reflexivity.
    + rewrite Hms, IH. reflexivity.
Qed.

Lemma track_total (key : string) (c : Js.number) (t w : Z) (st : InMemoryStore.t) :
  (trackCost5hRollingWindow key c t w st).1 =
  Js.toString
    (sumOf (map (fun e => parseCostFromMember e.1)
              (Js.sortBy snd (zsetOf key (trackCost5hRollingWindow key c t w st).2)))).
Proof.
  unfold trackCost5hRollingWindow at 1. cbn [fst].
  rewrite calculateTotalCost_sum. reflexivity.
Qed.

End DuplicateEvents.

(** X15.  Cost events are stored under the member [time:cost], so an event
    repeated with the same cost in the same millisecond is recorded once:
    with a positive window, tracking it a second time returns the same
    total and leaves the same entries as tracking it once. *)
Theorem X15_duplicate_event_counted_once (key : string) (cost : Js.number)
  (nowMs windowMs : Z) (st : InMemoryStore.t) :
  0 < windowMs ->
  let once := RollingWindow.trackCost5hRollingWindow key cost nowMs windowMs st in
  let twice := RollingWindow.trackCost5hRollingWindow key cost nowMs windowMs once.2 in
  twice.1 = once.1 /\
  zsetOf key twice.2 = zsetOf key once.2 /\
  InMemoryStore.zcard key twice.2 = InMemoryStore.zcard key once.2.
Proof.
  intros Hw once twice.
  assert (Hsame : zsetOf key twice.2 = zsetOf key once.2).
  { subst twice once. rewrite !track_zsetOf.
    rewrite filter_mapSet_kept.
    - apply mapSet_idem.
    - intros m. cbn [snd]. apply Z.ltb_lt. lia. }
  split; [| split; [exact Hsame |]].
  - subst twice once. rewrite !track_total.
    fold (RollingWindow.trackCost5hRollingWindow key cost nowMs windowMs st) in *.
    rewrite Hsame. reflexivity.
  - rewrite !zcard_length, Hsame. reflexivity.
Qed.

Lemma X15_duplicate_event_counted_once_witness :
  0 < 18000000 /\
  (RollingWindow.trackCost5hRollingWindow "k" (num "7") 1000 18000000
     (RollingWindow.trackCost5hRollingWindow "k" (num "7") 1000 18000000
        InMemoryStore.empty).2).1 =
  (RollingWindow.trackCost5hRollingWindow "k" (num "7") 1000 18000000
     InMemoryStore.empty).1.
Proof.
  assert (H : 0 < 18000000) by lia.
  split; [exact H |].
  exact (proj1 (X15_duplicate_event_counted_once "k" (num "7") 1000 18000000
                  InMemoryStore.empty H)).
Defined.

(** ** Counting the active sessions *)

Section CountFacts.

Import InMemoryZSet InMemoryPipeline SessionTracker.

Lemma exec_exists (now : Z) (ids : list string) (st : InMemoryStore.t) :
  exec now (map (fun sessionId => Exists [infoKey sessionId]) ids) st =
  (map (fun sessionId =>
          (None, RNum (InMemoryStore.exists_ [infoKey sessionId] now st))) ids, st).
Proof.
  induction ids as [| sid ids IH]; [reflexivity |].
  cbn [map]. rewrite exec_cons. cbn [run fst snd]. rewrite IH. reflexivity.
Qed.

Lemma count_replies (now : Z) (st : InMemoryStore.t) (ids : list string) (a : Z) :
  foldl (fun count (result : option string * Reply) =>
           match result with
           | (None, RNum 1) => count + 1
           | _ => count
           end) a
        (map (fun sessionId =>
                (None, RNum (InMemoryStore.exists_ [infoKey sessionId] now st))) ids) =
  a + Z.of_nat (length (List.filter (hasLiveInfo now st) ids)).
Proof.
  revert a. induction ids as [| sid ids IH]; intros a; cbn [map foldl List.filter length].
  - lia.
  - rewrite IH. unfold hasLiveInfo at 2.
    destruct (InMemoryStore.exists_ [infoKey sid] now st) as [| [p | p |] | p];
      cbn [Z.eqb Pos.eqb length]; lia.
Qed.

Lemma exists_trim (keys : list string) (now : Z) (key : string) (lo hi : bound)
  (st : InMemoryStore.t) :
  InMemoryStore.exists_ keys now (InMemoryStore.zremrangebyscore key lo hi st).2 =
  InMemoryStore.exists_ keys now st.
Proof.
  unfold InMemoryStore.exists_, InMemoryStore.zremrangebyscore.
  destruct (InMemoryZSet.zremrangebyscore key lo hi (InMemoryStore.zsetStore st)).
  reflexivity.
Qed.

Lemma zrange_all_length (key : string) (st : InMemoryStore.t) :
  Z.of_nat (length (InMemoryStore.zrange key 0 (-1) st)) = InMemoryStore.zcard key st.
Proof.
  rewrite zrange_all, zcard_length, length_map.
  rewrite (Permutation_length (sortBy_Permutation snd (zsetOf key st))). reflexivity.
Qed.

End CountFacts.

(** X16.  [countFromZSet] on a usable client trims the entries scored at or
    before [now - 300000], then counts the remaining members that have a
    live [session:<id>:info] entry in the string store.  The count lies
    between 0 and the size of the trimmed set, and the only thing the call
    changes in the store is the trim. *)
Theorem X16_count_live_sessions (key : string) (now : Z)
  (c : option InMemoryStore.t) (st : InMemoryStore.t) :
  SessionTracker.usable c = Some st ->
  let trimmed := (InMemoryStore.zremrangebyscore key InMemoryZSet.NegInf
                    (InMemoryZSet.Num (now - 300000)) st).2 in
  let r := SessionTracker.countFromZSet key now c in
  r.2 = Some trimmed /\
  r.1 = Z.of_nat (length (List.filter (hasLiveInfo now st)
                            (InMemoryStore.zrange key 0 (-1) trimmed))) /\
  0 <= r.1 <= InMemoryStore.zcard key trimmed.
Proof.
  intros Hu trimmed r.
  assert (Hr : r = (Z.of_nat (length (List.filter (hasLiveInfo now st)
                                (InMemoryStore.zrange key 0 (-1) trimmed))),
                    Some trimmed)).
  { subst r. unfold SessionTracker.countFromZSet. rewrite Hu.
    change (now - SessionTracker.SESSION_TTL) with (now - 300000). fold trimmed.
    destruct (InMemoryStore.zrange key 0 (-1) trimmed) as [| sid ids] eqn:Hids;
      [reflexivity |].
    rewrite exec_exists, count_replies.
    rewrite (List.filter_ext (hasLiveInfo now trimmed) (hasLiveInfo now st));
      [reflexivity |].
    intros s. unfold hasLiveInfo. subst trimmed. rewrite exists_trim. reflexivity. }
  rewrite Hr. cbn [fst snd].
  split; [reflexivity |]. split; [reflexivity |].
  rewrite <- zrange_all_length.
  pose proof (List.filter_length_le (hasLiveInfo now st)
                (InMemoryStore.zrange key 0 (-1) trimmed)). lia.
Qed.

Lemma X16_count_live_sessions_witness :
  let st := InMemoryStore.setex (SessionTracker.infoKey "s1") 300 "x" 0
              (InMemoryStore.zadd "k" 1000 "s2"
                 (InMemoryStore.zadd "k" 1000 "s1" InMemoryStore.empty).2).2 in
  SessionTracker.usable (Some st) = Some st /\
  (SessionTracker.countFromZSet "k" 2000 (Some st)).1 = 1.
Proof.
  intros st.
  assert (Hu : SessionTracker.usable (Some st) = Some st) by reflexivity.
  split; [exact Hu |].
  exact (proj1 (proj2 (X16_count_live_sessions "k" 2000 (Some st) st Hu))).
Defined.

(** ** The user-level checks *)

Section UserChecks.

Import InMemoryZSet InMemoryPipeline RateLimitService.

Lemma zsetOf_expire (key key' : string) (seconds now : Z) (st : InMemoryStore.t) :
  zsetOf key' (InMemoryStore.expire key seconds now st).2 = zsetOf key' st.
Proof.
  unfold InMemoryStore.expire. destruct (InMemoryMap.expire _ _ _ _). reflexivity.
Qed.

Lemma after_length (cutoff : Z) (zs : list (string * Z)) :
  (length (after cutoff zs) <= length zs)%nat.
Proof. apply List.filter_length_le. Qed.

(** The first pipeline of [checkUserRPM]: it trims the window and answers
    the number of requests of the last minute. *)
Lemma countUserRequests_spec (userId now : Z) (st : InMemoryStore.t) :
  countUserRequests userId now st =
  (Z.of_nat (length (after (now - 60000) (zsetOf (rpmKey userId) st))),
   (InMemoryStore.zremrangebyscore (rpmKey userId) NegInf (Num (now - 60000)) st).2).
Proof.
  unfold countUserRequests. fold (rpmKey userId).
  rewrite !exec_cons. cbn [run fst snd exec lookup list_lookup].
  destruct (InMemoryStore.zremrangebyscore (rpmKey userId) NegInf (Num (now - 60000)) st)
    as [removed st1] eqn:Htrim.
  cbn [fst snd]. f_equal.
  rewrite zcard_length.
  replace st1 with (InMemoryStore.zremrangebyscore (rpmKey userId) NegInf
                      (Num (now - 60000)) st).2 by (rewrite Htrim; reflexivity).
  rewrite zsetOf_zremrangebyscore. reflexivity.
Qed.

(** The second half of [checkUserRPM]: a refusal changes nothing, an
    admission adds the request to the window. *)
Lemma admitUserRequest_spec (userId rpmLimit now : Z) (random : string) (count : Z)
  (st : InMemoryStore.t) :
  admitUserRequest userId rpmLimit now random count st =
  if rpmLimit <=? count then
    ({| uAllowed := false; uReason := Some (UserRpmReached count rpmLimit);
        uCurrent := Some count |}, st)
  else
    ({| uAllowed := true; uReason := None; uCurrent := Some (count + 1) |},
     (InMemoryStore.expire (rpmKey userId) 120 now
        (InMemoryStore.zadd (rpmKey userId) now
           (Js.numberToString now ++ ":" ++ random) st).2).2).
Proof.
  unfold admitUserRequest. fold (rpmKey userId).
  destruct (rpmLimit <=? count); [reflexivity |].
  rewrite !exec_cons. cbn [run fst snd exec].
  destruct (InMemoryStore.zadd (rpmKey userId) now _ st) as [r1 s1]. cbn [fst snd].
  destruct (InMemoryStore.expire (rpmKey userId) 120 now s1). reflexivity.
Qed.

Lemma admitted_window (userId rpmLimit now : Z) (random : string) (count : Z)
  (st : InMemoryStore.t) :
  count < rpmLimit ->
  uAllowed (admitUserRequest userId rpmLimit now random count st).1 = true /\
  zsetOf (rpmKey userId) (admitUserRequest userId rpmLimit now random count st).2 =
  mapSet (Js.numberToString now ++ ":" ++ random) now (zsetOf (rpmKey userId) st).
Proof.
  intros Hroom. rewrite admitUserRequest_spec.
  destruct (Z.leb_spec rpmLimit count); [lia |]. cbn [fst snd uAllowed].
  rewrite zsetOf_expire, zsetOf_zadd. auto.
Qed.

Lemma checkUserRPM_unfold (userId rpmLimit now : Z) (random : string) (w : World)
  (st : InMemoryStore.t) :
  0 < rpmLimit -> client w = Some st ->
  checkUserRPM userId rpmLimit now random w =
  ((admitUserRequest userId rpmLimit now random (countUserRequests userId now st).1
      (countUserRequests userId now st).2).1,
   withClient w
     (admitUserRequest userId rpmLimit now random (countUserRequests userId now st).1
        (countUserRequests userId now st).2).2).
Proof.
  intros Hpos Hc. unfold checkUserRPM.
  destruct (Z.leb_spec rpmLimit 0); [lia |]. rewrite Hc.
  destruct (countUserRequests userId now st) as [count st1]. cbn [fst snd].
  destruct (admitUserRequest userId rpmLimit now random count st1). reflexivity.
Qed.

End UserChecks.

(** X17.  With a positive limit and a client, a [checkUserRPM] that no
    other caller interrupts admits the request exactly when fewer than
    [rpmLimit] requests are recorded in the last minute; a refusal reports
    that number and records nothing, an admission reports one more and
    records the request under [now:random].  The count and the record are
    two pipelines with nothing held in between, so the limit does not bind
    concurrent callers: when a second caller counts before the first has
    recorded, it counts as if the first were not there, and with room for
    one request both are admitted and the window ends up holding both. *)
Theorem X17_user_rpm_window (userId rpmLimit now : Z) (random : string)
  (w : RateLimitService.World) (st : InMemoryStore.t) :
  0 < rpmLimit ->
  RateLimitService.client w = Some st ->
  let recent := after (now - 60000) (zsetOf (rpmKey userId) st) in
  let n := Z.of_nat (length recent) in
  let r := RateLimitService.checkUserRPM userId rpmLimit now random w in
  RateLimitService.uAllowed r.1 = (n <? rpmLimit) /\
  RateLimitService.dbQueries r.2 = RateLimitService.dbQueries w /\
  (rpmLimit <= n ->
   RateLimitService.uCurrent r.1 = Some n /\
   RateLimitService.uReason r.1 = Some (RateLimitService.UserRpmReached n rpmLimit) /\
   clientZSet (rpmKey userId) r.2 = recent) /\
  (n < rpmLimit ->
   RateLimitService.uCurrent r.1 = Some (n + 1) /\
   clientZSet (rpmKey userId) r.2 =
     InMemoryZSet.mapSet (Js.numberToString now ++ ":" ++ random) now recent) /\
  (forall now' random',
     now <= now' ->
     let member := (Js.numberToString now ++ ":" ++ random)%string in
     let member' := (Js.numberToString now' ++ ":" ++ random')%string in
     let recent' := after (now' - 60000) (zsetOf (rpmKey userId) st) in
     let n' := Z.of_nat (length recent') in
     let counted := RateLimitService.countUserRequests userId now st in
     let counted' := RateLimitService.countUserRequests userId now' counted.2 in
     let first :=
       RateLimitService.admitUserRequest userId rpmLimit now random counted.1 counted'.2 in
     let second :=
       RateLimitService.admitUserRequest userId rpmLimit now' random' counted'.1 first.2 in
     counted.1 = n /\ counted'.1 = n' /\
     (n < rpmLimit -> member <> member' ->
      InMemoryZSet.mapGet member recent' = None ->
      InMemoryZSet.mapGet member' recent' = None ->
      RateLimitService.uAllowed first.1 = true /\
      RateLimitService.uAllowed second.1 = true /\
      Z.of_nat (length (zsetOf (rpmKey userId) second.2)) = n' + 2)).
Proof.
  intros Hpos Hc recent n r. subst r.
  rewrite (checkUserRPM_unfold userId rpmLimit now random w st Hpos Hc).
  rewrite countUserRequests_spec. cbn [fst snd]. fold recent. fold n.
  assert (Hz : zsetOf (rpmKey userId)
                 (InMemoryStore.zremrangebyscore (rpmKey userId) InMemoryZSet.NegInf
                    (InMemoryZSet.Num (now - 60000)) st).2 = recent)
    by apply zsetOf_zremrangebyscore.
  split; [| split; [| split; [| split]]].
  - rewrite admitUserRequest_spec.
    destruct (Z.leb_spec rpmLimit n), (Z.ltb_spec n rpmLimit); try lia; reflexivity.
  - reflexivity.
  - intros Hfull. rewrite admitUserRequest_spec.
    destruct (Z.leb_spec rpmLimit n); [| lia].
    cbn [fst snd RateLimitService.uCurrent RateLimitService.uReason].
    split; [reflexivity |]. split; [reflexivity |].
    unfold clientZSet. cbn [RateLimitService.client RateLimitService.withClient].
    exact Hz.
  - intros Hroom. rewrite admitUserRequest_spec.
    destruct (Z.leb_spec rpmLimit n); [lia |].
    cbn [fst snd RateLimitService.uCurrent].
    split; [reflexivity |].
    unfold clientZSet. cbn [RateLimitService.client RateLimitService.withClient].
    rewrite zsetOf_expire, zsetOf_zadd, Hz. reflexivity.
  - intros now' random' Hlater. cbv zeta.
    set (member := (Js.numberToString now ++ ":" ++ random)%string).
    set (member' := (Js.numberToString now' ++ ":" ++ random')%string).
    set (recent' := after (now' - 60000) (zsetOf (rpmKey userId) st)).
    set (n' := Z.of_nat (length recent')).
    rewrite ?countUserRequests_spec. cbn [fst snd]. rewrite ?Hz.
    fold recent. fold n.
    assert (Hrecent' : after (now' - 60000) recent = recent').
    { subst recent recent'. unfold after. apply filter_filter_le. lia. }
    rewrite ?Hrecent'. fold n'.
    split; [reflexivity |]. split; [reflexivity |].
    intros Hroom Hdistinct Hfresh Hfresh'.
    assert (Hle : n' <= n).
    { subst n n'. rewrite <- Hrecent'. pose proof (after_length (now' - 60000) recent). lia. }
    set (trimmed := (InMemoryStore.zremrangebyscore (rpmKey userId) InMemoryZSet.NegInf
                       (InMemoryZSet.Num (now' - 60000))
                       (InMemoryStore.zremrangebyscore (rpmKey userId) InMemoryZSet.NegInf
                          (InMemoryZSet.Num (now - 60000)) st).2).2).
    assert (Htrimmed : zsetOf (rpmKey userId) trimmed = recent').
    { subst trimmed. rewrite zsetOf_zremrangebyscore, Hz. exact Hrecent'. }
    destruct (admitted_window userId rpmLimit now random n trimmed Hroom) as [Ha Hza].
    fold member in Hza. rewrite Htrimmed in Hza.
    destruct (admitted_window userId rpmLimit now' random' n'
                (RateLimitService.admitUserRequest userId rpmLimit now random n trimmed).2
                ltac:(lia)) as [Hb Hzb].
    fold member' in Hzb. rewrite Hza in Hzb.
    split; [exact Ha |]. split; [exact Hb |].
    rewrite Hzb, !mapSet_length. unfold InMemoryZSet.mapHas.
    rewrite mapGet_mapSet_ne by (intros Heq; apply Hdistinct; congruence).
    rewrite Hfresh, Hfresh'. subst n'. lia.
Qed.

Lemma X17_user_rpm_window_witness :
  let w := {| RateLimitService.client := Some InMemoryStore.empty;
              RateLimitService.dbQueries := [] |} in
  let counted := RateLimitService.countUserRequests 7 1000 InMemoryStore.empty in
  let counted' := RateLimitService.countUserRequests 7 1000 counted.2 in
  let first := RateLimitService.admitUserRequest 7 1 1000 "0.5" counted.1 counted'.2 in
  let second := RateLimitService.admitUserRequest 7 1 1000 "0.25" counted'.1 first.2 in
  0 < 1 /\
  RateLimitService.client w = Some InMemoryStore.empty /\
  RateLimitService.uAllowed (RateLimitService.checkUserRPM 7 1 1000 "0.5" w).1 = true /\
  RateLimitService.uAllowed first.1 = true /\
  RateLimitService.uAllowed second.1 = true /\
  Z.of_nat (length (zsetOf (rpmKey 7) second.2)) = 2.
Proof.
  intros w counted counted' first second.
  assert (Hpos : 0 < 1) by lia.
  assert (Hc : RateLimitService.client w = Some InMemoryStore.empty) by reflexivity.
  split; [exact Hpos |]. split; [exact Hc |].
  destruct (X17_user_rpm_window 7 1 1000 "0.5" w InMemoryStore.empty Hpos Hc)
    as (Hone & _ & _ & _ & Hrace).
  split; [exact Hone |].
  destruct (Hrace 1000 "0.25"%string ltac:(lia)) as (_ & _ & Hboth).
  apply Hboth; [reflexivity | discriminate | reflexivity | reflexivity].
Defined.

(** X18.  [checkUserDailyCost] reads the durable store once per cache
    lifetime.  On a cache miss it asks the durable store, decides on the
    answer, and caches its text until midnight; a check made before that
    instant is served from the cache: when the text reads back as the
    amount, the same verdict, the same amount, and no further query. *)
Theorem X18_user_daily_cost_cached (env : RateLimitService.Collaborators)
  (userId : Z) (dailyLimitUsd : Js.number) (now now' : Z) (total : Js.number)
  (w : RateLimitService.World) (st : InMemoryStore.t) :
  Js.lt Js.zero dailyLimitUsd = true ->
  RateLimitService.client w = Some st ->
  (InMemoryStore.get (dailyCostKey userId) now st).1 = None ->
  RateLimitService.sumUserCostToday env userId = Returned total ->
  Js.parseFloat (Js.toString total) = total ->
  now' < now + RateLimitService.getSecondsUntilMidnight env now * 1000 ->
  let first := RateLimitService.checkUserDailyCost env userId dailyLimitUsd now w in
  let second :=
    RateLimitService.checkUserDailyCost env userId dailyLimitUsd now' first.2 in
  RateLimitService.uAllowed first.1 = negb (Js.ge total dailyLimitUsd) /\
  RateLimitService.dbQueries first.2 =
    RateLimitService.dbQueries w ++ [RateLimitService.UserCostToday userId] /\
  second.1 = first.1 /\
  RateLimitService.dbQueries second.2 = RateLimitService.dbQueries first.2.
Proof.
  intros Hpos Hc Hmiss Hdb Hback Hsoon first second.
  assert (Hlimited : Js.falsy dailyLimitUsd || Js.le dailyLimitUsd Js.zero = false)
    by (rewrite unlimited_lt, Hpos; reflexivity).
  set (st1 := (InMemoryStore.get (dailyCostKey userId) now st).2).
  set (st2 := InMemoryStore.setex (dailyCostKey userId)
                (RateLimitService.getSecondsUntilMidnight env now)
                (Js.toString total) now st1).
  set (verdict :=
         if RateLimitService.reaches total dailyLimitUsd then
           {| RateLimitService.uAllowed := false;
              RateLimitService.uReason :=
                Some (RateLimitService.UserDailyCostReached total dailyLimitUsd);
              RateLimitService.uCurrent := Some total |}
         else {| RateLimitService.uAllowed := true; RateLimitService.uReason := None;
                 RateLimitService.uCurrent := Some total |}).
  assert (Hfirst : first =
            (verdict,
             RateLimitService.withClient
               (RateLimitService.logQuery (RateLimitService.UserCostToday userId)
                  (RateLimitService.withClient w st1)) st2)).
  { subst first. unfold RateLimitService.checkUserDailyCost.
    rewrite Hlimited, Hc.
    fold (dailyCostKey userId).
    destruct (InMemoryStore.get (dailyCostKey userId) now st) as [cached s1] eqn:Hg.
    cbn [fst] in Hmiss. subst cached. rewrite Hdb.
    subst verdict st2 st1. cbn [snd].
    destruct (RateLimitService.reaches total dailyLimitUsd); reflexivity. }
  assert (Hhit : InMemoryStore.get (dailyCostKey userId) now' st2 =
                 (Some (Js.toString total), st2)).
  { subst st2. unfold InMemoryStore.get, InMemoryStore.setex, InMemoryMap.setex.
    cbn [InMemoryStore.mapStore InMemoryStore.withM].
    rewrite get_insert_eq. unfold InMemoryMap.isExpired.
    cbn [InMemoryMap.expiry InMemoryMap.value].
    destruct (Z.leb_spec (now + RateLimitService.getSecondsUntilMidnight env now * 1000) now');
      [lia |].
    destruct st1; reflexivity. }
  assert (Hsecond : second = (verdict, first.2)).
  { subst second. rewrite Hfirst. cbn [snd].
    unfold RateLimitService.checkUserDailyCost.
    rewrite Hlimited.
    cbn [RateLimitService.client RateLimitService.withClient].
    fold (dailyCostKey userId). rewrite Hhit, Hback.
    subst verdict.
    destruct (RateLimitService.reaches total dailyLimitUsd); reflexivity. }
  rewrite Hsecond. rewrite Hfirst. cbn [fst snd].
  split.
  { subst verdict. unfold RateLimitService.reaches.
    destruct (Js.ge total dailyLimitUsd); reflexivity. }
  split; [| split]; reflexivity.
Qed.

Lemma X18_user_daily_cost_cached_witness :
  let w := {| RateLimitService.client := Some InMemoryStore.empty;
              RateLimitService.dbQueries := [] |} in
  let env := constantStore (num "4.25") in
  let limit := num "10" in
  Js.lt Js.zero limit = true /\
  Js.parseFloat (Js.toString (num "4.25")) = num "4.25" /\
  RateLimitService.dbQueries
    (RateLimitService.checkUserDailyCost env 7 limit 2000
       (RateLimitService.checkUserDailyCost env 7 limit 1000 w).2).2 =
  RateLimitService.dbQueries (RateLimitService.checkUserDailyCost env 7 limit 1000 w).2.
Proof.
  intros w env limit.
  assert (Hpos : Js.lt Js.zero limit = true) by reflexivity.
  assert (Hback : Js.parseFloat (Js.toString (num "4.25")) = num "4.25")
    by (vm_compute; reflexivity).
  split; [exact Hpos |]. split; [exact Hback |].
  refine (proj2 (proj2 (proj2
    (X18_user_daily_cost_cached env 7 limit 1000 2000 (num "4.25") w InMemoryStore.empty
       Hpos _ _ _ Hback _)))); [reflexivity | reflexivity | reflexivity | vm_compute; reflexivity].
Defined.

(** ** The cost check served from the cache *)

Section CachedCostCheck.

Import InMemoryZSet RollingWindow RateLimitService.

(** The two window reads are the same function. *)
Lemma getCostDaily_5h (key : string) (now w : Z) (st : InMemoryStore.t) :
  getCostDailyRollingWindow key now w st = getCost5hRollingWindow key now w st.
Proof. reflexivity. Qed.

(** A limit is visited exactly when its amount is positive. *)
Lemma unlimited_positive (cap : Js.number) :
  Js.lt Js.zero cap = true -> unlimited (Some cap) = false /\ Js.le cap Js.zero = false.
Proof.
  intros Hpos. pose proof (unlimited_lt cap) as H. rewrite Hpos in H.
  cbn [negb] in H. split; [exact H |].
  apply orb_false_iff in H as [_ H]. exact H.
Qed.

(** The fast path at a rolling-window limit. *)
Lemma fastPath_window (env : Collaborators) (id : Z) (type : EntityType) (daily : bool)
  (cap : Js.number) (rest : list CostLimit) (now : Z) (st : InMemoryStore.t) :
  Js.lt Js.zero cap = true ->
  let key := windowKeyOf daily type id in
  let read := getCost5hRollingWindow key now (windowOf daily) st in
  let current := Js.parseFloat (orZero read.1) in
  let continue :=
    if reaches current cap then
      (Decided {| allowed := false;
                  reason := Some (CostLimitReached type (name (windowLimit env daily cap))
                                    current cap) |}, read.2)
    else fastPath env id type rest now read.2 in
  fastPath env id type (windowLimit env daily cap :: rest) now st =
  if Js.strictEquals current Js.zero then
    if InMemoryStore.exists_ [key] now read.2 =? 0 then (CacheMiss 3, read.2)
    else continue
  else continue.
Proof.
  intros Hpos. destruct (unlimited_positive cap Hpos) as [Hlimited _].
  destruct daily; cbn [fastPath windowLimit amount period isRolling resetMode];
    rewrite Hlimited; cbn [default windowKeyOf windowOf];
    rewrite ?getCostDaily_5h;
    change (5 * 60 * 60 * 1000) with 18000000;
    change (24 * 60 * 60 * 1000) with 86400000;
    destruct (getCost5hRollingWindow _ now _ st) as [result st1];
    reflexivity.
Qed.




(** A positive total that its text gives back is read as itself by the
    check. *)
Lemma current_positive (total : Js.number) :
  isPositive total = true ->
  Js.parseFloat (Js.toString total) = total ->
  Js.parseFloat (orZero (Js.toString total)) = total.
Proof.
  intros Hpos Hback. destruct (Js.toString total) as [| c r] eqn:Htext; [| exact Hback].
  rewrite <- Hback in Hpos. discriminate Hpos.
Qed.

Lemma fastPath_unlimited (env : Collaborators) (id : Z) (type : EntityType)
  (rest : list CostLimit) (now : Z) (st : InMemoryStore.t) :
  Forall (fun limit => amount limit = None) rest ->
  fastPath env id type rest now st = (Decided allow, st).
Proof.
  induction 1 as [| limit rest Hnone _ IH]; [reflexivity |].
  cbn [fastPath]. rewrite Hnone. cbn [unlimited]. exact IH.
Qed.










End CachedCostCheck.

(** X19.  When the client is ready and the 5-hour window of the entity
    holds a positive total that its text gives back, [checkCostLimits] with
    a positive 5-hour limit decides on the cached window without asking the
    durable store.  The total is the sum of the recorded costs as the code
    adds them, in order of time.  A total that has reached the limit is
    refused with the total and the limit as the reason, whatever the other
    limits are; a total that has not is allowed when no other limit is
    set. *)
Theorem X19_cost_check_from_cache (env : RateLimitService.Collaborators)
  (id : Z) (type : RateLimitService.EntityType) (limits : RateLimitService.Limits)
  (now : Z) (cap total : Js.number) (w : RateLimitService.World) (st : InMemoryStore.t) :
  RateLimitService.client w = Some st ->
  InMemoryStore.isReady st = true ->
  RateLimitService.limit_5h_usd limits = Some cap ->
  Js.lt Js.zero cap = true ->
  sumOf (map (fun e => RollingWindow.parseCostFromMember e.1)
           (Js.sortBy snd
              (after (now - 18000000)
                 (zsetOf (RateLimitService.entityKey type id "cost_5h_rolling") st))))
    = total ->
  isPositive total = true ->
  Js.parseFloat (Js.toString total) = total ->
  let r := RateLimitService.checkCostLimits env id type limits now w in
  (Js.ge total cap = true ->
   r.1 = Returned {| RateLimitService.allowed := false;
                     RateLimitService.reason :=
                       Some (RateLimitService.CostLimitReached type "5h" total cap) |} /\
   RateLimitService.dbQueries r.2 = RateLimitService.dbQueries w) /\
  (Js.ge total cap = false ->
   RateLimitService.limit_daily_usd limits = None ->
   RateLimitService.limit_weekly_usd limits = None ->
   RateLimitService.limit_monthly_usd limits = None ->
   r.1 = Returned RateLimitService.allow /\
   RateLimitService.dbQueries r.2 = RateLimitService.dbQueries w).
Proof.
  intros Hc Hready H5h Hcap Hsum Htotal Hback r.
  subst r. unfold RateLimitService.checkCostLimits. rewrite Hc, Hready.
  unfold RateLimitService.costLimitsOf. rewrite H5h.
  pose proof (fastPath_window env id type false cap) as Hstep.
  cbn [windowLimit windowKeyOf windowOf] in Hstep.
  rewrite Hstep by exact Hcap. clear Hstep. cbv zeta.
  rewrite get_total. unfold after in Hsum. unfold windowKeyOf.
  rewrite Hsum.
  rewrite (current_positive total Htotal Hback).
  destruct (isPositive_spec total Htotal) as (_ & Hnz & _).
  rewrite Hnz. unfold RateLimitService.reaches. cbn [RateLimitService.name].
  destruct (Js.ge total cap) eqn:Hreach.
  - cbn [fst snd RateLimitService.withClient RateLimitService.dbQueries].
    split; [intros _; split; reflexivity | discriminate].
  - split; [discriminate |].
    intros _ Hd Hw Hm. rewrite Hd, Hw, Hm.
    rewrite fastPath_unlimited by (repeat constructor).
    cbn [fst snd RateLimitService.withClient RateLimitService.dbQueries].
    split; reflexivity.
Qed.

Lemma X19_cost_check_from_cache_witness :
  let key := RateLimitService.entityKey RateLimitService.KeyEntity 3 "cost_5h_rolling" in
  let st := trackAll key 18000000 [(1000, num "0.9"); (1001, num "0.9"); (1002, num "1")]
              InMemoryStore.empty in
  let w := {| RateLimitService.client := Some st; RateLimitService.dbQueries := [] |} in
  let r := RateLimitService.checkCostLimits (constantStore (num "0")) 3
             RateLimitService.KeyEntity (only5h (num "2")) 2000 w in
  Js.lt Js.zero (num "2") = true /\
  isPositive (num "2.8") = true /\
  Js.ge (num "2.8") (num "2") = true /\
  r.1 = Returned {| RateLimitService.allowed := false;
                    RateLimitService.reason :=
                      Some (RateLimitService.CostLimitReached RateLimitService.KeyEntity
                              "5h" (num "2.8") (num "2")) |} /\
  RateLimitService.dbQueries r.2 = [].
Proof.
  intros key st w r.
  assert (Hcap : Js.lt Js.zero (num "2") = true) by reflexivity.
  assert (Htotal : isPositive (num "2.8") = true) by reflexivity.
  assert (Hfull : Js.ge (num "2.8") (num "2") = true) by reflexivity.
  split; [exact Hcap |]. split; [exact Htotal |]. split; [exact Hfull |].
  refine (proj1
    (X19_cost_check_from_cache (constantStore (num "0")) 3 RateLimitService.KeyEntity
       (only5h (num "2")) 2000 (num "2") (num "2.8") w st _ _ _ Hcap _ Htotal _) Hfull);
    [reflexivity | reflexivity | reflexivity | vm_compute; reflexivity
     | vm_compute; reflexivity].
Defined.

(** ** Cache miss against genuine zero *)



(** ** Selection under every strategy *)

Section SelectionFacts.

Import ProviderEndpointRepo EndpointSelector.

Lemma at_in_range {A} (l : list A) (i : Z) :
  0 <= i < Z.of_nat (length l) -> exists x, Js.at_ l i = Some x /\ In x l.
Proof.
  intros [Hlo Hhi]. unfold Js.at_.
  destruct (Z.ltb_spec i 0); [lia |].
  destruct (lookup_lt_is_Some_2 l (Z.to_nat i)) as [x Hx]; [lia |].
  exists x. split; [exact Hx |].
  apply list_elem_of_In. eapply list_elem_of_lookup_2, Hx.
Qed.

Lemma random_index_in_range (random : Q) (n : Z) :
  (0 <= random)%Q -> (random < 1)%Q -> 0 < n ->
  0 <= Qfloor (random * inject_Z n) < n.
Proof.
  intros Hlo Hhi Hn.
  assert (Hn' : (0 < inject_Z n)%Q) by (rewrite (Zlt_Qlt 0 n) in Hn; exact Hn).
  split.
  - change 0 with (Qfloor 0). apply Qfloor_resp_le.
    apply Qmult_le_0_compat; [exact Hlo | apply Qlt_le_weak; exact Hn'].
  - rewrite Zlt_Qlt. eapply Qle_lt_trans; [apply Qfloor_le |].
    apply Qlt_le_trans with (1 * inject_Z n)%Q;
      [apply Qmult_lt_compat_r; assumption |].
    rewrite Qmult_1_l. apply Qle_refl.
Qed.

Lemma candidate_usable (provider : Provider) (excludeEndpointIds : option (list Z))
  (allEndpoints : list ProviderEndpoint) (e : ResolvedEndpoint) :
  In e (availableEndpoints provider excludeEndpointIds allEndpoints) ->
  rHealthStatus e <> Unhealthy /\
  (forall ids, excludeEndpointIds = Some ids -> ~ In (rId e) ids) /\
  exists ep, In ep allEndpoints /\ isEnabled ep = true /\ e = resolve provider ep.
Proof.
  unfold availableEndpoints. intros Hin.
  apply in_map_iff in Hin as (ep & <- & Hep).
  apply filter_In in Hep as [Hep Huse].
  apply isUsable_spec in Huse as (Hen & Hh & Hex).
  cbn [resolve rHealthStatus rId]. split; [exact Hh |]. split; [exact Hex |].
  exists ep. auto.
Qed.

End SelectionFacts.

(** X20.  In multi-endpoint mode with at least one candidate,
    [selectEndpoint] returns a candidate under every strategy (for a
    round-robin index that is not negative and a random draw in [0, 1)): the
    selected endpoint comes from an enabled row, is not unhealthy and is not
    one of the excluded ids. *)
Theorem X20_selection_within_candidates
  (toProviderEndpoint :
     ProviderEndpointRepo.ProviderEndpoint -> ProviderEndpointRepo.ProviderEndpoint)
  (provider : EndpointSelector.Provider) (excludeEndpointIds : option (list Z))
  (random : Q) (table : list ProviderEndpointRepo.ProviderEndpoint)
  (roundRobinIndex : gmap Z Z) :
  EndpointSelector.useMultipleEndpoints provider = true ->
  let allEndpoints :=
    ProviderEndpointRepo.findEndpointsByProviderId toProviderEndpoint
      (EndpointSelector.pId provider) table in
  let candidates :=
    EndpointSelector.availableEndpoints provider excludeEndpointIds allEndpoints in
  candidates <> [] ->
  0 <= default 0 (roundRobinIndex !! EndpointSelector.pId provider) ->
  (0 <= random)%Q -> (random < 1)%Q ->
  exists e,
    (EndpointSelector.selectEndpoint toProviderEndpoint provider excludeEndpointIds
       random table roundRobinIndex).1 = Some e /\
    In e candidates /\
    EndpointSelector.rHealthStatus e <> ProviderEndpointRepo.Unhealthy /\
    (forall ids, excludeEndpointIds = Some ids -> ~ In (EndpointSelector.rId e) ids).
Proof.
  intros Hmulti allEndpoints candidates Hne Hidx Hlo Hhi.
  assert (Hlen : 0 < Z.of_nat (length candidates))
    by (destruct candidates; [contradiction | cbn [length]; lia]).
  assert (Hsel : exists e,
             (EndpointSelector.selectEndpoint toProviderEndpoint provider
                excludeEndpointIds random table roundRobinIndex).1 = Some e /\
             In e candidates).
  { unfold EndpointSelector.selectEndpoint. rewrite Hmulti. cbn [negb].
    fold allEndpoints. fold candidates.
    destruct candidates as [| c0 cs] eqn:Hc; [contradiction |]. rewrite <- Hc in *.
    destruct (default EndpointSelector.Failover
                (EndpointSelector.endpointSelectionStrategy provider)); cbn [fst].
    - destruct (selectFailover_least candidates Hne) as (e & He & Hin & _). eauto.
    - unfold EndpointSelector.selectRoundRobin. cbn [fst].
      apply at_in_range. apply Z.rem_bound_pos; lia.
    - unfold EndpointSelector.selectRandom.
      apply at_in_range. apply random_index_in_range; assumption.
    - unfold EndpointSelector.selectWeighted. cbv zeta.
      destruct (EndpointSelector.weightedWalk _ candidates) as [e |] eqn:Hwalk.
      + exists e. split; [reflexivity |]. eapply weightedWalk_In, Hwalk.
      + apply at_in_range. lia.
    - destruct (selectFailover_least candidates Hne) as (e & He & Hin & _). eauto. }
  destruct Hsel as (e & He & Hin). exists e.
  destruct (candidate_usable provider excludeEndpointIds allEndpoints e Hin)
    as (Hh & Hex & _).
  auto.
Qed.

Lemma X20_selection_within_candidates_witness :
  let provider :=
    {| EndpointSelector.pId := 4; EndpointSelector.pName := "provider";
       EndpointSelector.pUrl := "https://provider"; EndpointSelector.pKey := "sk-provider";
       EndpointSelector.useMultipleEndpoints := true;
       EndpointSelector.endpointSelectionStrategy := Some EndpointSelector.Random |} in
  exists e,
    (EndpointSelector.selectEndpoint (fun r => r) provider (Some [12]) (1 # 2)
       exampleTable ∅).1 = Some e /\
    EndpointSelector.rId e <> 12.
Proof.
  intros provider.
  destruct (X20_selection_within_candidates (fun r => r) provider (Some [12]) (1 # 2)
              exampleTable ∅) as (e & He & _ & _ & Hex);
    [reflexivity | vm_compute; discriminate | vm_compute; discriminate
     | vm_compute; discriminate | reflexivity |].
  exists e. split; [exact He |].
  intros Heq. apply (Hex [12] eq_refl). rewrite Heq. left. reflexivity.
Defined.

Section RoundRobinFacts.

Import EndpointSelector.

Lemma roundRobinCalls_S (provider : Z) (endpoints : list ResolvedEndpoint) (k : nat)
  (rr : gmap Z Z) :
  roundRobinCalls provider endpoints (S k) rr =
  ((selectRoundRobin provider endpoints rr).1
     :: (roundRobinCalls provider endpoints k (selectRoundRobin provider endpoints rr).2).1,
   (roundRobinCalls provider endpoints k (selectRoundRobin provider endpoints rr).2).2).
Proof.
  cbn [roundRobinCalls]. destruct (selectRoundRobin provider endpoints rr) as [e rr1].
  cbn [fst snd]. destruct (roundRobinCalls provider endpoints k rr1). reflexivity.
Qed.

Lemma roundRobinCalls_spec (provider : Z) (endpoints : list ResolvedEndpoint) (k : nat) :
  forall (rr : gmap Z Z) (c : Z),
    default 0 (rr !! provider) = c -> 0 <= c ->
    length (roundRobinCalls provider endpoints k rr).1 = k /\
    default 0 ((roundRobinCalls provider endpoints k rr).2 !! provider) = c + Z.of_nat k /\
    (forall other, other <> provider ->
       (roundRobinCalls provider endpoints k rr).2 !! other = rr !! other) /\
    forall i, (i < k)%nat ->
      (roundRobinCalls provider endpoints k rr).1 !! i =
      Some (endpoints !! Z.to_nat ((c + Z.of_nat i) mod Z.of_nat (length endpoints))).
Proof.
  induction k as [| k IH]; intros rr c Hc Hpos.
  - cbn [roundRobinCalls fst snd length].
    split; [reflexivity |]. split; [rewrite Hc; lia |].
    split; [reflexivity | intros; lia].
  - rewrite roundRobinCalls_S. cbn [fst snd length].
    assert (Hnext : default 0 ((selectRoundRobin provider endpoints rr).2 !! provider)
                    = c + 1).
    { unfold selectRoundRobin. cbn [snd]. rewrite lookup_insert_eq, Hc. reflexivity. }
    destruct (IH (selectRoundRobin provider endpoints rr).2 (c + 1) Hnext ltac:(lia))
      as (Hlen & Hidx & Hother & Hsel).
    split; [rewrite Hlen; reflexivity |].
    split; [rewrite Hidx; lia |].
    split.
    + intros other Hne. rewrite Hother by exact Hne.
      unfold selectRoundRobin. cbn [snd]. apply lookup_insert_ne. congruence.
    + intros [| i] Hi.
      * cbn [lookup list_lookup]. f_equal.
        unfold selectRoundRobin. cbn [fst]. rewrite Hc.
        rewrite Z.add_0_r. unfold Js.at_.
        destruct (Z.eq_dec (Z.of_nat (length endpoints)) 0) as [Hz | Hnz].
        -- rewrite Hz. rewrite Z.rem_0_r_ext, Z.mod_0_r by reflexivity.
           destruct (Z.ltb_spec c 0); [lia | reflexivity].
        -- rewrite Z.rem_mod_nonneg by lia.
           destruct (Z.ltb_spec (c mod Z.of_nat (length endpoints)) 0) as [Hneg |];
             [| reflexivity].
           pose proof (Z.mod_pos_bound c (Z.of_nat (length endpoints))). lia.
      * cbn [lookup list_lookup]. rewrite Hsel by lia.
        replace (c + 1 + Z.of_nat i) with (c + Z.of_nat (S i)) by lia. reflexivity.
Qed.

End RoundRobinFacts.

(** X21.  Round robin visits the endpoints in turn.  From an index [c]
    that is not negative, the [i]-th of [k] consecutive selections for a
    provider is the endpoint at position [(c + i) mod n]; the index ends at
    [c + k] and the indices of the other providers are untouched; and [n]
    consecutive selections return every endpoint of the list. *)
Theorem X21_round_robin_cycle (provider : Z)
  (endpoints : list EndpointSelector.ResolvedEndpoint) (k : nat)
  (roundRobinIndex : gmap Z Z) (c : Z) :
  endpoints <> [] ->
  default 0 (roundRobinIndex !! provider) = c ->
  0 <= c ->
  let n := length endpoints in
  (forall i, (i < k)%nat ->
     (roundRobinCalls provider endpoints k roundRobinIndex).1 !! i =
     Some (endpoints !! Z.to_nat ((c + Z.of_nat i) mod Z.of_nat n))) /\
  default 0 ((roundRobinCalls provider endpoints k roundRobinIndex).2 !! provider)
    = c + Z.of_nat k /\
  (forall other, other <> provider ->
     (roundRobinCalls provider endpoints k roundRobinIndex).2 !! other =
     roundRobinIndex !! other) /\
  (forall e, In e endpoints ->
     In (Some e) (roundRobinCalls provider endpoints n roundRobinIndex).1).
Proof.
  intros Hne Hc Hpos n.
  destruct (roundRobinCalls_spec provider endpoints k roundRobinIndex c Hc Hpos)
    as (_ & Hidx & Hother & Hsel).
  split; [exact Hsel |]. split; [exact Hidx |]. split; [exact Hother |].
  intros e Hin.
  destruct (roundRobinCalls_spec provider endpoints n roundRobinIndex c Hc Hpos)
    as (_ & _ & _ & Hall).
  apply list_elem_of_In, list_elem_of_lookup in Hin as [j Hj].
  pose proof (lookup_lt_Some _ _ _ Hj) as Hjn. fold n in Hjn.
  assert (Hn : 0 < Z.of_nat n) by lia.
  set (i := Z.to_nat ((Z.of_nat j - c) mod Z.of_nat n)).
  pose proof (Z.mod_pos_bound (Z.of_nat j - c) (Z.of_nat n) Hn) as Hb.
  assert (Hi : (i < n)%nat) by (subst i; lia).
  apply list_elem_of_In, list_elem_of_lookup. exists i.
  rewrite (Hall i Hi). f_equal. rewrite <- Hj. f_equal.
  subst i. rewrite Z2Nat.id by lia.
  rewrite Zplus_mod_idemp_r.
  replace (c + (Z.of_nat j - c)) with (Z.of_nat j) by lia.
  rewrite Z.mod_small by lia. apply Nat2Z.id.
Qed.

Lemma X21_round_robin_cycle_witness :
  let endpoints := EndpointSelector.availableEndpoints exampleProvider None exampleTable in
  endpoints <> [] /\
  (roundRobinCalls 4 endpoints 4 ∅).1 !! 3%nat = Some (endpoints !! 0%nat).
Proof.
  intros endpoints.
  assert (Hne : endpoints <> []) by (vm_compute; discriminate).
  split; [exact Hne |].
  assert (Hc : default 0 ((∅ : gmap Z Z) !! 4) = 0) by (rewrite lookup_empty; reflexivity).
  assert (Hpos : 0 <= 0) by lia.
  destruct (X21_round_robin_cycle 4 endpoints 4 ∅ 0 Hne Hc Hpos) as (Hsel & _).
  exact (Hsel 3%nat ltac:(lia)).
Defined.

(** ** The report of the applied rules *)

Section ReportFacts.

Import CostMultiplier.

Lemma appliedProduct_map (rules : list ProviderCostRule) :
  appliedProduct (map applied rules) = productOf rules.
Proof. unfold appliedProduct, productOf. rewrite map_map. reflexivity. Qed.

End ReportFacts.

(** X23.  The report of [calculateFinalMultiplier] agrees with its result.
    When no rule matched the list [appliedRules] is empty and the result is
    the base multiplier.  Under [multiply] the list holds every matched rule
    in rule order and the result is the base multiplier times the product of
    the multipliers listed, multiplied in that order from 1.  Under
    [highest_priority] the list holds exactly one matched rule of greatest
    priority and the result is the base multiplier times the multiplier
    listed.  [baseMultiplier] is the base given.  All products are products
    of doubles. *)
Theorem X23_report_consistent (intl : CostMultiplier.Intl) (base : Js.number)
  (rules : list CostMultiplier.ProviderCostRule)
  (context : CostMultiplier.CostMultiplierContext)
  (strategy : CostMultiplier.CostMultiplierStrategy) :
  let result := CostMultiplier.calculateFinalMultiplier intl base rules context strategy in
  let matched := matchedRulesOf intl context rules in
  CostMultiplier.baseMultiplier result = base /\
  (matched = [] ->
   CostMultiplier.appliedRules result = [] /\ CostMultiplier.finalMultiplier result = base) /\
  (matched <> [] -> strategy = CostMultiplier.Multiply ->
   CostMultiplier.appliedRules result = map CostMultiplier.applied matched /\
   CostMultiplier.finalMultiplier result =
     Js.mul base (appliedProduct (CostMultiplier.appliedRules result))) /\
  (matched <> [] -> strategy = CostMultiplier.HighestPriority ->
   exists g, CostMultiplier.appliedRules result = [CostMultiplier.applied g] /\
             CostMultiplier.finalMultiplier result =
               Js.mul base (CostMultiplier.appliedMultiplier (CostMultiplier.applied g)) /\
             In g matched /\
             forall r, In r matched ->
                       CostMultiplier.priority r <= CostMultiplier.priority g).
Proof.
  intros result matched. subst result.
  unfold CostMultiplier.calculateFinalMultiplier. cbv zeta.
  rewrite matched_loop. fold matched.
  destruct matched as [| m ms] eqn:Hm.
  - cbn [CostMultiplier.finalMultiplier CostMultiplier.appliedRules
         CostMultiplier.baseMultiplier].
    split; [reflexivity |]. split; [auto |].
    split; intros H; contradiction.
  - rewrite <- Hm. destruct strategy.
    + rewrite head_sorted_greatest.
      pose proof (greatest_spec matched) as Hg.
      destruct (greatest matched) as [g |]; [| rewrite Hm in Hg; discriminate].
      cbn [CostMultiplier.finalMultiplier CostMultiplier.appliedRules
           CostMultiplier.baseMultiplier].
      split; [reflexivity |]. split; [rewrite Hm; discriminate |].
      split; [discriminate |].
      intros _ _. exists g. destruct Hg. auto.
    + rewrite multiply_loop.
      cbn [CostMultiplier.finalMultiplier CostMultiplier.appliedRules
           CostMultiplier.baseMultiplier fst snd app].
      split; [reflexivity |]. split; [rewrite Hm; discriminate |].
      split; [| discriminate].
      intros _ _. split; [reflexivity |].
      rewrite appliedProduct_map. reflexivity.
Qed.

Lemma X23_report_consistent_witness :
  let result :=
    CostMultiplier.calculateFinalMultiplier elevenPm (num "1.2") exampleRules
      exampleContext CostMultiplier.Multiply in
  matchedRulesOf elevenPm exampleContext exampleRules <> [] /\
  CostMultiplier.appliedRules result =
    map CostMultiplier.applied (matchedRulesOf elevenPm exampleContext exampleRules) /\
  CostMultiplier.finalMultiplier result =
    Js.mul (num "1.2") (appliedProduct (CostMultiplier.appliedRules result)).
Proof.
  intros result.
  assert (Hne : matchedRulesOf elevenPm exampleContext exampleRules <> [])
    by (vm_compute; discriminate).
  split; [exact Hne |].
  destruct (X23_report_consistent elevenPm (num "1.2") exampleRules exampleContext
              CostMultiplier.Multiply) as (_ & _ & Hmul & _).
  exact (Hmul Hne eq_refl).
Defined.

(** ** Health updates leave the configuration alone *)

Section HealthFrame.

Import ProviderEndpointRepo EndpointHealthTracker.

Lemma sameConfiguration_refl (r : ProviderEndpoint) : sameConfiguration r r.
Proof. unfold sameConfiguration. auto 10. Qed.

Lemma configuration_same (a b : ProviderEndpoint) :
  sameConfiguration a b -> configuration a = configuration b.
Proof.
  unfold sameConfiguration, configuration.
  intros (-> & -> & -> & -> & -> & -> & -> & -> & ->). reflexivity.
Qed.

Lemma filter_Permutation_compat {A} (p : A -> bool) (l l' : list A) :
  Permutation l l' -> Permutation (List.filter p l) (List.filter p l').
Proof.
  induction 1 as [| x l l' _ IH | x y l | l l' l'' _ IH1 _ IH2]; cbn [List.filter].
  - constructor.
  - destruct (p x); [constructor |]; exact IH.
  - destruct (p x), (p y); try reflexivity. apply perm_swap.
  - etransitivity; eassumption.
Qed.

(** A health update is a map over the table that keeps the configuration. *)
Lemma updateEndpointHealth_map (endpoint : Z) (health : HealthUpdate) (now : Z)
  (table : list ProviderEndpoint) :
  exists f : ProviderEndpoint -> ProviderEndpoint,
    (updateEndpointHealth endpoint health now table).2 = map f table /\
    forall r, sameConfiguration r (f r) /\ (id r <> endpoint -> f r = r).
Proof.
  assert (Hid : exists f : ProviderEndpoint -> ProviderEndpoint,
             table = map f table /\
             forall r, sameConfiguration r (f r) /\ (id r <> endpoint -> f r = r)).
  { exists (fun r => r). split; [symmetry; apply map_id |].
    intros r. split; [apply sameConfiguration_refl | reflexivity]. }
  unfold updateEndpointHealth.
  destruct (negb _); [exact Hid |].
  destruct (List.filter (fun r => id r =? endpoint) table) as [| hit hits]; [exact Hid |].
  exists (fun r => if id r =? endpoint then applyHealth health now r else r).
  cbn [snd]. split; [reflexivity |].
  intros r. destruct (Z.eqb_spec (id r) endpoint) as [Heq | Hne].
  - split; [| contradiction]. unfold sameConfiguration, applyHealth. cbn. auto 10.
  - split; [apply sameConfiguration_refl | reflexivity].
Qed.

(** When the update throws: it was rejected, or it met no row; the table is
    then as it was. *)
Lemma updateEndpointHealth_thrown (endpoint : Z) (health : HealthUpdate) (now : Z)
  (table : list ProviderEndpoint) :
  let r := updateEndpointHealth endpoint health now table in
  (r.1 = Thrown <->
   (exists failures, newConsecutiveFailures health = Some failures /\
                     fitsInteger failures = false) \/
   (forall row, In row table -> id row <> endpoint)) /\
  (r.1 = Thrown -> r.2 = table).
Proof.
  intros r. subst r. unfold updateEndpointHealth.
  destruct (newConsecutiveFailures health) as [failures |] eqn:Hnew.
  - destruct (fitsInteger failures) eqn:Hfits; cbn [negb fst snd].
    + destruct (List.filter (fun r => id r =? endpoint) table) as [| hit hits] eqn:Hf;
        cbn [fst snd].
      * split; [| reflexivity]. split; [| reflexivity].
        intros _. right. intros row Hin Hid.
        assert (Hx : In row (List.filter (fun r => id r =? endpoint) table))
          by (apply filter_In; split; [exact Hin | apply Z.eqb_eq; exact Hid]).
        rewrite Hf in Hx. destruct Hx.
      * split; [| discriminate]. split; [discriminate |].
        intros [(f' & Hf' & Hno) | Hnone]; [congruence |]. exfalso.
        assert (Hx : In hit (List.filter (fun r => id r =? endpoint) table))
          by (rewrite Hf; left; reflexivity).
        apply filter_In in Hx as [Hin Hid]. apply Z.eqb_eq in Hid.
        exact (Hnone hit Hin Hid).
    + split; [| reflexivity]. split; [| reflexivity]. intros _. left. eauto.
  - cbn [negb fst snd].
    destruct (List.filter (fun r => id r =? endpoint) table) as [| hit hits] eqn:Hf;
      cbn [fst snd].
    + split; [| reflexivity]. split; [| reflexivity].
      intros _. right. intros row Hin Hid.
      assert (Hx : In row (List.filter (fun r => id r =? endpoint) table))
        by (apply filter_In; split; [exact Hin | apply Z.eqb_eq; exact Hid]).
      rewrite Hf in Hx. destruct Hx.
    + split; [| discriminate]. split; [discriminate |].
      intros [(f' & Hf' & _) | Hnone]; [discriminate |]. exfalso.
      assert (Hx : In hit (List.filter (fun r => id r =? endpoint) table))
        by (rewrite Hf; left; reflexivity).
      apply filter_In in Hx as [Hin Hid]. apply Z.eqb_eq in Hid.
      exact (Hnone hit Hin Hid).
Qed.

Lemma health_calls_map (endpoint current now : Z) (table : list ProviderEndpoint) :
  (exists f : ProviderEndpoint -> ProviderEndpoint,
     (recordFailure endpoint current now table).2 = map f table /\
     forall r, sameConfiguration r (f r) /\ (id r <> endpoint -> f r = r)) /\
  (exists f : ProviderEndpoint -> ProviderEndpoint,
     (recordSuccess endpoint now table).2 = map f table /\
     forall r, sameConfiguration r (f r) /\ (id r <> endpoint -> f r = r)).
Proof.
  unfold recordFailure, recordSuccess.
  destruct (endpoint =? 0).
  - split; exists (fun r => r); cbn [snd]; (split; [symmetry; apply map_id |]);
      intros r; (split; [apply sameConfiguration_refl | reflexivity]).
  - split; [| apply updateEndpointHealth_map].
    cbv zeta.
    match goal with
    | |- context [updateEndpointHealth endpoint ?h now table] =>
        destruct (updateEndpointHealth_map endpoint h now table) as (f & Hf & Hsame);
        destruct (updateEndpointHealth endpoint h now table) as [[u |] t]
    end; cbn [snd] in Hf |- *; exists f; auto.
Qed.

(** What a map that keeps the configuration leaves as it was. *)
Lemma map_configuration (f : ProviderEndpoint -> ProviderEndpoint) (l : list ProviderEndpoint) :
  (forall r, sameConfiguration r (f r)) ->
  map configuration (map f l) = map configuration l.
Proof.
  intros Hf. rewrite map_map. apply map_ext. intros r. symmetry.
  apply configuration_same, Hf.
Qed.

Lemma map_others (endpoint : Z) (f : ProviderEndpoint -> ProviderEndpoint)
  (l : list ProviderEndpoint) :
  (forall r, sameConfiguration r (f r) /\ (id r <> endpoint -> f r = r)) ->
  otherEndpoints endpoint (map f l) = otherEndpoints endpoint l.
Proof.
  intros Hf. unfold otherEndpoints. induction l as [| r l IH]; [reflexivity |].
  cbn [map List.filter].
  destruct (Hf r) as [(Hid & _) Hsame]. rewrite <- Hid.
  destruct (Z.eqb_spec (id r) endpoint) as [Heq | Hne]; cbn [negb].
  - exact IH.
  - rewrite (Hsame Hne), IH. reflexivity.
Qed.

End HealthFrame.

(** X24.  Recording a failure or a success touches health only.  The table
    holds the same endpoints with the same configuration (id, provider,
    name, url, key, priority, weight, enabled flag and creation time), and
    the rows of the other endpoints are the rows they were; nothing is said
    of the place of a row in the table.  [recordSuccess] throws exactly when
    the endpoint is not the sentinel 0 and no row carries its id;
    [recordFailure] throws in that case and also when the new streak does
    not fit the 32-bit column.  When a call throws the table holds the rows
    it held, and for the sentinel 0 nothing is written. *)
Theorem X24_health_updates_frame (endpoint current now : Z)
  (table : list ProviderEndpointRepo.ProviderEndpoint) :
  let failed := EndpointHealthTracker.recordFailure endpoint current now table in
  let succeeded := EndpointHealthTracker.recordSuccess endpoint now table in
  let absent :=
    forall row, In row table -> ProviderEndpointRepo.id row <> endpoint in
  Permutation (map configuration failed.2) (map configuration table) /\
  Permutation (map configuration succeeded.2) (map configuration table) /\
  Permutation (otherEndpoints endpoint failed.2) (otherEndpoints endpoint table) /\
  Permutation (otherEndpoints endpoint succeeded.2) (otherEndpoints endpoint table) /\
  (failed.1 = Thrown <->
   endpoint <> 0 /\ (absent \/ ProviderEndpointRepo.fitsInteger (current + 1) = false)) /\
  (succeeded.1 = Thrown <-> endpoint <> 0 /\ absent) /\
  (failed.1 = Thrown -> Permutation failed.2 table) /\
  (succeeded.1 = Thrown -> Permutation succeeded.2 table) /\
  (endpoint = 0 -> Permutation failed.2 table /\ Permutation succeeded.2 table).
Proof.
  intros failed succeeded absent.
  destruct (health_calls_map endpoint current now table)
    as [(f & Hf & Hfsame) (g & Hg & Hgsame)].
  fold failed in Hf. fold succeeded in Hg.
  split; [rewrite Hf, map_configuration by (intros r; apply Hfsame); reflexivity |].
  split; [rewrite Hg, map_configuration by (intros r; apply Hgsame); reflexivity |].
  split; [rewrite Hf, (map_others endpoint f) by exact Hfsame; reflexivity |].
  split; [rewrite Hg, (map_others endpoint g) by exact Hgsame; reflexivity |].
  clear f Hf Hfsame g Hg Hgsame. subst failed succeeded.
  unfold EndpointHealthTracker.recordFailure, EndpointHealthTracker.recordSuccess.
  destruct (Z.eqb_spec endpoint 0) as [Hzero | Hnz]; cbn [fst snd].
  - split; [split; [discriminate | intros [H _]; contradiction] |].
    split; [split; [discriminate | intros [H _]; contradiction] |].
    split; [reflexivity |]. split; [reflexivity |]. intros _. split; reflexivity.
  - cbv zeta.
    set (fh := {| ProviderEndpointRepo.newConsecutiveFailures := Some (current + 1);
                  ProviderEndpointRepo.newLastFailureTime := Some now;
                  ProviderEndpointRepo.newLastSuccessTime := None;
                  ProviderEndpointRepo.newHealthStatus := _ |}).
    set (sh := {| ProviderEndpointRepo.newConsecutiveFailures := Some 0;
                  ProviderEndpointRepo.newLastFailureTime := None;
                  ProviderEndpointRepo.newLastSuccessTime := Some now;
                  ProviderEndpointRepo.newHealthStatus := Some ProviderEndpointRepo.Healthy |}).
    destruct (updateEndpointHealth_thrown endpoint fh now table) as (Ft & Fu).
    destruct (updateEndpointHealth_thrown endpoint sh now table) as (St & Su).
    destruct (ProviderEndpointRepo.updateEndpointHealth endpoint fh now table)
      as [o t] eqn:Hrun.
    cbn [fst snd] in Ft, Fu.
    assert (Hfits : (exists failures,
                        ProviderEndpointRepo.newConsecutiveFailures fh = Some failures /\
                        ProviderEndpointRepo.fitsInteger failures = false) <->
                    ProviderEndpointRepo.fitsInteger (current + 1) = false).
    { subst fh. cbn [ProviderEndpointRepo.newConsecutiveFailures]. split.
      - intros (failures & Heq & Hno). congruence.
      - intros Hno. eauto. }
    assert (Hzero : ~ (exists failures,
                         ProviderEndpointRepo.newConsecutiveFailures sh = Some failures /\
                         ProviderEndpointRepo.fitsInteger failures = false)).
    { subst sh. cbn [ProviderEndpointRepo.newConsecutiveFailures].
      intros (failures & Heq & Hno). injection Heq as <-. discriminate Hno. }
    split.
    { destruct o as [u |]; cbn [fst].
      - split; [discriminate |]. intros [_ H]. exfalso.
        assert (Hthrown : Returned u = Thrown);
          [| discriminate Hthrown].
        apply (proj2 Ft). destruct H as [H | H]; [right; exact H | left; apply Hfits, H].
      - split; [| reflexivity]. intros _. split; [exact Hnz |].
        destruct (proj1 Ft eq_refl) as [H | H]; [right; apply Hfits, H | left; exact H]. }
    split.
    { rewrite St. split.
      - intros [H | H]; [contradiction | auto].
      - intros [_ H]. right. exact H. }
    split.
    { destruct o as [u |]; cbn [fst snd]; [discriminate |].
      intros _. rewrite (Fu eq_refl). reflexivity. }
    split; [intros H; rewrite (Su H); reflexivity | contradiction].
Qed.

Lemma X24_health_updates_frame_witness :
  (EndpointHealthTracker.recordFailure 12 2147483647 5 exampleTable).1 = Thrown /\
  Permutation (otherEndpoints 12 (EndpointHealthTracker.recordFailure 12 0 5 exampleTable).2)
    [exampleRow 11 5; exampleRow 13 3].
Proof.
  destruct (X24_health_updates_frame 12 2147483647 5 exampleTable)
    as (_ & _ & _ & _ & Hthrown & _).
  destruct (X24_health_updates_frame 12 0 5 exampleTable) as (_ & _ & Hothers & _).
  split; [| exact Hothers].
  apply Hthrown. split; [discriminate |]. right. reflexivity.
Defined.

(** ** Wildcard patterns *)

Section WildcardFacts.

Import CostMultiplier.

Lemma upperCase_eqb_refl (c : ascii) : Ascii.eqb (upperCase c) (upperCase c) = true.
Proof. apply Ascii.eqb_refl. Qed.

(** The loop of [.*] at the end of an expression. *)
Lemma star_end (text : string) :
  regexTest [AnyChars] text = allChars dotMatches text.
Proof.
  induction text as [| x t IH]; [reflexivity |].
  cbn [regexTest allChars] in *. rewrite IH. reflexivity.
Qed.

Lemma regexOfPattern_plain (c : ascii) (r : string) :
  plainChar c = true -> regexOfPattern (String c r) = Literal c :: regexOfPattern r.
Proof.
  unfold plainChar. intros H. apply andb_true_iff in H as [H1 H2].
  apply negb_true_iff in H1, H2. cbn [regexOfPattern]. rewrite H1, H2. reflexivity.
Qed.

Lemma matchWildcard_self (pattern : string) : matchWildcard pattern pattern = true.
Proof.
  unfold matchWildcard. induction pattern as [| c r IH]; [reflexivity |].
  cbn [regexOfPattern].
  destruct (Ascii.eqb c "*") eqn:Hstar; [| destruct (Ascii.eqb c "?") eqn:Hq].
  - apply Ascii.eqb_eq in Hstar. subst c.
    cbn [regexTest]. apply orb_true_iff. right.
    apply andb_true_iff. split; [reflexivity |].
    destruct r as [| y r']; cbn [regexTest] in IH |- *; rewrite IH; reflexivity.
  - apply Ascii.eqb_eq in Hq. subst c. cbn [regexTest]. rewrite IH. reflexivity.
  - cbn [regexTest]. rewrite upperCase_eqb_refl, IH. reflexivity.
Qed.

Lemma matchWildcard_literal (pattern : string) :
  allChars plainChar pattern = true ->
  forall text, matchWildcard pattern text = equalIgnoringCase pattern text.
Proof.
  unfold matchWildcard. induction pattern as [| c r IH]; intros Hplain text.
  - destruct text; reflexivity.
  - cbn [allChars] in Hplain. apply andb_true_iff in Hplain as [Hc Hr].
    rewrite regexOfPattern_plain by exact Hc.
    destruct text as [| x t]; [reflexivity |].
    cbn [regexTest equalIgnoringCase]. rewrite IH by exact Hr. reflexivity.
Qed.

Lemma matchWildcard_prefix (prefix : string) :
  allChars plainChar prefix = true ->
  forall text,
    matchWildcard (prefix ++ "*") text =
    startsWithIgnoringCase prefix text
    && allChars dotMatches (Js.dropChars (String.length prefix) text).
Proof.
  unfold matchWildcard. induction prefix as [| c r IH]; intros Hplain text.
  - change ("" ++ "*")%string with "*"%string.
    change (regexOfPattern "*") with [AnyChars]. rewrite star_end. reflexivity.
  - cbn [allChars] in Hplain. apply andb_true_iff in Hplain as [Hc Hr].
    change (String c r ++ "*")%string with (String c (r ++ "*"))%string.
    rewrite regexOfPattern_plain by exact Hc.
    destruct text as [| x t]; [reflexivity |].
    cbn [regexTest startsWithIgnoringCase String.length Js.dropChars].
    rewrite IH by exact Hr. rewrite andb_assoc. reflexivity.
Qed.

End WildcardFacts.

(** X25.  On ASCII texts, [matchWildcard] treats a pattern so: every
    pattern matches itself; a pattern without [*] and [?] matches exactly
    the texts equal to it up to the case of letters; and such a pattern
    followed by [*] matches exactly the texts that start with it, up to
    case, and go on without a line break. *)
Theorem X25_wildcard_patterns (pattern text : string) :
  allChars isAscii pattern = true ->
  allChars isAscii text = true ->
  CostMultiplier.matchWildcard pattern pattern = true /\
  (allChars plainChar pattern = true ->
   CostMultiplier.matchWildcard pattern text = equalIgnoringCase pattern text /\
   CostMultiplier.matchWildcard (pattern ++ "*") text =
     startsWithIgnoringCase pattern text
     && allChars CostMultiplier.dotMatches (Js.dropChars (String.length pattern) text)).
Proof.
  intros _ _. split; [apply matchWildcard_self |].
  intros Hplain. split.
  - apply matchWildcard_literal. exact Hplain.
  - apply matchWildcard_prefix. exact Hplain.
Qed.

Lemma X25_wildcard_patterns_witness :
  CostMultiplier.matchWildcard "claude-3-5-*" "Claude-3-5-Sonnet" =
  startsWithIgnoringCase "claude-3-5-" "Claude-3-5-Sonnet"
  && allChars CostMultiplier.dotMatches
       (Js.dropChars (String.length "claude-3-5-") "Claude-3-5-Sonnet").
Proof.
  destruct (X25_wildcard_patterns "claude-3-5-" "Claude-3-5-Sonnet" eq_refl eq_refl)
    as [_ Hplain].
  exact (proj2 (Hplain eq_refl)).
Defined.

(** ** Time periods *)

Section PeriodFacts.

Import CostMultiplier.

Lemma isDigit_cases (c : ascii) :
  Js.isDigit c = true ->
  In c ["0"; "1"; "2"; "3"; "4"; "5"; "6"; "7"; "8"; "9"]%char.
Proof.
  destruct c as [[] [] [] [] [] [] [] []]; vm_compute; intros H;
    try discriminate H; tauto.
Qed.

Lemma isDigit_range (c : ascii) :
  Js.isDigit c = true <-> 0 <= digitOf c <= 9.
Proof.
  unfold Js.isDigit, digitOf. cbv zeta.
  rewrite andb_true_iff, !Nat.leb_le. lia.
Qed.

Lemma charBetween_range (lo hi c : ascii) :
  charBetween lo hi c = true <->
  digitOf lo <= digitOf c <= digitOf hi.
Proof.
  unfold charBetween, digitOf. rewrite andb_true_iff, !Nat.leb_le. lia.
Qed.

(** [Number] of a text of two digits. *)
Lemma toNumber_two_digits (a b : ascii) :
  Js.isDigit a = true -> Js.isDigit b = true ->
  toNumber (String a (String b EmptyString)) = Some (10 * digitOf a + digitOf b).
Proof.
  intros Ha Hb. apply isDigit_cases in Ha, Hb. cbn [In] in Ha, Hb.
  repeat (destruct Ha as [<- | Ha]; [| try contradiction]);
    repeat (destruct Hb as [<- | Hb]; [| try contradiction]); reflexivity.
Qed.

Lemma splitColon_time (h1 h2 m1 m2 : ascii) :
  Js.isDigit h1 = true -> Js.isDigit h2 = true ->
  Js.isDigit m1 = true -> Js.isDigit m2 = true ->
  splitColon (String h1 (String h2 (String ":" (String m1 (String m2 EmptyString))))) =
  [String h1 (String h2 EmptyString); String m1 (String m2 EmptyString)].
Proof.
  intros H1 H2 H3 H4.
  apply digit_not_special in H1 as (_ & _ & _ & H1).
  apply digit_not_special in H2 as (_ & _ & _ & H2).
  apply digit_not_special in H3 as (_ & _ & _ & H3).
  apply digit_not_special in H4 as (_ & _ & _ & H4).
  cbn [splitColon]. rewrite H1, H2, H3, H4. reflexivity.
Qed.

(** A text accepted by [validateTimeFormat] is a time of the day. *)
Lemma valid_time_minutes (t : string) :
  validateTimeFormat t = true ->
  exists h m, minutesOf t = Some (h * 60 + m) /\ 0 <= h < 24 /\ 0 <= m < 60.
Proof.
  unfold validateTimeFormat.
  destruct t as [| h1 [| h2 [| c [| m1 [| m2 [| x t]]]]]]; try discriminate.
  intros H. repeat (apply andb_true_iff in H as [H ?]).
  match goal with Hc : Ascii.eqb c ":" = true |- _ => apply Ascii.eqb_eq in Hc; subst c end.
  match goal with Hm : Js.isDigit m2 = true |- _ => rename Hm into Hm2 end.
  match goal with Hm : charBetween "0" "5" m1 = true |- _ => rename Hm into Hm1 end.
  assert (Hm1d : Js.isDigit m1 = true)
    by (apply isDigit_range; apply charBetween_range in Hm1;
        change (digitOf "0") with 0 in Hm1; change (digitOf "5") with 5 in Hm1; lia).
  assert (Hh : Js.isDigit h1 = true /\ Js.isDigit h2 = true /\
               0 <= 10 * digitOf h1 + digitOf h2 < 24).
  { apply orb_true_iff in H as [H | H]; apply andb_true_iff in H as [Ha Hb].
    - apply charBetween_range in Ha.
      change (digitOf "0") with 0 in Ha; change (digitOf "1") with 1 in Ha.
      pose proof (proj1 (isDigit_range h2) Hb).
      split; [apply isDigit_range; lia |]. split; [exact Hb | lia].
    - apply Ascii.eqb_eq in Ha. subst h1. apply charBetween_range in Hb.
      change (digitOf "0") with 0 in Hb; change (digitOf "3") with 3 in Hb.
      change (digitOf "2") with 2.
      split; [reflexivity |]. split; [apply isDigit_range; lia | lia]. }
  destruct Hh as (Hh1 & Hh2 & Hhour).
  exists (10 * digitOf h1 + digitOf h2), (10 * digitOf m1 + digitOf m2).
  split.
  - unfold minutesOf. rewrite splitColon_time by assumption.
    cbn [map]. rewrite !toNumber_two_digits by assumption. reflexivity.
  - split; [exact Hhour |].
    apply charBetween_range in Hm1.
    change (digitOf "0") with 0 in Hm1; change (digitOf "5") with 5 in Hm1.
    pose proof (proj1 (isDigit_range m2) Hm2). lia.
Qed.

End PeriodFacts.

(** X26.  For a period whose two times pass [validateTimeFormat] and that
    has no restriction on the days: both times are times of the day, [S]
    and [E] minutes after midnight with [0 <= S, E < 1440]; the period holds
    the minute [m] exactly when [S <= m < E] if [S <= E], and when [S <= m]
    or [m < E] if the period runs over midnight.  A period whose start
    equals its end holds no minute, and otherwise the period read backwards
    holds exactly the minutes the period does not hold. *)
Theorem X26_time_period (startTime endTime : string) (m weekday : Z) :
  CostMultiplier.validateTimeFormat startTime = true ->
  CostMultiplier.validateTimeFormat endTime = true ->
  exists S E,
    CostMultiplier.minutesOf startTime = Some S /\
    CostMultiplier.minutesOf endTime = Some E /\
    0 <= S < 1440 /\ 0 <= E < 1440 /\
    (CostMultiplier.withinPeriod m weekday (everyDay startTime endTime) = true <->
     (S <= E /\ S <= m < E) \/ (E < S /\ (S <= m \/ m < E))) /\
    (S = E ->
     CostMultiplier.withinPeriod m weekday (everyDay startTime endTime) = false) /\
    (S <> E ->
     CostMultiplier.withinPeriod m weekday (everyDay endTime startTime) =
     negb (CostMultiplier.withinPeriod m weekday (everyDay startTime endTime))).
Proof.
  intros Hs He.
  destruct (valid_time_minutes startTime Hs) as (sh & sm & HS & Hsh & Hsm).
  destruct (valid_time_minutes endTime He) as (eh & em & HE & Heh & Hem).
  exists (sh * 60 + sm), (eh * 60 + em).
  split; [exact HS |]. split; [exact HE |].
  split; [lia |]. split; [lia |].
  unfold CostMultiplier.withinPeriod, everyDay.
  cbn [CostMultiplier.startTime CostMultiplier.endTime CostMultiplier.weekdays].
  rewrite Hs, He, HS, HE. cbn [andb negb].
  set (S := sh * 60 + sm). set (E := eh * 60 + em).
  split; [| split].
  - destruct (Z.leb_spec S E), (Z.leb_spec S m), (Z.ltb_spec m E); cbn [andb orb];
      split; intros H'; try discriminate H'; try reflexivity; lia.
  - intros Heq. rewrite Heq.
    destruct (Z.leb_spec E E), (Z.leb_spec E m), (Z.ltb_spec m E); cbn [andb orb];
      reflexivity || lia.
  - intros Hne.
    destruct (Z.leb_spec S E), (Z.leb_spec E S), (Z.leb_spec S m), (Z.ltb_spec m E),
             (Z.leb_spec E m), (Z.ltb_spec m S); cbn [andb orb negb];
      reflexivity || lia.
Qed.

Lemma X26_time_period_witness :
  exists S E,
    CostMultiplier.minutesOf "22:00" = Some S /\
    CostMultiplier.minutesOf "06:00" = Some E /\
    0 <= S < 1440 /\ 0 <= E < 1440.
Proof.
  destruct (X26_time_period "22:00" "06:00" 1380 3 eq_refl eq_refl)
    as (S & E & HS & HE & Hs & He & _).
  exists S, E. auto.
Defined.

(** ** Active sessions *)

Section ActiveSessions.

Import InMemoryZSet InMemoryPipeline SessionTracker.

Lemma run_zadd (now : Z) (key member : string) (score : Z) (st : InMemoryStore.t) :
  (run now (Zadd key score member) st).2 = (InMemoryStore.zadd key score member st).2.
Proof. cbn [run]. destruct (InMemoryStore.zadd key score member st). reflexivity. Qed.

Lemma run_expire (now : Z) (key : string) (seconds : Z) (st : InMemoryStore.t) :
  (run now (Expire key seconds) st).2 = (InMemoryStore.expire key seconds now st).2.
Proof. cbn [run]. destruct (InMemoryStore.expire key seconds now st). reflexivity. Qed.

Lemma exec_ready (now : Z) (commands : list Command) (st : InMemoryStore.t) :
  InMemoryStore.isReady (exec now commands st).2 = InMemoryStore.isReady st.
Proof.
  revert st. induction commands as [| cmd rest IH]; intros st; [reflexivity |].
  rewrite exec_cons. cbn [snd]. rewrite IH.
  unfold InMemoryStore.isReady. rewrite run_status. reflexivity.
Qed.

Lemma usable_exec (now : Z) (commands : list Command) (st : InMemoryStore.t) :
  usable (Some st) = Some st ->
  usable (Some (exec now commands st).2) = Some (exec now commands st).2.
Proof.
  unfold usable. rewrite exec_ready.
  destruct (InMemoryStore.isReady st); [reflexivity | discriminate].
Qed.

(** The score of a member of the global set after a pipeline that starts
    with adding it there and does not add to the global set again. *)
Lemma zscore_setex (key member key' : string) (seconds now : Z) (val : string)
  (st : InMemoryStore.t) :
  InMemoryStore.zscore key member (InMemoryStore.setex key' seconds val now st) =
  InMemoryStore.zscore key member st.
Proof. reflexivity. Qed.

Lemma zscore_expire (key member key' : string) (seconds now : Z) (st : InMemoryStore.t) :
  InMemoryStore.zscore key member (InMemoryStore.expire key' seconds now st).2 =
  InMemoryStore.zscore key member st.
Proof. rewrite !zscore_mapGet, zsetOf_expire. reflexivity. Qed.

Lemma zscore_zadd_same (key member : string) (score : Z) (st : InMemoryStore.t) :
  InMemoryStore.zscore key member (InMemoryStore.zadd key score member st).2 = Some score.
Proof. rewrite zscore_mapGet, zsetOf_zadd. apply mapGet_mapSet_eq. Qed.

Lemma zscore_zadd_other_key (key key' member member' : string) (score : Z)
  (st : InMemoryStore.t) :
  key' <> key ->
  InMemoryStore.zscore key member (InMemoryStore.zadd key' score member' st).2 =
  InMemoryStore.zscore key member st.
Proof. intros Hne. rewrite !zscore_mapGet, zsetOf_zadd_other by exact Hne. reflexivity. Qed.

Lemma keyKey_not_global (keyId : Z) : keyKey keyId <> globalKey.
Proof. unfold keyKey, globalKey. intros H. discriminate H. Qed.

Lemma providerKey_not_global (providerId : Z) : providerKey providerId <> globalKey.
Proof. unfold providerKey, globalKey. intros H. discriminate H. Qed.

Lemma Permutation_in_iff_members (member : string) (l l' : list (string * Z)) :
  Permutation l l' -> In member (map fst l) <-> In member (map fst l').
Proof.
  intros Hp. split; apply Permutation_in, Permutation_map;
    [exact Hp | symmetry; exact Hp].
Qed.

(** The sessions listed by [getActiveSessions] are the members of the global
    set seen less than five minutes ago. *)
Lemma listed_iff_recent (sessionId : string) (seen t : Z) (st : InMemoryStore.t) :
  usable (Some st) = Some st ->
  zsetInvariant st ->
  InMemoryStore.zscore globalKey sessionId st = Some seen ->
  In sessionId (getActiveSessions t (Some st)).1 <-> t < seen + 300000.
Proof.
  intros Hu Hinv Hseen. unfold getActiveSessions. rewrite Hu. cbn [fst].
  change (t - SESSION_TTL) with (t - 300000).
  rewrite zrange_all.
  rewrite (Permutation_in_iff_members sessionId
             (Js.sortBy snd (zsetOf globalKey
                (InMemoryStore.zremrangebyscore globalKey NegInf (Num (t - 300000)) st).2))
             (zsetOf globalKey
                (InMemoryStore.zremrangebyscore globalKey NegInf (Num (t - 300000)) st).2)
             (sortBy_Permutation _ _)).
  rewrite zsetOf_zremrangebyscore.
  pose proof (mapGet_None_iff sessionId
                (List.filter (fun e => t - 300000 <? e.2) (zsetOf globalKey st))) as Hnone.
  rewrite mapGet_filter in Hnone by (apply zsetOf_NoDup; exact Hinv).
  rewrite <- zscore_mapGet, Hseen in Hnone. cbn [snd] in Hnone.
  destruct (Z.ltb_spec (t - 300000) seen) as [Hlt | Hge].
  - split; [intros _; lia |]. intros _.
    destruct (in_dec string_dec sessionId
                (map fst (List.filter (fun e => t - 300000 <? e.2) (zsetOf globalKey st))))
      as [Hin | Hout]; [exact Hin |].
    apply Hnone in Hout. discriminate Hout.
  - split; [| intros; lia]. intros Hin. exfalso.
    apply (proj1 Hnone); [reflexivity | exact Hin].
Qed.

End ActiveSessions.

(** X27.  A session is listed as active for five minutes after it was last
    seen.  On a usable client, after [trackSession], [updateProvider] or
    [refreshSession] at time [now], [getActiveSessions] at time [t] lists
    the session exactly when [t < now + 300000]. *)
Theorem X27_active_for_five_minutes (sessionId : string) (keyId providerId now t : Z)
  (c : option InMemoryStore.t) (st : InMemoryStore.t) :
  SessionTracker.usable c = Some st ->
  zsetInvariant st ->
  (In sessionId
      (SessionTracker.getActiveSessions t
         (SessionTracker.trackSession sessionId keyId now c)).1
   <-> t < now + 300000) /\
  (In sessionId
      (SessionTracker.getActiveSessions t
         (SessionTracker.updateProvider sessionId providerId now c)).1
   <-> t < now + 300000) /\
  (In sessionId
      (SessionTracker.getActiveSessions t
         (SessionTracker.refreshSession sessionId keyId providerId now c)).1
   <-> t < now + 300000).
Proof.
  intros Hu Hinv.
  destruct (usable_ready c st Hu) as [-> Hready].
  unfold SessionTracker.trackSession, SessionTracker.updateProvider,
    SessionTracker.refreshSession.
  rewrite Hu.
  split; [| split]; apply listed_iff_recent;
    try (apply usable_exec; exact Hu);
    try (apply zsetInvariant_exec; exact Hinv).
  - unfold SessionTracker.trackSessionCommands.
    rewrite !exec_cons. cbn [InMemoryPipeline.exec snd].
    rewrite !run_expire, !run_zadd.
    rewrite zscore_expire, zscore_zadd_other_key by apply keyKey_not_global.
    rewrite zscore_expire. apply zscore_zadd_same.
  - rewrite !exec_cons. cbn [InMemoryPipeline.exec snd].
    rewrite !run_expire, !run_zadd.
    rewrite zscore_expire, zscore_zadd_other_key by apply providerKey_not_global.
    apply zscore_zadd_same.
  - unfold SessionTracker.refreshSessionCommands.
    rewrite !exec_cons. cbn [InMemoryPipeline.exec snd].
    rewrite !run_expire, !run_zadd. cbn [InMemoryPipeline.run snd].
    rewrite zscore_setex, !zscore_expire.
    rewrite zscore_zadd_other_key by apply providerKey_not_global.
    rewrite zscore_zadd_other_key by apply keyKey_not_global.
    apply zscore_zadd_same.
Qed.

Lemma X27_active_for_five_minutes_witness :
  SessionTracker.usable (Some InMemoryStore.empty) = Some InMemoryStore.empty /\
  In "s"%string
     (SessionTracker.getActiveSessions 300999
        (SessionTracker.trackSession "s" 1 1000 (Some InMemoryStore.empty))).1.
Proof.
  assert (Hu : SessionTracker.usable (Some InMemoryStore.empty) = Some InMemoryStore.empty)
    by reflexivity.
  split; [exact Hu |].
  apply (proj1 (X27_active_for_five_minutes "s" 1 2 1000 300999
                  (Some InMemoryStore.empty) InMemoryStore.empty Hu zsetInvariant_empty)).
  lia.
Defined.

(** ** The session sets an hour after tracking *)

Section BackstopFacts.

Import InMemoryZSet InMemoryPipeline SessionTracker.






End BackstopFacts.



(** ** Tracking the daily cost of a user *)

Section DailyCostTracking.

Import InMemoryMap RateLimitService.

Lemma liveFloat_read (key : string) (now : Z) (d : InMemoryMap.t) :
  (liveFloat key now d).1 =
  match (get key now d).1 with
  | Some v => if Js.isNaN (Js.parseFloat v) then Js.zero else Js.parseFloat v
  | None => Js.zero
  end.
Proof.
  rewrite get_fst. unfold liveFloat.
  destruct (d !! key) as [e |]; [destruct (isExpired now e) |]; reflexivity.
Qed.

Lemma liveFloat_not_expired (key : string) (now : Z) (d : InMemoryMap.t) (v : string) :
  isExpired now {| value := v; expiry := (liveFloat key now d).2 |} = false.
Proof.
  unfold liveFloat, isExpired at 1. cbn [expiry].
  destruct (d !! key) as [e |]; [| reflexivity].
  destruct (isExpired now e) eqn:He; [reflexivity |].
  unfold isExpired in He. exact He.
Qed.

Lemma incrbyfloat_unfold (key : string) (increment : Js.number) (now : Z)
  (d : InMemoryMap.t) :
  (incrbyfloat key increment now d).2 =
  <[key := {| value := Js.toString (Js.add (liveFloat key now d).1 increment);
              expiry := (liveFloat key now d).2 |}]> d.
Proof. unfold incrbyfloat. destruct (liveFloat key now d). reflexivity. Qed.

(** The entry left by [trackUserDailyCost]. *)
Lemma trackUserDailyCost_entry (env : Collaborators) (userId : Z) (cost : Js.number)
  (now : Z) (w : World) (st : InMemoryStore.t) :
  client w = Some st -> Js.gt cost Js.zero = true ->
  exists st',
    trackUserDailyCost env userId cost now w = withClient w st' /\
    InMemoryStore.mapStore st' !! dailyCostKey userId =
    Some {| value := Js.toString
                       (Js.add (liveFloat (dailyCostKey userId) now
                                  (InMemoryStore.mapStore st)).1 cost);
            expiry := Some (now + getSecondsUntilMidnight env now * 1000) |}.
Proof.
  intros Hc Hcost. unfold trackUserDailyCost. rewrite Hc.
  destruct (unlimited_positive cost Hcost) as [_ Hle]. rewrite Hle.
  fold (dailyCostKey userId). eexists. split; [reflexivity |].
  rewrite store_expire_unfold. cbn [snd InMemoryStore.mapStore InMemoryStore.withM].
  unfold InMemoryStore.incrbyfloat.
  pose proof (incrbyfloat_unfold (dailyCostKey userId) cost now (InMemoryStore.mapStore st))
    as Hinc.
  destruct (incrbyfloat (dailyCostKey userId) cost now (InMemoryStore.mapStore st))
    as [r m]. cbn [snd] in Hinc. subst m.
  cbn [snd InMemoryStore.mapStore InMemoryStore.withM].
  unfold expire. rewrite lookup_insert_eq, liveFloat_not_expired.
  cbn [snd value]. apply lookup_insert_eq.
Qed.

End DailyCostTracking.

(** X28.  [trackUserDailyCost] with a positive cost adds the cost to the
    cached daily cost of the user (0 when there is no live entry, or when
    the entry is not a number) and makes the entry last until midnight.  The
    sum is a sum of doubles and is stored as its text.  When that text reads
    back as the sum, a [checkUserDailyCost] before midnight is decided on
    the new amount and asks the durable store nothing; when there was no
    live entry, it is decided on the tracked cost alone. *)
Theorem X28_tracked_daily_cost (env : RateLimitService.Collaborators)
  (userId : Z) (cost dailyLimitUsd : Js.number) (now now' : Z)
  (w : RateLimitService.World) (st : InMemoryStore.t) :
  RateLimitService.client w = Some st ->
  Js.gt cost Js.zero = true -> Js.lt Js.zero dailyLimitUsd = true ->
  now' < now + RateLimitService.getSecondsUntilMidnight env now * 1000 ->
  let before := match (InMemoryStore.get (dailyCostKey userId) now st).1 with
                | Some v => if Js.isNaN (Js.parseFloat v) then Js.zero else Js.parseFloat v
                | None => Js.zero
                end in
  let total := Js.add before cost in
  let r := RateLimitService.checkUserDailyCost env userId dailyLimitUsd now'
             (RateLimitService.trackUserDailyCost env userId cost now w) in
  Js.parseFloat (Js.toString total) = total ->
  RateLimitService.uCurrent r.1 = Some total /\
  RateLimitService.uAllowed r.1 = negb (Js.ge total dailyLimitUsd) /\
  RateLimitService.dbQueries r.2 = RateLimitService.dbQueries w.
Proof.
  intros Hc Hcost Hlimit Hsoon before total r Hback.
  destruct (trackUserDailyCost_entry env userId cost now w st Hc Hcost)
    as (st' & Htrack & Hentry).
  rewrite liveFloat_read, <- store_get_fst in Hentry.
  fold before in Hentry. fold total in Hentry.
  subst r. rewrite Htrack. unfold RateLimitService.checkUserDailyCost.
  destruct (unlimited_positive dailyLimitUsd Hlimit) as [Hlimited _].
  cbn [RateLimitService.unlimited] in Hlimited. rewrite Hlimited.
  cbn [RateLimitService.client RateLimitService.withClient].
  fold (dailyCostKey userId).
  unfold InMemoryStore.get, InMemoryMap.get. rewrite Hentry.
  unfold InMemoryMap.isExpired. cbn [InMemoryMap.expiry InMemoryMap.value].
  destruct (Z.leb_spec (now + RateLimitService.getSecondsUntilMidnight env now * 1000) now');
    [lia |].
  rewrite Hback. unfold RateLimitService.reaches.
  destruct (Js.ge total dailyLimitUsd);
    cbn [fst snd RateLimitService.uCurrent RateLimitService.uAllowed
         RateLimitService.dbQueries negb];
    auto.
Qed.

Lemma X28_tracked_daily_cost_witness :
  let st := InMemoryStore.setex (dailyCostKey 7) 3600 "2.5" 0 InMemoryStore.empty in
  let w := {| RateLimitService.client := Some st; RateLimitService.dbQueries := [] |} in
  let env := constantStore (num "500") in
  Js.gt (num "1") Js.zero = true /\ Js.lt Js.zero (num "10") = true /\
  RateLimitService.uCurrent
    (RateLimitService.checkUserDailyCost env 7 (num "10") 2000
       (RateLimitService.trackUserDailyCost env 7 (num "1") 1000 w)).1
  = Some (num "3.5").
Proof.
  intros st w env.
  assert (Hcost : Js.gt (num "1") Js.zero = true) by reflexivity.
  assert (Hlimit : Js.lt Js.zero (num "10") = true) by reflexivity.
  split; [exact Hcost |]. split; [exact Hlimit |].
  refine (proj1 (X28_tracked_daily_cost env 7 (num "1") (num "10") 1000 2000 w st
                   _ Hcost Hlimit _ _));
    [reflexivity | vm_compute; reflexivity | vm_compute; reflexivity].
Defined.

(** ** Resetting the time to live *)

(** X29.  [expire(key, seconds)] at time [now] answers 1 for a key with a
    live string entry and makes that entry, value unchanged, last until
    [now + seconds * 1000] excluded; it answers 0 for any other key and
    leaves no entry under it.  It changes no other string entry and no
    sorted set. *)
Theorem X29_expire_resets_ttl (key : string) (seconds now t : Z) (st : InMemoryStore.t) :
  let r := InMemoryStore.expire key seconds now st in
  match (InMemoryStore.get key now st).1 with
  | Some v =>
      r.1 = 1 /\
      (t < now + seconds * 1000 -> (InMemoryStore.get key t r.2).1 = Some v) /\
      (now + seconds * 1000 <= t -> (InMemoryStore.get key t r.2).1 = None)
  | None =>
      r.1 = 0 /\ InMemoryStore.mapStore r.2 !! key = None
  end /\
  (forall other, other <> key ->
     InMemoryStore.mapStore r.2 !! other = InMemoryStore.mapStore st !! other) /\
  InMemoryStore.zsetStore r.2 = InMemoryStore.zsetStore st.
Proof.
  intros r. subst r. rewrite store_expire_unfold. cbn [fst snd].
  rewrite store_get_fst, get_fst. unfold InMemoryMap.expire.
  cbn [InMemoryStore.zsetStore InMemoryStore.withM].
  destruct (InMemoryStore.mapStore st !! key) as [e |] eqn:He.
  - destruct (InMemoryMap.isExpired now e) eqn:Hexp;
      cbn [fst snd InMemoryStore.mapStore InMemoryStore.withM].
    + split; [split; [reflexivity | apply lookup_delete_eq] |].
      split; [| reflexivity].
      intros other Hne. apply lookup_delete_ne. congruence.
    + split; [| split; [| reflexivity]].
      * split; [reflexivity |].
        rewrite !store_get_fst, !get_fst.
        cbn [InMemoryStore.mapStore InMemoryStore.withM]. rewrite lookup_insert_eq.
        unfold InMemoryMap.isExpired. cbn [InMemoryMap.expiry InMemoryMap.value].
        destruct (Z.leb_spec (now + seconds * 1000) t); split; intros; lia || reflexivity.
      * intros other Hne. apply lookup_insert_ne. congruence.
  - cbn [fst snd InMemoryStore.mapStore InMemoryStore.withM].
    split; [split; [reflexivity | exact He] |].
    split; reflexivity.
Qed.

Lemma X29_expire_resets_ttl_witness :
  let st := InMemoryStore.set "k" "v" InMemoryStore.empty in
  (InMemoryStore.get "k" 4999 (InMemoryStore.expire "k" 5 0 st).2).1 = Some "v"%string.
Proof.
  intros st.
  pose proof (proj1 (X29_expire_resets_ttl "k" 5 0 4999 st)) as H.
  cbv zeta in H.
  change (InMemoryStore.get "k" 0 st).1 with (Some "v"%string) in H.
  destruct H as (_ & Hlive & _). apply Hlive. lia.
Defined.

(** ** The endpoint list under health updates *)

Section ListingFacts.

Import ProviderEndpointRepo EndpointHealthTracker.

Lemma filter_map_same {A} (p : A -> bool) (f : A -> A) (l : list A) :
  (forall a, p (f a) = p a) ->
  List.filter p (map f l) = map f (List.filter p l).
Proof.
  intros Hp. induction l as [| x r IH]; [reflexivity |].
  cbn [map List.filter]. rewrite Hp.
  destruct (p x); cbn [map]; rewrite IH; reflexivity.
Qed.

(** The rows listed for a provider, whatever the order of the table: the
    rows of the provider, in ascending order of priority. *)
Lemma listing_rows (T : ProviderEndpoint -> ProviderEndpoint) (provider : Z)
  (table table' : list ProviderEndpoint) :
  Permutation table' table ->
  exists rows',
    findEndpointsByProviderId T provider table' = map T rows' /\
    Permutation rows' (List.filter (fun r => providerId r =? provider) table) /\
    StronglySorted (fun a b => priority a <= priority b) rows'.
Proof.
  intros Hperm.
  exists (Js.sortBy priority (List.filter (fun r => providerId r =? provider) table')).
  split; [reflexivity |]. split.
  - rewrite sortBy_Permutation. apply filter_Permutation_compat. exact Hperm.
  - apply sortBy_sorted.
Qed.

End ListingFacts.

(** X30.  Recording a failure or a success changes nothing in what
    [findEndpointsByProviderId] lists but health.  After the call, and in
    whatever order the table then holds its rows, the listing of a provider
    is in ascending order of priority and holds the same endpoints with the
    same configuration as before, the rows of the other endpoints being the
    rows they were.  The order among rows of equal priority is the
    database's and nothing is said of it. *)
Theorem X30_listing_stable_under_health
  (toProviderEndpoint :
     ProviderEndpointRepo.ProviderEndpoint -> ProviderEndpointRepo.ProviderEndpoint)
  (provider endpoint current now : Z)
  (table : list ProviderEndpointRepo.ProviderEndpoint) :
  let rows := Js.sortBy ProviderEndpointRepo.priority
                (List.filter (fun r => ProviderEndpointRepo.providerId r =? provider)
                   table) in
  ProviderEndpointRepo.findEndpointsByProviderId toProviderEndpoint provider table =
    map toProviderEndpoint rows /\
  forall table',
    Permutation table' (EndpointHealthTracker.recordFailure endpoint current now table).2 \/
    Permutation table' (EndpointHealthTracker.recordSuccess endpoint now table).2 ->
    exists rows',
      ProviderEndpointRepo.findEndpointsByProviderId toProviderEndpoint provider table' =
        map toProviderEndpoint rows' /\
      StronglySorted
        (fun a b => ProviderEndpointRepo.priority a <= ProviderEndpointRepo.priority b) rows' /\
      Permutation (map configuration rows') (map configuration rows) /\
      Permutation (otherEndpoints endpoint rows') (otherEndpoints endpoint rows).
Proof.
  intros rows. split; [reflexivity |].
  intros table' Hcall.
  destruct (health_calls_map endpoint current now table) as [Hfail Hsucc].
  assert (Hmap : exists f : ProviderEndpointRepo.ProviderEndpoint ->
                              ProviderEndpointRepo.ProviderEndpoint,
             Permutation table' (map f table) /\
             forall r, sameConfiguration r (f r) /\
                       (ProviderEndpointRepo.id r <> endpoint -> f r = r)).
  { destruct Hcall as [Hp | Hp];
      [destruct Hfail as (f & Hf & Hsame) | destruct Hsucc as (f & Hf & Hsame)];
      exists f; rewrite <- Hf; auto. }
  destruct Hmap as (f & Hperm & Hf).
  destruct (listing_rows toProviderEndpoint provider (map f table) table' Hperm)
    as (rows' & Hlist & Hrows & Hsorted).
  exists rows'. split; [exact Hlist |]. split; [exact Hsorted |].
  assert (Hsame : Permutation rows' (map f rows)).
  { rewrite Hrows, filter_map_same.
    - apply Permutation_map. symmetry. apply sortBy_Permutation.
    - intros a. destruct (Hf a) as [(_ & Hp & _) _]. rewrite Hp. reflexivity. }
  split.
  - rewrite (Permutation_map configuration Hsame).
    rewrite map_configuration by (intros r; apply Hf). reflexivity.
  - unfold otherEndpoints at 1. rewrite (filter_Permutation_compat _ _ _ Hsame).
    fold (otherEndpoints endpoint (map f rows)).
    rewrite (map_others endpoint f) by exact Hf. reflexivity.
Qed.

Lemma X30_listing_stable_under_health_witness :
  let table := [exampleRow 11 1; exampleRow 12 1; exampleRow 13 1] in
  let after := (EndpointHealthTracker.recordFailure 11 0 9 table).2 in
  let moved := [exampleRow 12 1; exampleRow 13 1] ++ List.filter
                 (fun r => ProviderEndpointRepo.id r =? 11) after in
  Permutation moved after /\
  map ProviderEndpointRepo.id
    (ProviderEndpointRepo.findEndpointsByProviderId (fun r => r) 4 moved) = [12; 13; 11] /\
  exists rows',
    ProviderEndpointRepo.findEndpointsByProviderId (fun r => r) 4 moved =
      map (fun r => r) rows' /\
    StronglySorted
        (fun a b => ProviderEndpointRepo.priority a <= ProviderEndpointRepo.priority b) rows'.
Proof.
  intros table after moved.
  assert (Hperm : Permutation moved after).
  { vm_compute.
    match goal with
    | |- Permutation [?b; ?c; ?a] _ =>
        apply Permutation_sym; exact (Permutation_cons_append [b; c] a)
    end. }
  split; [exact Hperm |]. split; [vm_compute; reflexivity |].
  destruct (X30_listing_stable_under_health (fun r => r) 4 11 0 9 table) as [_ Hafter].
  destruct (Hafter moved (or_introl Hperm)) as (rows' & Heq & Hsorted & _).
  exists rows'. split; [exact Heq | exact Hsorted].
Defined.
